(** * Statement parser of the cx compiler front end

    A shallow embedding of [src/parse_statement.cpp]: the statement
    dispatcher, the statement-list driver and one routine per statement
    form, together with the backpatch protocol on location markers.

    The parser object is modelled as a record that is threaded through
    every routine.  The recursive descent is not structural on the
    input (a collaborator may leave the cursor where it was), so the
    mutually recursive routines take a fuel argument and return
    [None] only when the fuel is exhausted. *)

From stdpp Require Import base option list strings gmap.


(** ** Tokens *)

Inductive cx_token_code :=
  | tc_dummy | tc_identifier | tc_number | tc_string | tc_end_of_file
  | tc_error
  | tc_plus | tc_minus | tc_star | tc_bit_NOT | tc_logic_NOT
  | tc_equal | tc_equal_equal | tc_lessthan
  | tc_pound | tc_semicolon | tc_colon | tc_comma
  | tc_left_paren | tc_right_paren
  | tc_left_bracket | tc_right_bracket
  | tc_CONST | tc_DO | tc_WHILE | tc_IF | tc_ELSE | tc_FOR
  | tc_SWITCH | tc_CASE | tc_DEFAULT | tc_BREAK | tc_RETURN.

#[global] Instance cx_token_code_eq_dec : EqDecision cx_token_code.
Proof. solve_decision. Defined.

(** The literal type carried by a number token ([p_token->type()]). *)
Inductive cx_data_type :=
  | ty_dummy | ty_integer | ty_real | ty_character | ty_string.

#[global] Instance cx_data_type_eq_dec : EqDecision cx_data_type.
Proof. solve_decision. Defined.

Record cx_token := Token {
  code : cx_token_code;
  string__ : string;
  type : cx_data_type
}.

#[global] Instance cx_token_eq_dec : EqDecision cx_token.
Proof. solve_decision. Defined.

(** ** Errors *)

Inductive cx_error_code :=
  | err_missing_WHILE | err_missing_left_paren | err_missing_right_paren
  | err_missing_semicolon | err_missing_colon | err_missing_right_bracket
  | err_incompatible_types | err_invalid_constant
  | err_undefined_identifier.

#[global] Instance cx_error_code_eq_dec : EqDecision cx_error_code.
Proof. solve_decision. Defined.

(** ** Type descriptors and symbol-table nodes *)

Inductive cx_type_form_code :=
  | fc_none | fc_scalar | fc_enum | fc_subrange | fc_array | fc_complex.

#[global] Instance cx_type_form_code_eq_dec : EqDecision cx_type_form_code.
Proof. solve_decision. Defined.

(** A type object.  [type_addr] stands for the address of the object:
    the source compares type descriptors by pointer.  A subrange type
    carries the type it ranges over ([subrange.p_base_type]). *)
Inductive cx_type :=
  | TypeObj (addr : nat) (fc : cx_type_form_code)
  | SubrangeObj (addr : nat) (p_base_type : cx_type).

Definition type_addr (t : cx_type) : nat :=
  match t with TypeObj a _ | SubrangeObj a _ => a end.

Definition form (t : cx_type) : cx_type_form_code :=
  match t with TypeObj _ f => f | SubrangeObj _ _ => fc_subrange end.

(** Pointer comparison of two type descriptors. *)
Definition same_type (a b : cx_type) : bool :=
  bool_decide (type_addr a = type_addr b).

(** Modelled from the spec: [cx_type::base_type] is declared in a header
    that is not part of the sources; the spec speaks of "the
    expression's base type", which for a subrange is the type it ranges
    over and for every other form the type itself. *)
Definition base_type (t : cx_type) : cx_type :=
  match t with
  | SubrangeObj _ b => b
  | TypeObj _ _ => t
  end.

Inductive cx_function_code :=
  | func_declared | func_forward | func_standard | func_std_member
  | func_std_iterator.

#[global] Instance cx_function_code_eq_dec : EqDecision cx_function_code.
Proof. solve_decision. Defined.

(** The part of a routine's symbol-table node the statement parser reads:
    [p_function_id->p_type] and [p_function_id->defn.routine.which]. *)
Record cx_symtab_node := SymtabNode {
  p_type : cx_type;
  which : cx_function_code
}.

(** ** Intermediate code *)

Inductive icode_unit :=
  | ic_token (t : cx_token)
  | ic_location_marker (target : option nat)
  | ic_line_marker (line : nat).

(** Calls on the marker interface, in the order they are made. *)
Inductive marker_event :=
  | Reserve (m : nat)
  | Fixup (m : nat).

(** ** The parser object *)

Record cx_parser := Parser {
  input : list cx_token;            (* the current token and what follows *)
  icode : list icode_unit;          (* the intermediate code stream *)
  errors : list cx_error_code;      (* the error sink, oldest first *)
  symtab : gmap string cx_symtab_node;
  mlog : list marker_event;         (* ghost: marker calls, oldest first *)
  dispatched : nat                  (* ghost: calls of the dispatcher *)
}.

Definition set_input (ts : list cx_token) (p : cx_parser) : cx_parser :=
  Parser ts (icode p) (errors p) (symtab p) (mlog p) (dispatched p).

Definition set_icode (c : list icode_unit) (p : cx_parser) : cx_parser :=
  Parser (input p) c (errors p) (symtab p) (mlog p) (dispatched p).

Definition set_errors (e : list cx_error_code) (p : cx_parser) : cx_parser :=
  Parser (input p) (icode p) e (symtab p) (mlog p) (dispatched p).

Definition set_mlog (l : list marker_event) (p : cx_parser) : cx_parser :=
  Parser (input p) (icode p) (errors p) (symtab p) l (dispatched p).

Definition set_dispatched (n : nat) (p : cx_parser) : cx_parser :=
  Parser (input p) (icode p) (errors p) (symtab p) (mlog p) n.

(** The code of the current token; past the last token the scanner
    delivers end-of-file for ever. *)
Definition token (p : cx_parser) : cx_token_code :=
  match input p with
  | [] => tc_end_of_file
  | t :: _ => code t
  end.

Definition eof_token : cx_token := Token tc_end_of_file "" ty_dummy.

Definition p_token (p : cx_parser) : cx_token :=
  match input p with
  | [] => eof_token
  | t :: _ => t
  end.

(** ** Collaborator operations

    None of the following is defined in [parse_statement.cpp]; each is
    modelled from the interface the spec gives for it. *)

(** Modelled from the spec: [cx_error] is the error sink, "records a
    categorized error without stopping the pass". *)
Definition cx_error (e : cx_error_code) (p : cx_parser) : cx_parser :=
  set_errors (errors p ++ [e]) p.

(** Modelled from the spec: [get_token] is the cursor's "advance"
    operation without recording. *)
Definition get_token (p : cx_parser) : cx_parser :=
  set_input (tail (input p)) p.

(** Modelled from the spec: [get_token_append] is the cursor's "advance"
    operation that "records the consumed token into the intermediate
    stream".  The consumed token is the current one, [p_token]. *)
Definition get_token_append (p : cx_parser) : cx_parser :=
  set_input (tail (input p)) (set_icode (icode p ++ [ic_token (p_token p)]) p).

(** Modelled from the spec: [conditional_get_token_append] requires a
    token, "reporting+continuing if absent (the cursor is not advanced
    past a genuinely missing token)". *)
Definition conditional_get_token_append
    (tc : cx_token_code) (ec : cx_error_code) (p : cx_parser) : cx_parser :=
  if decide (tc = token p) then get_token_append p else cx_error ec p.

(** Modelled from the spec: [put_location_marker] "returns an opaque id
    bound to a stream slot"; the id is the position of the slot. *)
Definition put_location_marker (p : cx_parser) : nat * cx_parser :=
  let m := length (icode p) in
  (m, set_mlog (mlog p ++ [Reserve m])
        (set_icode (icode p ++ [ic_location_marker None]) p)).

(** Modelled from the spec: [fixup_location_marker] "writes the current
    stream length/position into that slot".  A location outside the
    stream is left alone here (the source would write out of bounds). *)
Definition fixup_location_marker (location : nat) (p : cx_parser) : cx_parser :=
  set_mlog (mlog p ++ [Fixup location])
    (set_icode
       (<[location := ic_location_marker (Some (length (icode p)))]> (icode p))
       p).

(** Modelled from the spec: [token_in] tests membership of a token code
    in a token list. *)
Definition token_in (tc : cx_token_code) (l : list cx_token_code) : bool :=
  bool_decide (tc ∈ l).

(** The loop [while (token == tc_semicolon) get_token_append();].  Every
    turn consumes a token, so [length (input p)] turns are enough. *)
Fixpoint skip_semicolons_loop (k : nat) (p : cx_parser) : cx_parser :=
  match k with
  | 0 => p
  | S k =>
      if decide (token p = tc_semicolon)
      then skip_semicolons_loop k (get_token_append p)
      else p
  end.

Definition skip_semicolons (p : cx_parser) : cx_parser :=
  skip_semicolons_loop (length (input p)) p.

(** Modelled from the spec: [resync] (§4.9) checks the current token
    against the first list and, when it is not there, discards tokens
    "one at a time until reaching a token in the union" of both lists
    "or end-of-input". *)
Fixpoint resync_loop (k : nat) (l1 l2 : list cx_token_code)
    (p : cx_parser) : cx_parser :=
  match k with
  | 0 => p
  | S k =>
      if token_in (token p) l1 || token_in (token p) l2
         || bool_decide (token p = tc_end_of_file)
      then p
      else resync_loop k l1 l2 (get_token p)
  end.

Definition resync (l1 l2 : list cx_token_code) (p : cx_parser) : cx_parser :=
  if token_in (token p) l1 then p
  else resync_loop (length (input p)) l1 l2 p.

(** Modelled from the spec: [search_all] is the symbol table's
    [lookup(name) -> Option<SymbolNode>]. *)
Definition search_all (name : string) (p : cx_parser) : option cx_symtab_node :=
  symtab p !! name.

(** ** The statement parser *)

Section Parser.

(** Token lists declared outside [parse_statement.cpp]. *)
Variables tokenlist_statement_follow tokenlist_statement_start
          tokenlist_unary_ops : list cx_token_code.

(** Predefined type objects ([p_integer_type], [p_char_type]). *)
Variables p_integer_type p_char_type : cx_type.

(** The type checker: [is_boolean] and [is_assignment_compatible]. *)
Variable is_boolean : cx_type → bool.
Variable assignment_compatible : cx_type → cx_type → bool.

(** Sub-parsers and emitters that live in other translation units. *)
Variable insert_line_marker : cx_parser → cx_parser.
Variable parse_expression : cx_parser → cx_type * cx_parser.
Variable parse_declarations_or_assignment :
  cx_symtab_node → cx_parser → cx_parser.
Variable parse_constant_declaration : cx_symtab_node → cx_parser → cx_parser.
Variable parse_execute_directive : cx_symtab_node → cx_parser → cx_parser.

(** Modelled from the spec: [check_boolean] requires a boolean type,
    "error incompatible types otherwise, non-fatal". *)
Definition check_boolean (t : cx_type) (p : cx_parser) : cx_parser :=
  if is_boolean t then p else cx_error err_incompatible_types p.

(** Modelled from the spec: [check_assignment_type_compatible] raises
    the given error "on mismatch (non-fatal)". *)
Definition check_assignment_type_compatible
    (target source : cx_type) (ec : cx_error_code)
    (p : cx_parser) : cx_parser :=
  if assignment_compatible target source then p else cx_error ec p.

(** [parse_RETURN] *)
Definition parse_RETURN (p_function_id : cx_symtab_node)
    (p : cx_parser) : cx_parser :=
  let p := get_token_append p in
  let '(t, p) := parse_expression p in
  check_assignment_type_compatible (p_type p_function_id) t
    err_incompatible_types p.

(** The routines that call each other.  [n] is the fuel: a routine
    called with [S n] calls the others with [n].  The dispatcher first
    counts its call in the ghost field [dispatched]. *)
Fixpoint parse_statement (n : nat) (p_function_id : cx_symtab_node)
    (p : cx_parser) {struct n} : option cx_parser :=
  match n with
  | 0 => None
  | S n =>
      let p := set_dispatched (S (dispatched p)) p in
      let p := insert_line_marker p in
      p ← match token p with
          | tc_identifier =>
              Some (parse_declarations_or_assignment p_function_id p)
          | tc_CONST =>
              let p := get_token_append p in
              Some (parse_constant_declaration p_function_id p)
          | tc_DO => parse_DO n p_function_id p
          | tc_WHILE => parse_WHILE n p_function_id p
          | tc_IF => parse_IF n p_function_id p
          | tc_FOR => parse_FOR n p_function_id p
          | tc_SWITCH => parse_SWITCH n p_function_id p
          | tc_BREAK => Some (get_token_append p)
          | tc_left_bracket => parse_compound n p_function_id p
          | tc_RETURN => Some (parse_RETURN p_function_id p)
          | tc_pound =>
              let p := get_token p in
              Some (parse_execute_directive p_function_id p)
          | _ => Some p
          end;
      Some (if decide (token p ≠ tc_end_of_file)
            then resync tokenlist_statement_follow
                        tokenlist_statement_start p
            else p)
  end

with parse_statement_list (n : nat) (p_function_id : cx_symtab_node)
    (terminator : cx_token_code) (p : cx_parser) {struct n}
    : option cx_parser :=
  match n with
  | 0 => None
  | S n =>
      p ← parse_statement n p_function_id p;
      let p := skip_semicolons p in
      if decide (token p ≠ terminator ∧ token p ≠ tc_end_of_file)
      then parse_statement_list n p_function_id terminator p
      else Some p
  end

with parse_DO (n : nat) (p_function_id : cx_symtab_node)
    (p : cx_parser) {struct n} : option cx_parser :=
  match n with
  | 0 => None
  | S n =>
      let '(break_point, p) := put_location_marker p in
      let p := get_token_append p in
      p ← parse_statement_list n p_function_id tc_WHILE p;
      let p := conditional_get_token_append tc_WHILE err_missing_WHILE p in
      let p := conditional_get_token_append tc_left_paren
                 err_missing_left_paren p in
      let '(t, p) := parse_expression p in
      let p := check_boolean t p in
      let p := conditional_get_token_append tc_right_paren
                 err_missing_right_paren p in
      Some (fixup_location_marker break_point p)
  end

with parse_WHILE (n : nat) (p_function_id : cx_symtab_node)
    (p : cx_parser) {struct n} : option cx_parser :=
  match n with
  | 0 => None
  | S n =>
      let '(break_point, p) := put_location_marker p in
      let p := get_token_append p in
      let p := conditional_get_token_append tc_left_paren
                 err_missing_left_paren p in
      let '(t, p) := parse_expression p in
      let p := check_boolean t p in
      let p := conditional_get_token_append tc_right_paren
                 err_missing_right_paren p in
      p ← parse_statement n p_function_id p;
      Some (fixup_location_marker break_point p)
  end

with parse_IF (n : nat) (p_function_id : cx_symtab_node)
    (p : cx_parser) {struct n} : option cx_parser :=
  match n with
  | 0 => None
  | S n =>
      let '(at_false_location_marker, p) := put_location_marker p in
      let p := get_token_append p in
      let p := conditional_get_token_append tc_left_paren
                 err_missing_left_paren p in
      let '(t, p) := parse_expression p in
      let p := check_boolean t p in
      let p := conditional_get_token_append tc_right_paren
                 err_missing_right_paren p in
      p ← parse_statement n p_function_id p;
      let p := skip_semicolons p in
      let p := fixup_location_marker at_false_location_marker p in
      if decide (token p = tc_ELSE) then
        let '(at_follow_location_marker, p) := put_location_marker p in
        let p := get_token_append p in
        p ← parse_statement n p_function_id p;
        let p := skip_semicolons p in
        Some (fixup_location_marker at_follow_location_marker p)
      else Some p
  end

with parse_FOR (n : nat) (p_function_id : cx_symtab_node)
    (p : cx_parser) {struct n} : option cx_parser :=
  match n with
  | 0 => None
  | S n =>
      let '(break_point, p) := put_location_marker p in
      let '(statementMarker, p) := put_location_marker p in
      let '(condition_marker, p) := put_location_marker p in
      let '(increment_marker, p) := put_location_marker p in
      let p := get_token_append p in
      let p := conditional_get_token_append tc_left_paren
                 err_missing_left_paren p in
      let p :=
        if decide (token p ≠ tc_semicolon) then
          let p := parse_declarations_or_assignment p_function_id p in
          conditional_get_token_append tc_semicolon err_missing_semicolon p
        else get_token_append p in
      let p := fixup_location_marker condition_marker p in
      let p :=
        if decide (token p ≠ tc_semicolon) then
          let '(t, p) := parse_expression p in
          let p := check_boolean t p in
          conditional_get_token_append tc_semicolon err_missing_semicolon p
        else get_token_append p in
      let p := fixup_location_marker increment_marker p in
      let p :=
        if decide (token p ≠ tc_right_paren) then
          (parse_expression p).2
        else p in
      let p := conditional_get_token_append tc_right_paren
                 err_missing_right_paren p in
      let p := fixup_location_marker statementMarker p in
      p ← parse_statement n p_function_id p;
      Some (fixup_location_marker break_point p)
  end

with parse_SWITCH (n : nat) (p_function_id : cx_symtab_node)
    (p : cx_parser) {struct n} : option cx_parser :=
  match n with
  | 0 => None
  | S n =>
      let p := get_token_append p in
      let p := conditional_get_token_append tc_left_paren
                 err_missing_left_paren p in
      let '(t, p) := parse_expression p in
      let p_expr_type := base_type t in
      let p := conditional_get_token_append tc_right_paren
                 err_missing_right_paren p in
      let p :=
        if negb (same_type p_expr_type p_integer_type)
           && negb (same_type p_expr_type p_char_type)
           && negb (bool_decide (form p_expr_type = fc_enum))
        then cx_error err_incompatible_types p
        else p in
      parse_statement n p_function_id p
  end

with parse_compound (n : nat) (p_function_id : cx_symtab_node)
    (p : cx_parser) {struct n} : option cx_parser :=
  match n with
  | 0 => None
  | S n =>
      let p := get_token_append p in
      p ← parse_statement_list n p_function_id tc_right_bracket p;
      if decide (which p_function_id = func_std_iterator) then Some p
      else Some (conditional_get_token_append tc_right_bracket
                   err_missing_right_bracket p)
  end.

(** [parse_case_branch] has an empty body in the source. *)
Definition parse_case_branch (p_function_id : cx_symtab_node)
    (p_expr_type : cx_type) (p : cx_parser) : cx_parser := p.

(** [parse_case_label]; no routine of the file calls it. *)
Definition parse_case_label (n : nat) (p_function_id : cx_symtab_node)
    (p_expr_type : cx_type) (p : cx_parser) : option cx_parser :=
  let p := get_token_append p in
  let '(sign_flag, p) :=
    if token_in (token p) tokenlist_unary_ops
    then (true, get_token_append p)
    else (false, p) in
  let p :=
    match token p with
    | tc_identifier =>
        let p := match search_all (string__ (p_token p)) p with
                 | Some _ => p
                 | None => cx_error err_undefined_identifier p
                 end in
        get_token_append p
    | tc_number =>
        let p := if decide (type (p_token p) ≠ ty_integer)
                 then cx_error err_invalid_constant p else p in
        get_token_append p
    | tc_string =>
        if sign_flag
           || negb (String.length (string__ (p_token p)) =? 3)
        then cx_error err_invalid_constant p
        else p
    | _ => p
    end in
  let p := conditional_get_token_append tc_colon err_missing_colon p in
  parse_statement_list n p_function_id tc_BREAK p.

(** The code appended to the stream by one call of a sub-parser. *)
Definition expression_code (c : list icode_unit) : Prop :=
  ∃ p, icode (parse_expression p).2 = icode p ++ c.

Definition declaration_code (p_function_id : cx_symtab_node)
    (c : list icode_unit) : Prop :=
  ∃ p, icode (parse_declarations_or_assignment p_function_id p)
       = icode p ++ c.

Definition statement_code (n : nat) (p_function_id : cx_symtab_node)
    (c : list icode_unit) : Prop :=
  ∃ p q, parse_statement n p_function_id p = Some q
         ∧ icode q = icode p ++ c.

Definition statement_list_code (n : nat) (p_function_id : cx_symtab_node)
    (terminator : cx_token_code) (c : list icode_unit) : Prop :=
  ∃ p q, parse_statement_list n p_function_id terminator p = Some q
         ∧ icode q = icode p ++ c.

(** The marker calls made by one call of a sub-parser. *)
Definition expression_events (e : list marker_event) : Prop :=
  ∃ p, mlog (parse_expression p).2 = mlog p ++ e.

Definition declaration_events (p_function_id : cx_symtab_node)
    (e : list marker_event) : Prop :=
  ∃ p, mlog (parse_declarations_or_assignment p_function_id p) = mlog p ++ e.

Definition statement_events (n : nat) (p_function_id : cx_symtab_node)
    (e : list marker_event) : Prop :=
  ∃ p q, parse_statement n p_function_id p = Some q ∧ mlog q = mlog p ++ e.

Definition statement_list_events (n : nat) (p_function_id : cx_symtab_node)
    (terminator : cx_token_code) (e : list marker_event) : Prop :=
  ∃ p q, parse_statement_list n p_function_id terminator p = Some q
         ∧ mlog q = mlog p ++ e.

End Parser.

(** ** The marker discipline

    The ghost log [mlog] records every call of [put_location_marker]
    and [fixup_location_marker].  The following notions speak about a
    segment of that log. *)

(** How often marker [m] is reserved in a log segment. *)
Fixpoint nres (m : nat) (e : list marker_event) : nat :=
  match e with
  | [] => 0
  | Reserve k :: e => (if decide (k = m) then 1 else 0) + nres m e
  | Fixup _ :: e => nres m e
  end.

(** How often marker [m] is fixed up in a log segment. *)
Fixpoint nfix (m : nat) (e : list marker_event) : nat :=
  match e with
  | [] => 0
  | Reserve _ :: e => nfix m e
  | Fixup k :: e => (if decide (k = m) then 1 else 0) + nfix m e
  end.

(** Every marker of the segment is reserved at most once and fixed up
    exactly as often as it is reserved. *)
Definition exactly_once (e : list marker_event) : Prop :=
  ∀ m, nfix m e = nres m e ∧ nres m e ≤ 1.

(** [marker_run p q e]: between the states [p] and [q] the marker calls
    were [e]; the stream did not shrink; no marker is reserved twice;
    the markers reserved lie in the part of the stream added since [p];
    and a slot that existed in [p] and is not fixed up in [e] still
    holds what it held. *)
Definition marker_run (p q : cx_parser) (e : list marker_event) : Prop :=
  mlog q = mlog p ++ e
  ∧ length (icode p) ≤ length (icode q)
  ∧ (∀ m, nres m e ≤ 1)
  ∧ (∀ m, 0 < nres m e → length (icode p) ≤ m < length (icode q))
  ∧ (∀ i, i < length (icode p) → nfix i e = 0 → icode q !! i = icode p !! i).

(** A collaborator that keeps the discipline: whatever it reserves it
    fixes up itself. *)
Definition well_behaved (f : cx_parser → cx_parser) : Prop :=
  ∀ p, ∃ e, marker_run p (f p) e ∧ exactly_once e.

(** A sub-parse that is made only on some paths: its marker calls, or
    none. *)
Definition optional {A} (P : list A → Prop) (e : list A) : Prop :=
  e = [] ∨ P e.

(** A piece of the stream that consists of tokens with code [tc]. *)
Definition tokens_of (tc : cx_token_code) (c : list icode_unit) : Prop :=
  Forall (λ u, ∃ t, u = ic_token t ∧ code t = tc) c.

(** A call that returned kept the discipline. *)
Definition closed (p q : cx_parser) : Prop :=
  ∃ e, marker_run p q e ∧ exactly_once e.

(** The stream of [q] is the stream of [p] followed by [c]. *)
Definition emits (p q : cx_parser) (c : list icode_unit) : Prop :=
  icode q = icode p ++ c.

(** How often an error code occurs in the error sink. *)
Definition error_count (ec : cx_error_code) (p : cx_parser) : nat :=
  length (filter (λ e, e = ec) (errors p)).

(** ** Further notions about the dispatcher and the stream *)

(** The token codes that have a case of their own in the switch of
    [parse_statement]; every other code falls to [default]. *)
Definition has_case (tc : cx_token_code) : bool :=
  match tc with
  | tc_identifier | tc_CONST | tc_DO | tc_WHILE | tc_IF | tc_FOR
  | tc_SWITCH | tc_BREAK | tc_left_bracket | tc_RETURN | tc_pound => true
  | _ => false
  end.

(** Slot [i] of the stream holds a location marker that has not been
    fixed up. *)
Definition unresolved (p : cx_parser) (i : nat) : Prop :=
  icode p !! i = Some (ic_location_marker None).

(** Between [p] and [q] the stream did not shrink and no placeholder
    was left behind: a slot that is unresolved in [q] was so in [p]. *)
Definition settled (p q : cx_parser) : Prop :=
  length (icode p) ≤ length (icode q)
  ∧ ∀ i, unresolved q i → unresolved p i.

(** ** The header of a [for] statement

    The three clauses between the parentheses, as [parse_FOR] handles
    them; each is the corresponding [if]/[else] of the routine. *)

(** The init clause and its separator: a declaration or assignment
    followed by a required [;], or the [;] alone. *)
Definition for_init
    (parse_declarations_or_assignment :
       cx_symtab_node → cx_parser → cx_parser)
    (p_function_id : cx_symtab_node) (p : cx_parser) : cx_parser :=
  if decide (token p ≠ tc_semicolon) then
    let p := parse_declarations_or_assignment p_function_id p in
    conditional_get_token_append tc_semicolon err_missing_semicolon p
  else get_token_append p.

(** The condition clause and its separator: an expression that is
    checked to be boolean, followed by a required [;], or the [;]
    alone. *)
Definition for_condition (is_boolean : cx_type → bool)
    (parse_expression : cx_parser → cx_type * cx_parser)
    (p : cx_parser) : cx_parser :=
  if decide (token p ≠ tc_semicolon) then
    let '(t, p) := parse_expression p in
    let p := check_boolean is_boolean t p in
    conditional_get_token_append tc_semicolon err_missing_semicolon p
  else get_token_append p.

(** The increment clause: an expression, unless the closing
    parenthesis comes at once. *)
Definition for_increment
    (parse_expression : cx_parser → cx_type * cx_parser)
    (p : cx_parser) : cx_parser :=
  if decide (token p ≠ tc_right_paren) then (parse_expression p).2 else p.

(** ** Sample collaborators

    A small, executable stand-in for the parts of the front end that
    live outside [parse_statement.cpp], used to run the statement
    parser on concrete token lists. *)

Module Demo.

Definition tokenlist_statement_follow : list cx_token_code :=
  [tc_semicolon; tc_right_bracket; tc_ELSE; tc_WHILE].

Definition tokenlist_statement_start : list cx_token_code :=
  [tc_identifier; tc_CONST; tc_DO; tc_WHILE; tc_IF; tc_FOR; tc_SWITCH;
   tc_BREAK; tc_left_bracket; tc_RETURN; tc_pound].

Definition tokenlist_unary_ops : list cx_token_code :=
  [tc_plus; tc_minus; tc_bit_NOT; tc_logic_NOT].

Definition p_integer_type : cx_type := TypeObj 1 fc_scalar.
Definition p_char_type : cx_type := TypeObj 2 fc_scalar.
Definition p_boolean_type : cx_type := TypeObj 3 fc_enum.
Definition p_real_type : cx_type := TypeObj 4 fc_scalar.

Definition is_boolean (t : cx_type) : bool :=
  same_type (base_type t) p_boolean_type.

Definition assignment_compatible (target source : cx_type) : bool :=
  same_type (base_type target) (base_type source).

Definition insert_line_marker (p : cx_parser) : cx_parser :=
  set_icode (icode p ++ [ic_line_marker 0]) p.

(** The tokens an expression is made of. *)
Definition in_expression (tc : cx_token_code) : bool :=
  bool_decide (tc ∈ [tc_identifier; tc_number; tc_string; tc_plus;
                     tc_minus; tc_star; tc_logic_NOT; tc_equal;
                     tc_equal_equal; tc_lessthan]).

Fixpoint expression_prefix (ts : list cx_token) : list cx_token :=
  match ts with
  | t :: ts => if in_expression (code t) then t :: expression_prefix ts
               else []
  | [] => []
  end.

Definition is_relational (t : cx_token) : bool :=
  bool_decide (code t = tc_equal_equal ∨ code t = tc_lessthan).

(** The type of an expression: boolean when it compares, otherwise
    the type of its first operand. *)
Definition expression_type (symtab : gmap string cx_symtab_node)
    (ts : list cx_token) : cx_type :=
  if existsb is_relational ts then p_boolean_type
  else match ts with
       | t :: _ =>
           match code t with
           | tc_string => p_char_type
           | tc_number =>
               if decide (type t = ty_real) then p_real_type
               else p_integer_type
           | tc_identifier =>
               match symtab !! string__ t with
               | Some node => p_type node
               | None => p_integer_type
               end
           | _ => p_integer_type
           end
       | [] => p_integer_type
       end.

Definition parse_expression (p : cx_parser) : cx_type * cx_parser :=
  let ts := expression_prefix (input p) in
  (expression_type (symtab p) ts,
   set_input (drop (length ts) (input p))
     (set_icode (icode p ++ map ic_token ts) p)).

Definition parse_declarations_or_assignment
    (p_function_id : cx_symtab_node) (p : cx_parser) : cx_parser :=
  (parse_expression p).2.

Definition parse_constant_declaration
    (p_function_id : cx_symtab_node) (p : cx_parser) : cx_parser :=
  (parse_expression p).2.

Definition parse_execute_directive
    (p_function_id : cx_symtab_node) (p : cx_parser) : cx_parser :=
  get_token p.

Definition parse_statement :=
  parse_statement tokenlist_statement_follow tokenlist_statement_start
    p_integer_type p_char_type is_boolean assignment_compatible
    insert_line_marker parse_expression parse_declarations_or_assignment
    parse_constant_declaration parse_execute_directive.

Definition parse_statement_list :=
  parse_statement_list tokenlist_statement_follow tokenlist_statement_start
    p_integer_type p_char_type is_boolean assignment_compatible
    insert_line_marker parse_expression parse_declarations_or_assignment
    parse_constant_declaration parse_execute_directive.

Definition parse_DO :=
  parse_DO tokenlist_statement_follow tokenlist_statement_start
    p_integer_type p_char_type is_boolean assignment_compatible
    insert_line_marker parse_expression parse_declarations_or_assignment
    parse_constant_declaration parse_execute_directive.

Definition parse_WHILE :=
  parse_WHILE tokenlist_statement_follow tokenlist_statement_start
    p_integer_type p_char_type is_boolean assignment_compatible
    insert_line_marker parse_expression parse_declarations_or_assignment
    parse_constant_declaration parse_execute_directive.

Definition parse_IF :=
  parse_IF tokenlist_statement_follow tokenlist_statement_start
    p_integer_type p_char_type is_boolean assignment_compatible
    insert_line_marker parse_expression parse_declarations_or_assignment
    parse_constant_declaration parse_execute_directive.

Definition parse_FOR :=
  parse_FOR tokenlist_statement_follow tokenlist_statement_start
    p_integer_type p_char_type is_boolean assignment_compatible
    insert_line_marker parse_expression parse_declarations_or_assignment
    parse_constant_declaration parse_execute_directive.

Definition parse_SWITCH :=
  parse_SWITCH tokenlist_statement_follow tokenlist_statement_start
    p_integer_type p_char_type is_boolean assignment_compatible
    insert_line_marker parse_expression parse_declarations_or_assignment
    parse_constant_declaration parse_execute_directive.

Definition parse_compound :=
  parse_compound tokenlist_statement_follow tokenlist_statement_start
    p_integer_type p_char_type is_boolean assignment_compatible
    insert_line_marker parse_expression parse_declarations_or_assignment
    parse_constant_declaration parse_execute_directive.

Definition parse_case_label :=
  parse_case_label tokenlist_statement_follow tokenlist_statement_start
    tokenlist_unary_ops
    p_integer_type p_char_type is_boolean assignment_compatible
    insert_line_marker parse_expression parse_declarations_or_assignment
    parse_constant_declaration parse_execute_directive.

Definition statement_events :=
  statement_events tokenlist_statement_follow tokenlist_statement_start
    p_integer_type p_char_type is_boolean assignment_compatible
    insert_line_marker parse_expression parse_declarations_or_assignment
    parse_constant_declaration parse_execute_directive.

Definition statement_code :=
  statement_code tokenlist_statement_follow tokenlist_statement_start
    p_integer_type p_char_type is_boolean assignment_compatible
    insert_line_marker parse_expression parse_declarations_or_assignment
    parse_constant_declaration parse_execute_directive.

Definition expression_events := expression_events parse_expression.
Definition expression_code := expression_code parse_expression.
Definition declaration_events :=
  declaration_events parse_declarations_or_assignment.
Definition declaration_code :=
  declaration_code parse_declarations_or_assignment.

Definition parse_RETURN :=
  parse_RETURN assignment_compatible parse_expression.

(** Routines: an ordinary one returning an integer, and a standard
    iterator. *)
Definition main_id : cx_symtab_node :=
  SymtabNode p_integer_type func_declared.

Definition iterator_id : cx_symtab_node :=
  SymtabNode p_integer_type func_std_iterator.

(** Tokens. *)
Definition tok (tc : cx_token_code) (s : string) : cx_token :=
  Token tc s ty_dummy.

Definition ident (s : string) : cx_token := tok tc_identifier s.
Definition number (s : string) : cx_token := Token tc_number s ty_integer.
Definition literal (s : string) : cx_token := Token tc_string s ty_string.
Definition t_lparen := tok tc_left_paren "(".
Definition t_rparen := tok tc_right_paren ")".
Definition t_lbracket := tok tc_left_bracket "{".
Definition t_rbracket := tok tc_right_bracket "}".
Definition t_semicolon := tok tc_semicolon ";".
Definition t_colon := tok tc_colon ":".
Definition t_plus := tok tc_plus "+".
Definition t_equal := tok tc_equal "=".
Definition t_less := tok tc_lessthan "<".
Definition t_pound := tok tc_pound "#".
Definition t_if := tok tc_IF "if".
Definition t_else := tok tc_ELSE "else".
Definition t_while := tok tc_WHILE "while".
Definition t_do := tok tc_DO "do".
Definition t_for := tok tc_FOR "for".
Definition t_switch := tok tc_SWITCH "switch".
Definition t_case := tok tc_CASE "case".
Definition t_break := tok tc_BREAK "break".
Definition t_const := tok tc_CONST "const".
Definition t_return := tok tc_RETURN "return".

(** A parser at the start of the given tokens. *)
Definition start (ts : list cx_token) : cx_parser :=
  Parser ts [] [] ∅ [] 0.

(** [while (1 + 1) { }] *)
Definition while_input : list cx_token :=
  [t_while; t_lparen; number "1"; t_plus; number "1"; t_rparen;
   t_lbracket; t_rbracket].

(** [do { } while (1 + 1)] *)
Definition do_input : list cx_token :=
  [t_do; t_lbracket; t_rbracket; t_while; t_lparen; number "1"; t_plus;
   number "1"; t_rparen].

(** [if (a < b) { } else { }] *)
Definition if_else_input : list cx_token :=
  [t_if; t_lparen; ident "a"; t_less; ident "b"; t_rparen;
   t_lbracket; t_rbracket; t_else; t_lbracket; t_rbracket].

(** [if (1) x; else y;] *)
Definition if_int_input : list cx_token :=
  [t_if; t_lparen; number "1"; t_rparen; ident "x"; t_semicolon;
   t_else; ident "y"; t_semicolon].

(** [for (i = 0; i < n; i = i + 1) { }] *)
Definition for_input : list cx_token :=
  [t_for; t_lparen; ident "i"; t_equal; number "0"; t_semicolon;
   ident "i"; t_less; ident "n"; t_semicolon;
   ident "i"; t_equal; ident "i"; t_plus; number "1"; t_rparen;
   t_lbracket; t_rbracket].

(** [for (i = 0; i + 1; ) { }] *)
Definition for_int_input : list cx_token :=
  [t_for; t_lparen; ident "i"; t_equal; number "0"; t_semicolon;
   ident "i"; t_plus; number "1"; t_semicolon; t_rparen;
   t_lbracket; t_rbracket].

(** [{ a ;] with the closing delimiter missing *)
Definition open_block_input : list cx_token :=
  [t_lbracket; ident "a"; t_semicolon].

(** [a; ; ; b }] *)
Definition list_input : list cx_token :=
  [ident "a"; t_semicolon; t_semicolon; t_semicolon; ident "b";
   t_rbracket].

(** [switch ('a') { }] and [switch (1 < 2) ...] *)
Definition switch_input : list cx_token :=
  [t_switch; t_lparen; literal "'a'"; t_rparen; t_lbracket; t_rbracket].

(** [switch (1.5) { }] *)
Definition switch_real_input : list cx_token :=
  [t_switch; t_lparen; Token tc_number "1.5" ty_real; t_rparen;
   t_lbracket; t_rbracket].

(** [return 'a'] and [return 1] *)
Definition return_char_input : list cx_token :=
  [t_return; literal "'a'"; t_semicolon].

Definition return_int_input : list cx_token :=
  [t_return; number "1"; t_semicolon].

(** [# include] , [break ;] and [const c = 1] *)
Definition directive_input : list cx_token :=
  [t_pound; ident "include"; t_semicolon].

Definition break_input : list cx_token := [t_break; t_semicolon].

Definition const_input : list cx_token :=
  [t_const; ident "c"; t_equal; number "1"; t_semicolon].

(** [case 'a' : x ; break] *)
Definition case_input : list cx_token :=
  [t_case; literal "'a'"; t_colon; ident "x"; t_semicolon; t_break].

(** The state in which the parse of [if_else_input] enters the
    else-branch: thirteen units are in the stream, the second marker
    is reserved and the [else] keyword is appended. *)
Definition else_entry : cx_parser :=
  Parser [t_lbracket; t_rbracket]
    [ic_location_marker (Some 11); ic_token t_if; ic_token t_lparen;
     ic_token (ident "a"); ic_token t_less; ic_token (ident "b");
     ic_token t_rparen; ic_line_marker 0; ic_token t_lbracket;
     ic_line_marker 0; ic_token t_rbracket;
     ic_location_marker None; ic_token t_else]
    [] ∅ [Reserve 0; Fixup 0; Reserve 11] 2.

End Demo.

(** The sample collaborators keep the marker discipline. *)
Definition demo_collaborators_ok : Prop :=
  well_behaved Demo.insert_line_marker
  ∧ well_behaved (λ p, (Demo.parse_expression p).2)
  ∧ (∀ fid, well_behaved (Demo.parse_declarations_or_assignment fid))
  ∧ (∀ fid, well_behaved (Demo.parse_constant_declaration fid))
  ∧ (∀ fid, well_behaved (Demo.parse_execute_directive fid)).

(** The sample collaborators leave the reported errors in place. *)
Definition demo_collaborators_keep_errors : Prop :=
  (∀ p, errors p `prefix_of` errors (Demo.insert_line_marker p))
  ∧ (∀ p, errors p `prefix_of` errors (Demo.parse_expression p).2)
  ∧ (∀ fid p, errors p
       `prefix_of` errors (Demo.parse_declarations_or_assignment fid p))
  ∧ (∀ fid p, errors p
       `prefix_of` errors (Demo.parse_constant_declaration fid p))
  ∧ (∀ fid p, errors p
       `prefix_of` errors (Demo.parse_execute_directive fid p)).

(** The sample collaborators only consume tokens, and the line marker
    none. *)
Definition demo_collaborators_only_consume : Prop :=
  (∀ p, input (Demo.insert_line_marker p) = input p)
  ∧ (∀ p, input (Demo.parse_expression p).2 `suffix_of` input p)
  ∧ (∀ fid p, input (Demo.parse_declarations_or_assignment fid p)
       `suffix_of` input p)
  ∧ (∀ fid p, input (Demo.parse_constant_declaration fid p)
       `suffix_of` input p)
  ∧ (∀ fid p, input (Demo.parse_execute_directive fid p)
       `suffix_of` input p).

(** The sample collaborators leave no placeholder in the stream. *)
Definition demo_collaborators_settled : Prop :=
  (∀ p, settled p (Demo.insert_line_marker p))
  ∧ (∀ p, settled p (Demo.parse_expression p).2)
  ∧ (∀ fid p, settled p (Demo.parse_declarations_or_assignment fid p))
  ∧ (∀ fid p, settled p (Demo.parse_constant_declaration fid p))
  ∧ (∀ fid p, settled p (Demo.parse_execute_directive fid p)).

(** * Properties *)

(** ** Counting in a marker log *)

Lemma nres_app m e1 e2 : nres m (e1 ++ e2) = nres m e1 + nres m e2.
Proof. induction e1 as [|[k|k] e1 IH]; simpl; lia. Qed.

Lemma nfix_app m e1 e2 : nfix m (e1 ++ e2) = nfix m e1 + nfix m e2.
Proof. induction e1 as [|[k|k] e1 IH]; simpl; lia. Qed.

Lemma exactly_once_nil : exactly_once [].
Proof. intros m. simpl. lia. Qed.

(** ** Runs *)

Lemma marker_run_refl p : marker_run p p [].
Proof.
  split; [by rewrite app_nil_r|]. split; [lia|].
  split; [simpl; lia|]. split.
  - simpl. lia.
  - done.
Qed.

Lemma marker_run_trans p q r e1 e2 :
  marker_run p q e1 → marker_run q r e2 → marker_run p r (e1 ++ e2).
Proof.
  intros (Hl1 & Hn1 & Ho1 & Hw1 & Hp1) (Hl2 & Hn2 & Ho2 & Hw2 & Hp2).
  split; [by rewrite Hl2, Hl1, app_assoc|].
  split; [lia|]. split; [|split].
  - intros m. rewrite nres_app.
    specialize (Ho1 m). specialize (Ho2 m).
    specialize (Hw1 m). specialize (Hw2 m). lia.
  - intros m. rewrite nres_app. intros Hm.
    destruct (nres m e1) eqn:E1.
    + specialize (Hw2 m). lia.
    + specialize (Hw1 m). lia.
  - intros i Hi. rewrite nfix_app. intros Hf.
    rewrite Hp2 by lia. apply Hp1; lia.
Qed.

(** A step that leaves the log alone and only appends to the stream. *)
Lemma silent_run p q c :
  mlog q = mlog p → icode q = icode p ++ c → marker_run p q [].
Proof.
  intros Hl Hc. split; [by rewrite Hl, app_nil_r|].
  rewrite Hc, length_app. split; [lia|].
  split; [simpl; lia|]. split.
  - simpl. lia.
  - intros i Hi _. by rewrite lookup_app_l.
Qed.

Lemma run_get_token p : marker_run p (get_token p) [].
Proof. apply (silent_run _ _ []); [done|]. simpl. by rewrite app_nil_r. Qed.

Lemma run_get_token_append p : marker_run p (get_token_append p) [].
Proof. by apply (silent_run _ _ [ic_token (p_token p)]). Qed.

Lemma run_cx_error ec p : marker_run p (cx_error ec p) [].
Proof. apply (silent_run _ _ []); [done|]. simpl. by rewrite app_nil_r. Qed.

Lemma run_conditional_get_token_append tc ec p :
  marker_run p (conditional_get_token_append tc ec p) [].
Proof.
  unfold conditional_get_token_append. case_decide.
  - apply run_get_token_append.
  - apply run_cx_error.
Qed.

Lemma run_set_dispatched n p : marker_run p (set_dispatched n p) [].
Proof. apply (silent_run _ _ []); [done|]. simpl. by rewrite app_nil_r. Qed.

Lemma run_skip_semicolons_loop k p : marker_run p (skip_semicolons_loop k p) [].
Proof.
  revert p. induction k as [|k IH]; intros p; simpl.
  - apply marker_run_refl.
  - case_decide; [|apply marker_run_refl].
    apply (marker_run_trans _ (get_token_append p) _ [] []);
      [apply run_get_token_append|apply IH].
Qed.

Lemma run_skip_semicolons p : marker_run p (skip_semicolons p) [].
Proof. apply run_skip_semicolons_loop. Qed.

Lemma run_resync_loop k l1 l2 p : marker_run p (resync_loop k l1 l2 p) [].
Proof.
  revert p. induction k as [|k IH]; intros p; simpl.
  - apply marker_run_refl.
  - destruct (_ || _ || _); [apply marker_run_refl|].
    apply (marker_run_trans _ (get_token p) _ [] []);
      [apply run_get_token|apply IH].
Qed.

Lemma run_resync l1 l2 p : marker_run p (resync l1 l2 p) [].
Proof.
  unfold resync. destruct (token_in _ _);
    [apply marker_run_refl|apply run_resync_loop].
Qed.

Lemma run_put_location_marker p :
  marker_run p (put_location_marker p).2 [Reserve (length (icode p))].
Proof.
  split; [done|]. unfold put_location_marker, set_mlog, set_icode. simpl.
  rewrite length_app. simpl.
  split; [lia|]. split; [|split].
  - intros m. case_decide; lia.
  - intros m. case_decide; lia.
  - intros i Hi _. by rewrite lookup_app_l.
Qed.

Lemma run_fixup_location_marker m p :
  marker_run p (fixup_location_marker m p) [Fixup m].
Proof.
  split; [done|]. unfold fixup_location_marker, set_mlog, set_icode. simpl.
  rewrite length_insert.
  split; [lia|]. split; [lia|]. split.
  - lia.
  - intros i Hi. case_decide; [lia|]. intros _.
    by rewrite list_lookup_insert_ne.
Qed.

Lemma length_put_location_marker p :
  length (icode (put_location_marker p).2) = length (icode p) + 1.
Proof.
  unfold put_location_marker, set_mlog, set_icode. simpl.
  by rewrite length_app.
Qed.

(** A closed run only appends to the stream. *)
Lemma closed_run_emits p q e :
  marker_run p q e → exactly_once e → ∃ c, emits p q c.
Proof.
  intros (_ & Hn & _ & Hw & Hp) Hx.
  exists (drop (length (icode p)) (icode q)). unfold emits.
  rewrite <- (take_drop (length (icode p)) (icode q)) at 1.
  f_equal. apply list_eq. intros i.
  destruct (decide (i < length (icode p))) as [Hi|Hi].
  - rewrite lookup_take_lt by done. apply Hp; [done|].
    destruct (Hx i) as [Hf _]. specialize (Hw i). lia.
  - rewrite lookup_take_ge by lia. symmetry. apply lookup_ge_None. lia.
Qed.

#[global] Arguments put_location_marker : simpl never.
#[global] Arguments fixup_location_marker : simpl never.
#[global] Arguments get_token : simpl never.
#[global] Arguments get_token_append : simpl never.
#[global] Arguments conditional_get_token_append : simpl never.
#[global] Arguments cx_error : simpl never.
#[global] Arguments skip_semicolons : simpl never.
#[global] Arguments resync : simpl never.
#[global] Arguments set_dispatched : simpl never.
#[global] Arguments check_boolean : simpl never.
#[global] Arguments check_assignment_type_compatible : simpl never.
#[global] Arguments parse_RETURN : simpl never.
#[global] Arguments set_input : simpl never.
#[global] Arguments set_icode : simpl never.
#[global] Arguments set_errors : simpl never.
#[global] Arguments set_mlog : simpl never.

(** Extending a run by one step of the parser. *)
Lemma run_then p q r e1 e2 e :
  marker_run p q e1 → marker_run q r e2 → e = e1 ++ e2 → marker_run p r e.
Proof. intros ?? ->. by eapply marker_run_trans. Qed.

Lemma run_then_silent p q r e :
  marker_run p q e → marker_run q r [] → marker_run p r e.
Proof. intros H1 H2. eapply run_then; [done..|]. by rewrite app_nil_r. Qed.

Lemma run_check_boolean is_boolean t p :
  marker_run p (check_boolean is_boolean t p) [].
Proof.
  unfold check_boolean. destruct (is_boolean t);
    [apply marker_run_refl|apply run_cx_error].
Qed.

Lemma run_check_assignment_type_compatible compat a b ec p :
  marker_run p (check_assignment_type_compatible compat a b ec p) [].
Proof.
  unfold check_assignment_type_compatible. destruct (compat a b);
    [apply marker_run_refl|apply run_cx_error].
Qed.

(** Build the run that leads to the state in the goal, one call at a
    time, from the outermost call inwards. *)
Ltac run_chain :=
  lazymatch goal with
  | |- marker_run ?p ?p _ => apply marker_run_refl
  | |- marker_run _ (fixup_location_marker ?m ?x) _ =>
      eapply (marker_run_trans _ x);
      [run_chain | apply run_fixup_location_marker]
  | |- marker_run _ (get_token_append ?x) _ =>
      eapply (run_then_silent _ x);
      [run_chain | apply run_get_token_append]
  | |- marker_run _ (get_token ?x) _ =>
      eapply (run_then_silent _ x); [run_chain | apply run_get_token]
  | |- marker_run _ (conditional_get_token_append _ _ ?x) _ =>
      eapply (run_then_silent _ x);
      [run_chain | apply run_conditional_get_token_append]
  | |- marker_run _ (cx_error _ ?x) _ =>
      eapply (run_then_silent _ x); [run_chain | apply run_cx_error]
  | |- marker_run _ (check_boolean _ _ ?x) _ =>
      eapply (run_then_silent _ x); [run_chain | apply run_check_boolean]
  | |- marker_run _ (check_assignment_type_compatible _ _ _ _ ?x) _ =>
      eapply (run_then_silent _ x);
      [run_chain | apply run_check_assignment_type_compatible]
  | |- marker_run _ (skip_semicolons ?x) _ =>
      eapply (run_then_silent _ x); [run_chain | apply run_skip_semicolons]
  | |- marker_run _ (resync _ _ ?x) _ =>
      eapply (run_then_silent _ x); [run_chain | apply run_resync]
  | |- marker_run _ (set_dispatched _ ?x) _ =>
      eapply (run_then_silent _ x); [run_chain | apply run_set_dispatched]
  | |- marker_run _ (set_mlog (mlog ?x ++ [Reserve _]) (set_icode _ ?x)) _ =>
      eapply (marker_run_trans _ x);
      [run_chain | apply run_put_location_marker]
  | H : marker_run ?x ?y _ |- marker_run _ ?y _ =>
      eapply (marker_run_trans _ x); [run_chain | exact H]
  end.

Lemma marker_run_eq p q e e' : marker_run p q e' → e = e' → marker_run p q e.
Proof. by intros ? ->. Qed.

(** The run to the state in the goal has the log in the goal. *)
Ltac run_shape :=
  eapply marker_run_eq;
  [run_chain | simpl; rewrite <- ?app_assoc, ?app_nil_r; done].

(** Balance of a log built from balanced pieces. *)
Ltac balance :=
  let k := fresh "k" in
  intros k;
  repeat match goal with
         | H : exactly_once _ |- _ => destruct (H k) as [? _]; clear H
         end;
  rewrite ?nfix_app, ?nres_app; simpl; repeat case_decide; lia.

Lemma run_exactly_once p q e :
  marker_run p q e → (∀ k, nfix k e = nres k e) → exactly_once e.
Proof. intros (_ & _ & Ho & _) Hb k. split; [apply Hb|apply Ho]. Qed.

Lemma bind_Some_eq {A B} (f : A → option B) (x : A) : Some x ≫= f = f x.
Proof. reflexivity. Qed.

(** ** What each step does to the stream *)

Lemma code_p_token p : code (p_token p) = token p.
Proof. unfold p_token, token. by destruct (input p). Qed.

Lemma icode_get_token p : icode (get_token p) = icode p.
Proof. done. Qed.

Lemma icode_get_token_append p :
  icode (get_token_append p) = icode p ++ [ic_token (p_token p)].
Proof. done. Qed.

Lemma icode_cx_error ec p : icode (cx_error ec p) = icode p.
Proof. done. Qed.

Lemma icode_set_dispatched n p : icode (set_dispatched n p) = icode p.
Proof. done. Qed.

Lemma icode_check_boolean is_boolean t p :
  icode (check_boolean is_boolean t p) = icode p.
Proof. unfold check_boolean. by destruct (is_boolean t). Qed.

Lemma icode_resync_loop k l1 l2 p : icode (resync_loop k l1 l2 p) = icode p.
Proof.
  revert p. induction k as [|k IH]; intros p; simpl; [done|].
  destruct (_ || _ || _); [done|]. by rewrite IH.
Qed.

Lemma icode_resync l1 l2 p : icode (resync l1 l2 p) = icode p.
Proof.
  unfold resync. destruct (token_in _ _); [done|apply icode_resync_loop].
Qed.

Lemma tokens_of_nil tc : tokens_of tc [].
Proof. constructor. Qed.

Lemma tokens_of_current tc p :
  token p = tc → tokens_of tc [ic_token (p_token p)].
Proof.
  intros H. constructor; [|constructor].
  exists (p_token p). by rewrite code_p_token.
Qed.

Lemma icode_conditional_get_token_append tc ec p :
  ∃ c, icode (conditional_get_token_append tc ec p) = icode p ++ c
       ∧ tokens_of tc c.
Proof.
  unfold conditional_get_token_append. case_decide.
  - exists [ic_token (p_token p)]. split; [done|]. by apply tokens_of_current.
  - exists []. split; [by rewrite app_nil_r|apply tokens_of_nil].
Qed.

Lemma icode_skip_semicolons_loop k p :
  ∃ c, icode (skip_semicolons_loop k p) = icode p ++ c
       ∧ tokens_of tc_semicolon c.
Proof.
  revert p. induction k as [|k IH]; intros p; simpl.
  - exists []. split; [by rewrite app_nil_r|apply tokens_of_nil].
  - case_decide.
    + destruct (IH (get_token_append p)) as (c & Hc & Ht).
      exists (ic_token (p_token p) :: c). split.
      * rewrite Hc, icode_get_token_append. by rewrite <- app_assoc.
      * constructor; [|done]. exists (p_token p). by rewrite code_p_token.
    + exists []. split; [by rewrite app_nil_r|apply tokens_of_nil].
Qed.

Lemma icode_skip_semicolons p :
  ∃ c, icode (skip_semicolons p) = icode p ++ c ∧ tokens_of tc_semicolon c.
Proof. apply icode_skip_semicolons_loop. Qed.

Lemma icode_put_location_marker p :
  icode (put_location_marker p).2 = icode p ++ [ic_location_marker None].
Proof. done. Qed.

Lemma p_token_put_location_marker p :
  p_token (put_location_marker p).2 = p_token p.
Proof. done. Qed.

Lemma icode_fixup_location_marker m p :
  icode (fixup_location_marker m p)
  = <[m := ic_location_marker (Some (length (icode p)))]> (icode p).
Proof. done. Qed.

Lemma well_behaved_emits f p :
  well_behaved f → ∃ c, icode (f p) = icode p ++ c.
Proof. intros H. destruct (H p) as (e & R & X). by eapply closed_run_emits. Qed.

Lemma closed_emits p q : closed p q → ∃ c, icode q = icode p ++ c.
Proof. intros (e & R & X). by eapply closed_run_emits. Qed.

(** Writing into a slot of a stream that has grown since. *)
Lemma insert_snoc {A} (l : list A) (x y : A) (i : nat) :
  i = length l → <[i := x]> (l ++ [y]) = l ++ [x].
Proof.
  intros ->. replace (length l) with (length l + 0) by lia.
  by rewrite insert_app_r.
Qed.

Lemma insert_app_left {A} (l1 l2 : list A) (x : A) (i : nat) :
  i < length l1 → <[i := x]> (l1 ++ l2) = <[i := x]> l1 ++ l2.
Proof. intros H. by rewrite insert_app_l. Qed.

Ltac lengths :=
  repeat first [ rewrite length_app | rewrite length_insert
               | progress cbn [length] ];
  lia.

Ltac push_insert :=
  repeat first [ rewrite insert_app_left by lengths
               | rewrite insert_snoc by lengths ].

Lemma error_count_cx_error ec p :
  error_count ec (cx_error ec p) = S (error_count ec p).
Proof.
  unfold error_count, cx_error, set_errors. simpl.
  rewrite filter_app, length_app, filter_cons_True by done.
  rewrite filter_nil. simpl. lia.
Qed.

(** Unfolding of routines whose names are abbreviated further down. *)
Ltac unfold_check_boolean := unfold check_boolean.
Ltac unfold_parse_RETURN := unfold parse_RETURN.
Ltac unfold_parse_case_label := unfold parse_case_label.

(** ** The routines, one equation each *)

Section Properties.

Variables tokenlist_statement_follow tokenlist_statement_start
          tokenlist_unary_ops : list cx_token_code.
Variables p_integer_type p_char_type : cx_type.
Variable is_boolean : cx_type → bool.
Variable assignment_compatible : cx_type → cx_type → bool.
Variable insert_line_marker : cx_parser → cx_parser.
Variable parse_expression : cx_parser → cx_type * cx_parser.
Variable parse_declarations_or_assignment :
  cx_symtab_node → cx_parser → cx_parser.
Variable parse_constant_declaration : cx_symtab_node → cx_parser → cx_parser.
Variable parse_execute_directive : cx_symtab_node → cx_parser → cx_parser.

Local Abbreviation parse_statement :=
  (parse_statement tokenlist_statement_follow tokenlist_statement_start
     p_integer_type p_char_type is_boolean assignment_compatible
     insert_line_marker parse_expression parse_declarations_or_assignment
     parse_constant_declaration parse_execute_directive).
Local Abbreviation parse_statement_list :=
  (parse_statement_list tokenlist_statement_follow tokenlist_statement_start
     p_integer_type p_char_type is_boolean assignment_compatible
     insert_line_marker parse_expression parse_declarations_or_assignment
     parse_constant_declaration parse_execute_directive).
Local Abbreviation parse_DO :=
  (parse_DO tokenlist_statement_follow tokenlist_statement_start
     p_integer_type p_char_type is_boolean assignment_compatible
     insert_line_marker parse_expression parse_declarations_or_assignment
     parse_constant_declaration parse_execute_directive).
Local Abbreviation parse_WHILE :=
  (parse_WHILE tokenlist_statement_follow tokenlist_statement_start
     p_integer_type p_char_type is_boolean assignment_compatible
     insert_line_marker parse_expression parse_declarations_or_assignment
     parse_constant_declaration parse_execute_directive).
Local Abbreviation parse_IF :=
  (parse_IF tokenlist_statement_follow tokenlist_statement_start
     p_integer_type p_char_type is_boolean assignment_compatible
     insert_line_marker parse_expression parse_declarations_or_assignment
     parse_constant_declaration parse_execute_directive).
Local Abbreviation parse_FOR :=
  (parse_FOR tokenlist_statement_follow tokenlist_statement_start
     p_integer_type p_char_type is_boolean assignment_compatible
     insert_line_marker parse_expression parse_declarations_or_assignment
     parse_constant_declaration parse_execute_directive).
Local Abbreviation parse_SWITCH :=
  (parse_SWITCH tokenlist_statement_follow tokenlist_statement_start
     p_integer_type p_char_type is_boolean assignment_compatible
     insert_line_marker parse_expression parse_declarations_or_assignment
     parse_constant_declaration parse_execute_directive).
Local Abbreviation parse_compound :=
  (parse_compound tokenlist_statement_follow tokenlist_statement_start
     p_integer_type p_char_type is_boolean assignment_compatible
     insert_line_marker parse_expression parse_declarations_or_assignment
     parse_constant_declaration parse_execute_directive).
Local Abbreviation parse_case_label :=
  (parse_case_label tokenlist_statement_follow tokenlist_statement_start
     tokenlist_unary_ops
     p_integer_type p_char_type is_boolean assignment_compatible
     insert_line_marker parse_expression parse_declarations_or_assignment
     parse_constant_declaration parse_execute_directive).
Local Abbreviation statement_events :=
  (statement_events tokenlist_statement_follow tokenlist_statement_start
     p_integer_type p_char_type is_boolean assignment_compatible
     insert_line_marker parse_expression parse_declarations_or_assignment
     parse_constant_declaration parse_execute_directive).
Local Abbreviation statement_list_events :=
  (statement_list_events tokenlist_statement_follow tokenlist_statement_start
     p_integer_type p_char_type is_boolean assignment_compatible
     insert_line_marker parse_expression parse_declarations_or_assignment
     parse_constant_declaration parse_execute_directive).
Local Abbreviation expression_events := (expression_events parse_expression).
Local Abbreviation declaration_events :=
  (declaration_events parse_declarations_or_assignment).




Local Abbreviation statement_code :=
  (statement_code tokenlist_statement_follow tokenlist_statement_start
     p_integer_type p_char_type is_boolean assignment_compatible
     insert_line_marker parse_expression parse_declarations_or_assignment
     parse_constant_declaration parse_execute_directive).
Local Abbreviation statement_list_code :=
  (statement_list_code tokenlist_statement_follow tokenlist_statement_start
     p_integer_type p_char_type is_boolean assignment_compatible
     insert_line_marker parse_expression parse_declarations_or_assignment
     parse_constant_declaration parse_execute_directive).
Local Abbreviation expression_code := (expression_code parse_expression).
Local Abbreviation declaration_code :=
  (declaration_code parse_declarations_or_assignment).
Local Abbreviation check_boolean := (check_boolean is_boolean).
Local Abbreviation parse_RETURN :=
  (parse_RETURN assignment_compatible parse_expression).

Lemma parse_statement_unfold n p_function_id p :
  parse_statement (S n) p_function_id p =
  let p := set_dispatched (S (dispatched p)) p in
  let p := insert_line_marker p in
  p ← match token p with
      | tc_identifier =>
          Some (parse_declarations_or_assignment p_function_id p)
      | tc_CONST =>
          let p := get_token_append p in
          Some (parse_constant_declaration p_function_id p)
      | tc_DO => parse_DO n p_function_id p
      | tc_WHILE => parse_WHILE n p_function_id p
      | tc_IF => parse_IF n p_function_id p
      | tc_FOR => parse_FOR n p_function_id p
      | tc_SWITCH => parse_SWITCH n p_function_id p
      | tc_BREAK => Some (get_token_append p)
      | tc_left_bracket => parse_compound n p_function_id p
      | tc_RETURN => Some (parse_RETURN p_function_id p)
      | tc_pound =>
          let p := get_token p in
          Some (parse_execute_directive p_function_id p)
      | _ => Some p
      end;
  Some (if decide (token p ≠ tc_end_of_file)
        then resync tokenlist_statement_follow
                    tokenlist_statement_start p
        else p).
Proof. reflexivity. Qed.

Lemma parse_statement_list_unfold n p_function_id terminator p :
  parse_statement_list (S n) p_function_id terminator p =
  p ← parse_statement n p_function_id p;
  let p := skip_semicolons p in
  if decide (token p ≠ terminator ∧ token p ≠ tc_end_of_file)
  then parse_statement_list n p_function_id terminator p
  else Some p.
Proof. reflexivity. Qed.

Lemma parse_DO_unfold n p_function_id p :
  parse_DO (S n) p_function_id p =
  let '(break_point, p) := put_location_marker p in
  let p := get_token_append p in
  p ← parse_statement_list n p_function_id tc_WHILE p;
  let p := conditional_get_token_append tc_WHILE err_missing_WHILE p in
  let p := conditional_get_token_append tc_left_paren
             err_missing_left_paren p in
  let '(t, p) := parse_expression p in
  let p := check_boolean t p in
  let p := conditional_get_token_append tc_right_paren
             err_missing_right_paren p in
  Some (fixup_location_marker break_point p).
Proof. reflexivity. Qed.

Lemma parse_WHILE_unfold n p_function_id p :
  parse_WHILE (S n) p_function_id p =
  let '(break_point, p) := put_location_marker p in
  let p := get_token_append p in
  let p := conditional_get_token_append tc_left_paren
             err_missing_left_paren p in
  let '(t, p) := parse_expression p in
  let p := check_boolean t p in
  let p := conditional_get_token_append tc_right_paren
             err_missing_right_paren p in
  p ← parse_statement n p_function_id p;
  Some (fixup_location_marker break_point p).
Proof. reflexivity. Qed.

Lemma parse_IF_unfold n p_function_id p :
  parse_IF (S n) p_function_id p =
  let '(at_false_location_marker, p) := put_location_marker p in
  let p := get_token_append p in
  let p := conditional_get_token_append tc_left_paren
             err_missing_left_paren p in
  let '(t, p) := parse_expression p in
  let p := check_boolean t p in
  let p := conditional_get_token_append tc_right_paren
             err_missing_right_paren p in
  p ← parse_statement n p_function_id p;
  let p := skip_semicolons p in
  let p := fixup_location_marker at_false_location_marker p in
  if decide (token p = tc_ELSE) then
    let '(at_follow_location_marker, p) := put_location_marker p in
    let p := get_token_append p in
    p ← parse_statement n p_function_id p;
    let p := skip_semicolons p in
    Some (fixup_location_marker at_follow_location_marker p)
  else Some p.
Proof. reflexivity. Qed.

Lemma parse_FOR_unfold n p_function_id p :
  parse_FOR (S n) p_function_id p =
  let '(break_point, p) := put_location_marker p in
  let '(statementMarker, p) := put_location_marker p in
  let '(condition_marker, p) := put_location_marker p in
  let '(increment_marker, p) := put_location_marker p in
  let p := get_token_append p in
  let p := conditional_get_token_append tc_left_paren
             err_missing_left_paren p in
  let p :=
    if decide (token p ≠ tc_semicolon) then
      let p := parse_declarations_or_assignment p_function_id p in
      conditional_get_token_append tc_semicolon err_missing_semicolon p
    else get_token_append p in
  let p := fixup_location_marker condition_marker p in
  let p :=
    if decide (token p ≠ tc_semicolon) then
      let '(t, p) := parse_expression p in
      let p := check_boolean t p in
      conditional_get_token_append tc_semicolon err_missing_semicolon p
    else get_token_append p in
  let p := fixup_location_marker increment_marker p in
  let p :=
    if decide (token p ≠ tc_right_paren) then
      (parse_expression p).2
    else p in
  let p := conditional_get_token_append tc_right_paren
             err_missing_right_paren p in
  let p := fixup_location_marker statementMarker p in
  p ← parse_statement n p_function_id p;
  Some (fixup_location_marker break_point p).
Proof. reflexivity. Qed.

Lemma parse_SWITCH_unfold n p_function_id p :
  parse_SWITCH (S n) p_function_id p =
  let p := get_token_append p in
  let p := conditional_get_token_append tc_left_paren
             err_missing_left_paren p in
  let '(t, p) := parse_expression p in
  let p_expr_type := base_type t in
  let p := conditional_get_token_append tc_right_paren
             err_missing_right_paren p in
  let p :=
    if negb (same_type p_expr_type p_integer_type)
       && negb (same_type p_expr_type p_char_type)
       && negb (bool_decide (form p_expr_type = fc_enum))
    then cx_error err_incompatible_types p
    else p in
  parse_statement n p_function_id p.
Proof. reflexivity. Qed.

Lemma parse_compound_unfold n p_function_id p :
  parse_compound (S n) p_function_id p =
  let p := get_token_append p in
  p ← parse_statement_list n p_function_id tc_right_bracket p;
  if decide (which p_function_id = func_std_iterator) then Some p
  else Some (conditional_get_token_append tc_right_bracket
               err_missing_right_bracket p).
Proof. reflexivity. Qed.

(** ** The marker discipline of the statement parser *)

Hypothesis line_marker_ok : well_behaved insert_line_marker.
Hypothesis expression_ok : well_behaved (λ p, (parse_expression p).2).
Hypothesis declaration_ok :
  ∀ fid, well_behaved (parse_declarations_or_assignment fid).
Hypothesis constant_ok : ∀ fid, well_behaved (parse_constant_declaration fid).
Hypothesis directive_ok : ∀ fid, well_behaved (parse_execute_directive fid).

(** The three clauses of a [for] header, as [parse_FOR] handles them. *)
Lemma for_init_run fid p :
  ∃ e, optional (declaration_events fid) e ∧ exactly_once e
    ∧ marker_run p
        (if decide (token p ≠ tc_semicolon)
         then conditional_get_token_append tc_semicolon err_missing_semicolon
                (parse_declarations_or_assignment fid p)
         else get_token_append p) e.
Proof.
  case_decide.
  - destruct (declaration_ok fid p) as (e & R & X).
    exists e. split; [right; exists p; apply R|]. split; [done|]. run_shape.
  - exists []. split; [by left|]. split; [apply exactly_once_nil|].
    run_shape.
Qed.

Lemma for_condition_run p :
  ∃ e, optional expression_events e ∧ exactly_once e
    ∧ marker_run p
        (if decide (token p ≠ tc_semicolon)
         then let '(t, p0) := parse_expression p in
              conditional_get_token_append tc_semicolon err_missing_semicolon
                (check_boolean t p0)
         else get_token_append p) e.
Proof.
  case_decide.
  - destruct (expression_ok p) as (e & R & X).
    exists e. split; [right; exists p; apply R|]. split; [done|].
    destruct (parse_expression p) as [t p0]; simpl in *. run_shape.
  - exists []. split; [by left|]. split; [apply exactly_once_nil|].
    run_shape.
Qed.

Lemma for_increment_run p :
  ∃ e, optional expression_events e ∧ exactly_once e
    ∧ marker_run p
        (if decide (token p ≠ tc_right_paren)
         then (parse_expression p).2 else p) e.
Proof.
  case_decide.
  - destruct (expression_ok p) as (e & R & X).
    exists e. split; [right; exists p; apply R|]. by split.
  - exists []. split; [by left|]. split; [apply exactly_once_nil|].
    run_shape.
Qed.


(** Symbolic execution of a routine's equation [H]: every state gets
    a name and the run that leads to it from the state before. *)
Ltac run_silent :=
  first [ apply run_get_token_append | apply run_get_token
        | apply run_conditional_get_token_append | apply run_cx_error
        | apply run_check_boolean | apply run_skip_semicolons
        | apply run_resync | apply run_set_dispatched
        | apply run_check_assignment_type_compatible ].

Ltac exec_let H :=
  lazymatch type of H with
  | (let x := ?v in @?b x) = ?r =>
      let T := type of v in
      lazymatch T with
      | cx_parser =>
          let p' := fresh "p" in
          pose (p' := v); change (b p' = r) in H; cbv beta in H;
          let e := fresh "e" in let O := fresh "O" in
          let R := fresh "R" in let X := fresh "X" in
          lazymatch v with
          | fixup_location_marker ?m ?x =>
              pose proof (run_fixup_location_marker m x
                          : marker_run x p' [Fixup m]) as R
          | context [parse_declarations_or_assignment ?f ?x] =>
              destruct (for_init_run f x) as (e & O & X & R);
              change (marker_run x p' e) in R
          | context [parse_expression ?x] =>
              first [ destruct (for_condition_run x) as (e & O & X & R);
                      change (marker_run x p' e) in R
                    | destruct (for_increment_run x) as (e & O & X & R);
                      change (marker_run x p' e) in R ]
          | insert_line_marker ?x =>
              destruct (line_marker_ok x) as (e & R & X);
              change (marker_run x p' e) in R
          | if ?c then cx_error _ ?x else ?x =>
              assert (marker_run x p' []) as R
                by (subst p'; destruct c;
                    [apply run_cx_error | apply marker_run_refl])
          | ?f ?x =>
              assert (marker_run x p' []) as R by (subst p'; run_silent)
          end;
          clearbody p'
      | _ => change (b v = r) in H; cbv beta in H
      end
  end.

Ltac exec_call H :=
  match type of H with
  | context [put_location_marker ?x] =>
      let m := fresh "m" in let L := fresh "L" in
      let p' := fresh "p" in let R := fresh "R" in let E := fresh "E" in
      pose proof (run_put_location_marker x) as R;
      pose proof (length_put_location_marker x) as L;
      destruct (put_location_marker x) as [m p'] eqn:E;
      apply (f_equal fst) in E; change (length (icode x) = m) in E;
      cbn [fst snd] in R, L; cbv beta iota in H; subst m
  | context [parse_expression ?x] =>
      let t := fresh "t" in let p' := fresh "p" in
      let e := fresh "e" in let O := fresh "O" in
      let R := fresh "R" in let X := fresh "X" in
      destruct (expression_ok x) as (e & R & X);
      assert (expression_events e) as O by (exists x; apply R);
      destruct (parse_expression x) as [t p'];
      cbn [fst snd] in R; cbv beta iota in H
  | context [parse_statement ?n ?f ?x] =>
      let p' := fresh "p" in let E := fresh "E" in
      let e := fresh "e" in let O := fresh "O" in
      let R := fresh "R" in let X := fresh "X" in
      destruct (parse_statement n f x) as [p'|] eqn:E;
      [|discriminate H];
      match goal with
      | IH : ∀ p q, parse_statement n f p = Some q → closed p q |- _ =>
          destruct (IH _ _ E) as (e & R & X)
      end;
      assert (statement_events n f e) as O
        by (eexists _, _; split; [exact E|apply R]);
      clear E; rewrite bind_Some_eq in H; cbv beta in H
  | context [parse_statement_list ?n ?f ?t ?x] =>
      let p' := fresh "p" in let E := fresh "E" in
      let e := fresh "e" in let O := fresh "O" in
      let R := fresh "R" in let X := fresh "X" in
      destruct (parse_statement_list n f t x) as [p'|] eqn:E;
      [|discriminate H];
      match goal with
      | IH : ∀ t p q, parse_statement_list n f t p = Some q → closed p q
        |- _ => destruct (IH _ _ _ E) as (e & R & X)
      end;
      assert (statement_list_events n f t e) as O
        by (eexists _, _; split; [exact E|apply R]);
      clear E; rewrite bind_Some_eq in H; cbv beta in H
  end.

Ltac exec H := repeat first [exec_let H | exec_call H].

Ltac close_run :=
  lazymatch goal with
  | |- closed ?p ?q =>
      let Hrun := fresh "Hrun" in
      eassert (marker_run p q _) as Hrun by run_chain;
      eexists; split;
      [exact Hrun | eapply run_exactly_once; [exact Hrun | balance]]
  end.

Ltac finish_run :=
  lazymatch goal with
  | |- marker_run ?p ?q ?e ∧ _ =>
      let Hrun := fresh "Hrun" in
      assert (marker_run p q e) as Hrun by run_shape;
      split; [exact Hrun | eapply run_exactly_once; [exact Hrun | balance]]
  end.

(** *** One lemma per statement form *)

Lemma closed_refl p : closed p p.
Proof. exists []. split; [apply marker_run_refl|apply exactly_once_nil]. Qed.

Lemma closed_trans p q r : closed p q → closed q r → closed p r.
Proof.
  intros (e1 & R1 & X1) (e2 & R2 & X2). exists (e1 ++ e2).
  split; [by eapply marker_run_trans|].
  eapply run_exactly_once; [by eapply marker_run_trans|]. balance.
Qed.

Lemma closed_silent p q : marker_run p q [] → closed p q.
Proof. intros R. exists []. split; [done|apply exactly_once_nil]. Qed.

Lemma parse_DO_run n fid p q :
  (∀ t p q, parse_statement_list n fid t p = Some q → closed p q) →
  parse_DO (S n) fid p = Some q →
  let m := length (icode p) in
  ∃ eL eE,
    statement_list_events n fid tc_WHILE eL ∧ expression_events eE
    ∧ marker_run p q ([Reserve m] ++ eL ++ eE ++ [Fixup m])
    ∧ exactly_once ([Reserve m] ++ eL ++ eE ++ [Fixup m]).
Proof.
  intros IH H m. rewrite parse_DO_unfold in H. exec H.
  injection H as <-. exists e, e0. do 2 (split; [done|]).
  finish_run.
Qed.

Lemma parse_WHILE_run n fid p q :
  (∀ p q, parse_statement n fid p = Some q → closed p q) →
  parse_WHILE (S n) fid p = Some q →
  let m := length (icode p) in
  ∃ eE eS,
    expression_events eE ∧ statement_events n fid eS
    ∧ marker_run p q ([Reserve m] ++ eE ++ eS ++ [Fixup m])
    ∧ exactly_once ([Reserve m] ++ eE ++ eS ++ [Fixup m]).
Proof.
  intros IH H m. rewrite parse_WHILE_unfold in H. exec H.
  injection H as <-. exists e, e0. do 2 (split; [done|]). finish_run.
Qed.

Lemma parse_IF_run n fid p q :
  (∀ p q, parse_statement n fid p = Some q → closed p q) →
  parse_IF (S n) fid p = Some q →
  let m := length (icode p) in
  ∃ eE eS1,
    expression_events eE ∧ statement_events n fid eS1
    ∧ ((marker_run p q ([Reserve m] ++ eE ++ eS1 ++ [Fixup m])
        ∧ exactly_once ([Reserve m] ++ eE ++ eS1 ++ [Fixup m]))
       ∨ ∃ m' eS2,
           statement_events n fid eS2
           ∧ marker_run p q
               ([Reserve m] ++ eE ++ eS1 ++ [Fixup m]
                ++ [Reserve m'] ++ eS2 ++ [Fixup m'])
           ∧ exactly_once
               ([Reserve m] ++ eE ++ eS1 ++ [Fixup m]
                ++ [Reserve m'] ++ eS2 ++ [Fixup m'])).
Proof.
  intros IH H m. rewrite parse_IF_unfold in H. exec H.
  exists e, e0. do 2 (split; [done|]). case_decide.
  - right. exec H. injection H as <-.
    exists (length (icode p8)), e1. split; [done|]. finish_run.
  - left. injection H as <-. finish_run.
Qed.

Lemma parse_FOR_run n fid p q :
  (∀ p q, parse_statement n fid p = Some q → closed p q) →
  parse_FOR (S n) fid p = Some q →
  let b := length (icode p) in
  ∃ eI eE eX eS,
    optional (declaration_events fid) eI
    ∧ optional expression_events eE
    ∧ optional expression_events eX
    ∧ statement_events n fid eS
    ∧ marker_run p q
        ([Reserve b; Reserve (b + 1); Reserve (b + 2); Reserve (b + 3)]
         ++ eI ++ [Fixup (b + 2)] ++ eE ++ [Fixup (b + 3)]
         ++ eX ++ [Fixup (b + 1)] ++ eS ++ [Fixup b])
    ∧ exactly_once
        ([Reserve b; Reserve (b + 1); Reserve (b + 2); Reserve (b + 3)]
         ++ eI ++ [Fixup (b + 2)] ++ eE ++ [Fixup (b + 3)]
         ++ eX ++ [Fixup (b + 1)] ++ eS ++ [Fixup b]).
Proof.
  intros IH H b. rewrite parse_FOR_unfold in H. exec H.
  injection H as <-. exists e, e0, e1, e2. do 4 (split; [done|]).
  assert (length (icode p0) = b + 1) as E0 by lia.
  assert (length (icode p1) = b + 2) as E1 by lia.
  assert (length (icode p2) = b + 3) as E2 by lia.
  rewrite E0, E1, E2 in *. finish_run.
Qed.

Lemma parse_RETURN_closed fid p : closed p (parse_RETURN fid p).
Proof.
  unfold_parse_RETURN.
  destruct (expression_ok (get_token_append p)) as (e & R & X).
  destruct (parse_expression (get_token_append p)) as [t p0].
  cbn [fst snd] in R. close_run.
Qed.

(** *** Every routine keeps the discipline *)

Lemma discipline n fid :
  (∀ p q, parse_statement n fid p = Some q → closed p q)
  ∧ (∀ t p q, parse_statement_list n fid t p = Some q → closed p q)
  ∧ (∀ p q, parse_DO n fid p = Some q → closed p q)
  ∧ (∀ p q, parse_WHILE n fid p = Some q → closed p q)
  ∧ (∀ p q, parse_IF n fid p = Some q → closed p q)
  ∧ (∀ p q, parse_FOR n fid p = Some q → closed p q)
  ∧ (∀ p q, parse_SWITCH n fid p = Some q → closed p q)
  ∧ (∀ p q, parse_compound n fid p = Some q → closed p q).
Proof.
  induction n as [|n (IHs & IHl & IHdo & IHwh & IHif & IHfor & IHsw & IHco)].
  { repeat split; intros; discriminate. }
  split_and!.
  - intros p q H. rewrite parse_statement_unfold in H. exec H.
    match type of H with
    | ?d ≫= _ = _ => destruct d as [r|] eqn:D; [|discriminate H]
    end.
    rewrite bind_Some_eq in H. cbv beta in H. injection H as <-.
    assert (closed p1 r) as (e0 & R1 & X0).
    { destruct (token p1); try (injection D as <-); try apply closed_refl;
        try (by auto).
      - apply declaration_ok.
      - eapply closed_trans; [|apply directive_ok].
        apply closed_silent, run_get_token.
      - eapply closed_trans; [|apply constant_ok].
        apply closed_silent, run_get_token_append.
      - apply closed_silent, run_get_token_append.
      - apply parse_RETURN_closed. }
    case_decide; close_run.
  - intros t p q H. rewrite parse_statement_list_unfold in H. exec H.
    case_decide.
    + apply IHl in H as (e0 & R1 & X0). close_run.
    + injection H as <-. close_run.
  - intros p q H. apply parse_DO_run in H as (? & ? & _ & _ & R & X);
      [by eexists|done].
  - intros p q H. apply parse_WHILE_run in H as (? & ? & _ & _ & R & X);
      [by eexists|done].
  - intros p q H.
    apply parse_IF_run in H
      as (? & ? & _ & _ & [[R X]|(? & ? & _ & R & X)]);
      [by eexists|by eexists|done].
  - intros p q H.
    apply parse_FOR_run in H as (? & ? & ? & ? & _ & _ & _ & _ & R & X);
      [by eexists|done].
  - intros p q H. rewrite parse_SWITCH_unfold in H. exec H.
    apply IHs in H as (e0 & R5 & X0). close_run.
  - intros p q H. rewrite parse_compound_unfold in H. exec H.
    case_decide; injection H as <-; close_run.
Qed.

(** *** The stream written by a routine *)

Lemma for_init_code fid p :
  ∃ c s, optional (declaration_code fid) c ∧ tokens_of tc_semicolon s
    ∧ icode (if decide (token p ≠ tc_semicolon)
             then conditional_get_token_append tc_semicolon
                    err_missing_semicolon
                    (parse_declarations_or_assignment fid p)
             else get_token_append p)
      = (icode p ++ c) ++ s.
Proof.
  case_decide as Ht.
  - destruct (well_behaved_emits _ p (declaration_ok fid)) as (c & Hc).
    destruct (icode_conditional_get_token_append tc_semicolon
                err_missing_semicolon
                (parse_declarations_or_assignment fid p)) as (s & Hs & Ts).
    exists c, s. split; [right; by exists p|]. split; [done|].
    by rewrite Hs, Hc.
  - exists [], [ic_token (p_token p)]. split; [by left|]. split.
    + apply tokens_of_current. by destruct (decide (token p = tc_semicolon)).
    + by rewrite app_nil_r.
Qed.

Lemma for_condition_code p :
  ∃ c s, optional expression_code c ∧ tokens_of tc_semicolon s
    ∧ icode (if decide (token p ≠ tc_semicolon)
             then let '(t, p0) := parse_expression p in
                  conditional_get_token_append tc_semicolon
                    err_missing_semicolon (check_boolean t p0)
             else get_token_append p)
      = (icode p ++ c) ++ s.
Proof.
  case_decide as Ht.
  - destruct (well_behaved_emits _ p expression_ok) as (c & Hc).
    destruct (parse_expression p) as [t p0] eqn:E. cbn [fst snd] in Hc.
    destruct (icode_conditional_get_token_append tc_semicolon
                err_missing_semicolon (check_boolean t p0)) as (s & Hs & Ts).
    exists c, s. split; [right; exists p; by rewrite E|]. split; [done|].
    by rewrite Hs, icode_check_boolean, Hc.
  - exists [], [ic_token (p_token p)]. split; [by left|]. split.
    + apply tokens_of_current. by destruct (decide (token p = tc_semicolon)).
    + by rewrite app_nil_r.
Qed.

Lemma for_increment_code p :
  ∃ c, optional expression_code c
    ∧ icode (if decide (token p ≠ tc_right_paren)
             then (parse_expression p).2 else p)
      = icode p ++ c.
Proof.
  case_decide as Ht.
  - destruct (well_behaved_emits _ p expression_ok) as (c & Hc).
    exists c. split; [right; by exists p|done].
  - exists []. split; [by left|by rewrite app_nil_r].
Qed.

Ltac icode_same :=
  first [ apply icode_get_token | apply icode_cx_error
        | apply icode_check_boolean | apply icode_resync
        | apply icode_set_dispatched ].

(** Symbolic execution that records what each step appends. *)
Ltac trace_let H :=
  lazymatch type of H with
  | (let x := ?v in @?b x) = ?r =>
      let T := type of v in
      lazymatch T with
      | cx_parser =>
          let p' := fresh "p" in
          pose (p' := v); change (b p' = r) in H; cbv beta in H;
          let c := fresh "c" in let s := fresh "s" in
          let O := fresh "O" in let I := fresh "I" in
          let T := fresh "T" in
          lazymatch v with
          | fixup_location_marker ?m ?x =>
              pose proof (icode_fixup_location_marker m x) as I;
              change (icode p' = <[m := ic_location_marker
                                          (Some (length (icode x)))]>
                                   (icode x)) in I
          | context [parse_declarations_or_assignment ?f ?x] =>
              destruct (for_init_code f x) as (c & s & O & T & I);
              change (icode p' = (icode x ++ c) ++ s) in I
          | context [parse_expression ?x] =>
              first [ destruct (for_condition_code x) as (c & s & O & T & I);
                      change (icode p' = (icode x ++ c) ++ s) in I
                    | destruct (for_increment_code x) as (c & O & I);
                      change (icode p' = icode x ++ c) in I ]
          | insert_line_marker ?x =>
              destruct (well_behaved_emits _ x line_marker_ok) as (c & I);
              change (icode p' = icode x ++ c) in I
          | if ?d then cx_error _ ?x else ?x =>
              assert (icode p' = icode x) as I
                by (subst p'; by destruct d)
          | get_token_append ?x =>
              pose proof (icode_get_token_append x) as I;
              change (icode p' = icode x ++ [ic_token (p_token x)]) in I
          | conditional_get_token_append ?tc ?ec ?x =>
              destruct (icode_conditional_get_token_append tc ec x)
                as (c & I & T);
              change (icode p' = icode x ++ c) in I
          | skip_semicolons ?x =>
              destruct (icode_skip_semicolons x) as (c & I & T);
              change (icode p' = icode x ++ c) in I
          | ?f ?x =>
              assert (icode p' = icode x) as I by (subst p'; icode_same)
          end;
          clearbody p'
      | _ => change (b v = r) in H; cbv beta in H
      end
  end.

Ltac trace_call H :=
  match type of H with
  | context [put_location_marker ?x] =>
      let m := fresh "m" in let I := fresh "I" in let K := fresh "K" in
      let p' := fresh "p" in let E := fresh "E" in
      pose proof (icode_put_location_marker x) as I;
      pose proof (p_token_put_location_marker x) as K;
      destruct (put_location_marker x) as [m p'] eqn:E;
      apply (f_equal fst) in E; change (length (icode x) = m) in E;
      cbn [fst snd] in I, K; cbv beta iota in H; subst m
  | context [parse_expression ?x] =>
      let t := fresh "t" in let p' := fresh "p" in
      let c := fresh "c" in let O := fresh "O" in let I := fresh "I" in
      destruct (well_behaved_emits _ x expression_ok) as (c & I);
      assert (expression_code c) as O by (by exists x);
      destruct (parse_expression x) as [t p'];
      cbn [fst snd] in I; cbv beta iota in H
  | context [parse_statement ?n ?f ?x] =>
      let p' := fresh "p" in let E := fresh "E" in
      let c := fresh "c" in let O := fresh "O" in let I := fresh "I" in
      destruct (parse_statement n f x) as [p'|] eqn:E;
      [|discriminate H];
      match goal with
      | IH : ∀ p q, parse_statement n f p = Some q → closed p q |- _ =>
          destruct (closed_emits _ _ (IH _ _ E)) as (c & I)
      end;
      assert (statement_code n f c) as O by (by eexists _, _);
      clear E; rewrite bind_Some_eq in H; cbv beta in H
  | context [parse_statement_list ?n ?f ?t ?x] =>
      let p' := fresh "p" in let E := fresh "E" in
      let c := fresh "c" in let O := fresh "O" in let I := fresh "I" in
      destruct (parse_statement_list n f t x) as [p'|] eqn:E;
      [|discriminate H];
      match goal with
      | IH : ∀ t p q, parse_statement_list n f t p = Some q → closed p q
        |- _ => destruct (closed_emits _ _ (IH _ _ _ E)) as (c & I)
      end;
      assert (statement_list_code n f t c) as O by (by eexists _, _);
      clear E; rewrite bind_Some_eq in H; cbv beta in H
  end.

Ltac trace H := repeat first [trace_let H | trace_call H].

(** Express the stream of the last state by the stream of the first. *)
Ltac unroll_icode :=
  repeat match goal with
         | I : icode ?x = _ |- context [icode ?x] => rewrite !I
         end;
  repeat match goal with
         | K : p_token ?x = _ |- context [p_token ?x] => rewrite !K
         end.

Ltac stream_eq :=
  rewrite ?icode_fixup_location_marker; unroll_icode;
  repeat rewrite length_insert; push_insert;
  rewrite <- ?app_assoc; simpl;
  repeat (f_equal; try lengths).

Lemma parse_FOR_code n fid p q :
  parse_FOR (S n) fid p = Some q →
  ∃ lp cI s1 cE s2 cX rp cS,
    tokens_of tc_left_paren lp
    ∧ optional (declaration_code fid) cI ∧ tokens_of tc_semicolon s1
    ∧ optional expression_code cE ∧ tokens_of tc_semicolon s2
    ∧ optional expression_code cX ∧ tokens_of tc_right_paren rp
    ∧ statement_code n fid cS
    ∧ let cond := length (icode p) + 5 + length lp + length cI + length s1 in
      let incr := cond + length cE + length s2 in
      let body := incr + length cX + length rp in
      let exit := body + length cS in
      icode q
      = icode p
        ++ [ic_location_marker (Some exit); ic_location_marker (Some body);
            ic_location_marker (Some cond); ic_location_marker (Some incr)]
        ++ [ic_token (p_token p)] ++ lp
        ++ cI ++ s1 ++ cE ++ s2 ++ cX ++ rp ++ cS.
Proof.
  intros H. destruct (discipline n fid) as (IHs & _).
  rewrite parse_FOR_unfold in H. trace H. injection H as <-.
  exists c, c0, s, c1, s0, c2, c3, c4. do 8 (split; [done|]).
  cbv zeta. stream_eq.
Qed.

(** *** The states a routine goes through *)

(** [parse_IF], step by step: the condition is parsed after the
    marker, the keyword and the parenthesis; the then-branch after the
    closing parenthesis; and the routine goes on to an else-branch
    exactly when the token after the then-branch and its separators
    is [else]. *)
Lemma parse_IF_inv n fid p q :
  parse_IF (S n) fid p = Some q →
  ∃ t pe qT,
    parse_expression
      (conditional_get_token_append tc_left_paren err_missing_left_paren
         (get_token_append (put_location_marker p).2)) = (t, pe)
    ∧ parse_statement n fid
        (conditional_get_token_append tc_right_paren
           err_missing_right_paren (check_boolean t pe)) = Some qT
    ∧ let r := fixup_location_marker (length (icode p))
                 (skip_semicolons qT) in
      (token (skip_semicolons qT) ≠ tc_ELSE ∧ q = r)
      ∨ (token (skip_semicolons qT) = tc_ELSE
         ∧ ∃ qE,
             parse_statement n fid
               (get_token_append (put_location_marker r).2) = Some qE
             ∧ q = fixup_location_marker (length (icode r))
                     (skip_semicolons qE)).
Proof.
  intros H. rewrite parse_IF_unfold in H.
  change (put_location_marker p)
    with (length (icode p), (put_location_marker p).2) in H.
  cbv beta iota zeta in H.
  destruct (parse_expression _) as [t pe] eqn:Ee.
  exists t, pe.
  match type of H with
  | context [parse_statement n fid ?x] =>
      destruct (parse_statement n fid x) as [qT|] eqn:ET;
      [|discriminate H]
  end.
  rewrite bind_Some_eq in H. exists qT.
  split; [reflexivity|]. split; [reflexivity|]. cbv zeta.
  case_decide as Hd.
  - right. split; [exact Hd|].
    match type of H with
    | context [put_location_marker ?x] =>
        change (put_location_marker x)
          with (length (icode x), (put_location_marker x).2) in H
    end.
    cbv beta iota in H.
    match type of H with
    | context [parse_statement n fid ?x] =>
        destruct (parse_statement n fid x) as [qE|] eqn:EE;
        [|discriminate H]
    end.
    rewrite bind_Some_eq in H. injection H as <-.
    exists qE. split; reflexivity.
  - left. injection H as <-. split; [exact Hd|reflexivity].
Qed.

(** [parse_FOR], step by step: the four reserves, the keyword and the
    parenthesis, then the three clauses of the header with a fixup
    after each, and the body. *)
Lemma parse_FOR_inv n fid p q :
  parse_FOR (S n) fid p = Some q →
  let p1 := (put_location_marker p).2 in
  let p2 := (put_location_marker p1).2 in
  let p3 := (put_location_marker p2).2 in
  let p4 := (put_location_marker p3).2 in
  let pI := conditional_get_token_append tc_left_paren
              err_missing_left_paren (get_token_append p4) in
  let qI := for_init parse_declarations_or_assignment fid pI in
  let pE := fixup_location_marker (length (icode p2)) qI in
  let qE := for_condition is_boolean parse_expression pE in
  let pX := fixup_location_marker (length (icode p3)) qE in
  let qX := conditional_get_token_append tc_right_paren
              err_missing_right_paren (for_increment parse_expression pX) in
  let pS := fixup_location_marker (length (icode p1)) qX in
  ∃ qS,
    parse_statement n fid pS = Some qS
    ∧ q = fixup_location_marker (length (icode p)) qS.
Proof.
  intros H p1 p2 p3 p4 pI qI pE qE pX qX pS.
  rewrite parse_FOR_unfold in H.
  change (put_location_marker p) with (length (icode p), p1) in H.
  cbv beta iota in H.
  change (put_location_marker p1) with (length (icode p1), p2) in H.
  cbv beta iota in H.
  change (put_location_marker p2) with (length (icode p2), p3) in H.
  cbv beta iota in H.
  change (put_location_marker p3) with (length (icode p3), p4) in H.
  cbv beta iota in H.
  cbv zeta in H.
  match type of H with
  | context [parse_statement n fid ?x] =>
      destruct (parse_statement n fid x) as [qS|] eqn:ES;
      [|discriminate H]
  end.
  rewrite bind_Some_eq in H. injection H as <-. exists qS.
  split; [exact ES|reflexivity].
Qed.

(** What each clause of a [for] header appends: the code of the
    sub-parse made at this very state when the clause is there, and
    nothing when it is empty; then the separator. *)
Lemma for_init_tied fid p :
  ∃ c s,
    (if decide (token p ≠ tc_semicolon)
     then icode (parse_declarations_or_assignment fid p) = icode p ++ c
     else c = [])
    ∧ tokens_of tc_semicolon s
    ∧ icode (for_init parse_declarations_or_assignment fid p)
      = icode p ++ c ++ s.
Proof.
  unfold for_init. case_decide as Ht.
  - destruct (well_behaved_emits _ p (declaration_ok fid)) as (c & Hc).
    destruct (icode_conditional_get_token_append tc_semicolon
                err_missing_semicolon
                (parse_declarations_or_assignment fid p)) as (s & Hs & Ts).
    exists c, s. split; [done|]. split; [done|].
    cbv zeta. by rewrite Hs, Hc, <- app_assoc.
  - exists [], [ic_token (p_token p)]. split; [done|]. split; [|done].
    apply tokens_of_current. by destruct (decide (token p = tc_semicolon)).
Qed.

Lemma for_condition_tied p :
  ∃ c s,
    (if decide (token p ≠ tc_semicolon)
     then icode (parse_expression p).2 = icode p ++ c
     else c = [])
    ∧ tokens_of tc_semicolon s
    ∧ icode (for_condition is_boolean parse_expression p)
      = icode p ++ c ++ s.
Proof.
  unfold for_condition. case_decide as Ht.
  - destruct (well_behaved_emits _ p expression_ok) as (c & Hc).
    destruct (parse_expression p) as [t p0] eqn:E. cbn [fst snd] in Hc.
    destruct (icode_conditional_get_token_append tc_semicolon
                err_missing_semicolon (check_boolean t p0)) as (s & Hs & Ts).
    exists c, s. split; [done|]. split; [done|].
    cbv zeta. by rewrite Hs, icode_check_boolean, Hc, <- app_assoc.
  - exists [], [ic_token (p_token p)]. split; [done|]. split; [|done].
    apply tokens_of_current. by destruct (decide (token p = tc_semicolon)).
Qed.

Lemma for_increment_tied p :
  ∃ c,
    (if decide (token p ≠ tc_right_paren)
     then icode (parse_expression p).2 = icode p ++ c
     else c = [])
    ∧ icode (for_increment parse_expression p) = icode p ++ c.
Proof.
  unfold for_increment. case_decide as Ht.
  - destruct (well_behaved_emits _ p expression_ok) as (c & Hc).
    by exists c.
  - exists []. split; [done|]. by rewrite app_nil_r.
Qed.

(** ** The claims *)

(** C1 — marker balance.  A [do] and a [while] reserve one marker, a
    [for] four, and an [if] one when the token after its then-branch
    (and the separators behind it) is not [else] and two when it is;
    when the routine returns, its own calls on the marker interface
    are exactly those reserves and as many fixups, one per reserved
    marker, around the calls made by its sub-parses; and in the whole
    log of the routine every marker is reserved at most once and
    fixed up exactly as often as it is reserved. *)
Theorem marker_balance n fid p q :
  let m := length (icode p) in
  (parse_DO (S n) fid p = Some q →
     ∃ eL eE,
       statement_list_events n fid tc_WHILE eL ∧ expression_events eE
       ∧ mlog q = mlog p ++ [Reserve m] ++ eL ++ eE ++ [Fixup m]
       ∧ exactly_once ([Reserve m] ++ eL ++ eE ++ [Fixup m]))
  ∧ (parse_WHILE (S n) fid p = Some q →
       ∃ eE eS,
         expression_events eE ∧ statement_events n fid eS
         ∧ mlog q = mlog p ++ [Reserve m] ++ eE ++ eS ++ [Fixup m]
         ∧ exactly_once ([Reserve m] ++ eE ++ eS ++ [Fixup m]))
  ∧ (parse_IF (S n) fid p = Some q →
       ∃ t pe qT eE eS1,
         parse_expression
           (conditional_get_token_append tc_left_paren
              err_missing_left_paren
              (get_token_append (put_location_marker p).2)) = (t, pe)
         ∧ parse_statement n fid
             (conditional_get_token_append tc_right_paren
                err_missing_right_paren (check_boolean t pe)) = Some qT
         ∧ expression_events eE ∧ statement_events n fid eS1
         ∧ mlog pe = mlog p ++ [Reserve m] ++ eE
         ∧ mlog qT = mlog pe ++ eS1
         ∧ ((token (skip_semicolons qT) ≠ tc_ELSE
             ∧ mlog q = mlog p ++ [Reserve m] ++ eE ++ eS1 ++ [Fixup m]
             ∧ exactly_once ([Reserve m] ++ eE ++ eS1 ++ [Fixup m]))
            ∨ (token (skip_semicolons qT) = tc_ELSE
               ∧ ∃ m' qE eS2,
                   m' = length (icode (skip_semicolons qT))
                   ∧ parse_statement n fid
                       (get_token_append
                          (put_location_marker
                             (fixup_location_marker m
                                (skip_semicolons qT))).2) = Some qE
                   ∧ statement_events n fid eS2
                   ∧ mlog qE
                     = mlog qT ++ [Fixup m] ++ [Reserve m'] ++ eS2
                   ∧ mlog q
                     = mlog p ++ [Reserve m] ++ eE ++ eS1 ++ [Fixup m]
                       ++ [Reserve m'] ++ eS2 ++ [Fixup m']
                   ∧ exactly_once
                       ([Reserve m] ++ eE ++ eS1 ++ [Fixup m]
                        ++ [Reserve m'] ++ eS2 ++ [Fixup m']))))
  ∧ (parse_FOR (S n) fid p = Some q →
       ∃ eI eE eX eS,
         optional (declaration_events fid) eI
         ∧ optional expression_events eE
         ∧ optional expression_events eX
         ∧ statement_events n fid eS
         ∧ mlog q
           = mlog p
             ++ [Reserve m; Reserve (m + 1); Reserve (m + 2);
                 Reserve (m + 3)]
             ++ eI ++ [Fixup (m + 2)] ++ eE ++ [Fixup (m + 3)]
             ++ eX ++ [Fixup (m + 1)] ++ eS ++ [Fixup m]
         ∧ exactly_once
             ([Reserve m; Reserve (m + 1); Reserve (m + 2);
               Reserve (m + 3)]
              ++ eI ++ [Fixup (m + 2)] ++ eE ++ [Fixup (m + 3)]
              ++ eX ++ [Fixup (m + 1)] ++ eS ++ [Fixup m])).
Proof.
  intros m. destruct (discipline n fid) as (IHs & IHl & _).
  split_and!; intros H.
  - destruct (parse_DO_run _ _ _ _ IHl H) as (eL & eE & ? & ? & [R _] & X).
    by exists eL, eE.
  - destruct (parse_WHILE_run _ _ _ _ IHs H)
      as (eE & eS & ? & ? & [R _] & X).
    by exists eE, eS.
  - destruct (parse_IF_inv _ _ _ _ H) as (t & pe & qT & Ee & ET & Hcase).
    clear H. set (b := length (icode p)) in *. subst m.
    cbv zeta in Hcase.
    pose proof (run_put_location_marker p) as R0.
    match type of Ee with
    | parse_expression ?x = _ =>
        destruct (expression_ok x) as (eE & RE & XE)
    end.
    cbv beta in RE. rewrite Ee in RE. cbn [snd] in RE.
    destruct (IHs _ _ ET) as (eS1 & RS1 & XS1).
    exists t, pe, qT, eE, eS1.
    split; [exact Ee|]. split; [exact ET|].
    split; [eexists; rewrite Ee; apply RE|].
    split; [eexists _, _; split; [exact ET|apply RS1]|].
    split.
    { assert (marker_run p pe ([Reserve b] ++ eE)) as [Hm _] by run_shape.
      exact Hm. }
    split.
    { assert (marker_run pe qT eS1) as [Hm _] by run_shape. exact Hm. }
    destruct Hcase as [[Hne ->]|(He & qE & EE & ->)].
    + left. split; [exact Hne|].
      assert (marker_run p
                (fixup_location_marker b (skip_semicolons qT))
                ([Reserve b] ++ eE ++ eS1 ++ [Fixup b])) as Hrun
        by run_shape.
      split; [apply Hrun|].
      eapply run_exactly_once; [exact Hrun|balance].
    + right. split; [exact He|].
      destruct (IHs _ _ EE) as (eS2 & RS2 & XS2).
      pose proof (run_put_location_marker
                    (fixup_location_marker b (skip_semicolons qT))) as R1.
      assert (length (icode (fixup_location_marker b (skip_semicolons qT)))
              = length (icode (skip_semicolons qT))) as El
        by (rewrite icode_fixup_location_marker; apply length_insert).
      rewrite El in R1. rewrite El.
      exists (length (icode (skip_semicolons qT))), qE, eS2.
      split; [done|]. split; [exact EE|].
      split; [eexists _, _; split; [exact EE|apply RS2]|].
      split.
      { assert (marker_run qT qE
                  ([Fixup b]
                   ++ [Reserve (length (icode (skip_semicolons qT)))]
                   ++ eS2)) as [Hm _] by run_shape.
        exact Hm. }
      assert (marker_run p
                (fixup_location_marker
                   (length (icode (skip_semicolons qT)))
                   (skip_semicolons qE))
                ([Reserve b] ++ eE ++ eS1 ++ [Fixup b]
                 ++ [Reserve (length (icode (skip_semicolons qT)))]
                 ++ eS2
                 ++ [Fixup (length (icode (skip_semicolons qT)))]))
        as Hrun by run_shape.
      split; [apply Hrun|].
      eapply run_exactly_once; [exact Hrun|balance].
  - destruct (parse_FOR_run _ _ _ _ IHs H)
      as (eI & eE & eX & eS & ? & ? & ? & ? & [R _] & X).
    by exists eI, eE, eX, eS.
Qed.

(** C2, as amended — [if]/[else] marker targets.  The false-branch
    marker is fixed up to the position immediately after the code of
    the then-branch and of the separators consumed after it.  When the
    token there is [else], that position holds the slot of the
    skip-else marker, which is followed by the [else] token and only
    then by the code of the else-branch, two positions further on; and
    the skip-else marker is fixed up to the position immediately after
    the code of the else-branch and of the separators consumed after
    it, the end of the stream.  When the token is not [else], the
    routine returns with the one marker.  The pieces of the stream
    are those appended by this condition, this then-branch and this
    else-branch. *)
Theorem if_else_marker_targets n fid p q :
  parse_IF (S n) fid p = Some q →
  let b := length (icode p) in
  ∃ t pe qT lp cE rp cS1 sep1,
    parse_expression
      (conditional_get_token_append tc_left_paren err_missing_left_paren
         (get_token_append (put_location_marker p).2)) = (t, pe)
    ∧ parse_statement n fid
        (conditional_get_token_append tc_right_paren
           err_missing_right_paren (check_boolean t pe)) = Some qT
    ∧ tokens_of tc_left_paren lp ∧ expression_code cE
    ∧ tokens_of tc_right_paren rp ∧ statement_code n fid cS1
    ∧ tokens_of tc_semicolon sep1
    ∧ icode pe
      = icode p ++ [ic_location_marker None] ++ [ic_token (p_token p)]
        ++ lp ++ cE
    ∧ icode qT = icode pe ++ rp ++ cS1
    ∧ icode (skip_semicolons qT) = icode qT ++ sep1
    ∧ let t1 := b + 2 + length lp + length cE + length rp
                + length cS1 + length sep1 in
      (token (skip_semicolons qT) ≠ tc_ELSE
       ∧ icode q
         = icode p ++ [ic_location_marker (Some t1)]
           ++ [ic_token (p_token p)] ++ lp ++ cE ++ rp ++ cS1 ++ sep1)
      ∨ (token (skip_semicolons qT) = tc_ELSE
         ∧ ∃ pE qE cS2 sep2,
             pE = get_token_append
                    (put_location_marker
                       (fixup_location_marker b (skip_semicolons qT))).2
             ∧ parse_statement n fid pE = Some qE
             ∧ statement_code n fid cS2 ∧ tokens_of tc_semicolon sep2
             ∧ icode qE = icode pE ++ cS2
             ∧ icode (skip_semicolons qE) = icode qE ++ sep2
             ∧ length (icode pE) = t1 + 2
             ∧ let t2 := t1 + 2 + length cS2 + length sep2 in
               icode q
               = icode p ++ [ic_location_marker (Some t1)]
                 ++ [ic_token (p_token p)] ++ lp ++ cE ++ rp ++ cS1
                 ++ sep1
                 ++ [ic_location_marker (Some t2);
                     ic_token (p_token (skip_semicolons qT))]
                 ++ cS2 ++ sep2).
Proof.
  intros H b.
  destruct (parse_IF_inv _ _ _ _ H) as (t & pe & qT & Ee & ET & Hcase).
  clear H. cbv zeta in Hcase. fold b in Hcase.
  destruct (discipline n fid) as (IHs & _).
  (* the states up to the then-branch, and what each step appends *)
  pose proof (icode_put_location_marker p) as I1.
  pose proof (p_token_put_location_marker p) as K1.
  set (p1 := (put_location_marker p).2) in *.
  pose proof (icode_get_token_append p1) as I0.
  set (p0 := get_token_append p1) in *.
  destruct (icode_conditional_get_token_append tc_left_paren
              err_missing_left_paren p0) as (lp & Ilp & Tlp).
  set (pC := conditional_get_token_append tc_left_paren
               err_missing_left_paren p0) in *.
  destruct (well_behaved_emits _ pC expression_ok) as (cE & IE).
  assert (expression_code cE) as OE by (by exists pC).
  rewrite Ee in IE. cbn [snd] in IE.
  pose proof (icode_check_boolean is_boolean t pe) as Ib.
  set (pb := check_boolean t pe) in *.
  destruct (icode_conditional_get_token_append tc_right_paren
              err_missing_right_paren pb) as (rp & Irp & Trp).
  set (pT := conditional_get_token_append tc_right_paren
               err_missing_right_paren pb) in *.
  destruct (closed_emits _ _ (IHs _ _ ET)) as (cS1 & IS1).
  assert (statement_code n fid cS1) as OS1 by (by eexists _, _).
  destruct (icode_skip_semicolons qT) as (sep1 & Isep1 & Tsep1).
  exists t, pe, qT, lp, cE, rp, cS1, sep1.
  split; [exact Ee|]. split; [exact ET|].
  do 5 (split; [done|]).
  split; [by rewrite IE, Ilp, I0, I1, K1, <- !app_assoc|].
  split; [by rewrite IS1, Irp, Ib, <- !app_assoc|].
  split; [exact Isep1|].
  cbv zeta.
  destruct Hcase as [[Hne ->]|(He & qE & EE & ->)].
  - left. split; [exact Hne|].
    set (pk := skip_semicolons qT) in *.
    clearbody p1 p0 pC pb pT pk. subst b. stream_eq.
  - right. split; [exact He|].
    pose proof (length_insert (icode (skip_semicolons qT)) b
                  (ic_location_marker
                     (Some (length (icode (skip_semicolons qT)))))) as El.
    change (length (icode (fixup_location_marker b (skip_semicolons qT)))
            = length (icode (skip_semicolons qT))) in El.
    rewrite El.
    pose proof (icode_fixup_location_marker b (skip_semicolons qT)) as If.
    set (pk := skip_semicolons qT) in *.
    set (pf := fixup_location_marker b pk) in *.
    pose proof (icode_put_location_marker pf) as I2.
    pose proof (p_token_put_location_marker pf) as K2.
    assert (p_token pf = p_token pk) as K3 by reflexivity.
    set (p2 := (put_location_marker pf).2) in *.
    pose proof (icode_get_token_append p2) as I3.
    set (pE := get_token_append p2) in *.
    destruct (closed_emits _ _ (IHs _ _ EE)) as (cS2 & IS2).
    assert (statement_code n fid cS2) as OS2 by (by eexists _, _).
    destruct (icode_skip_semicolons qE) as (sep2 & Isep2 & Tsep2).
    exists pE, qE, cS2, sep2.
    split; [reflexivity|]. split; [exact EE|].
    do 2 (split; [done|]).
    split; [exact IS2|]. split; [exact Isep2|].
    set (pj := skip_semicolons qE) in *.
    clearbody p1 p0 pC pb pT pk pf p2 pE pj. subst b.
    split.
    + rewrite I3, I2, If.
      repeat first [rewrite length_app | rewrite length_insert].
      rewrite Isep1, IS1, Irp, Ib, IE, Ilp, I0, I1. lengths.
    + stream_eq.
Qed.

(** C3 — the [for] loop.  The four markers are reserved first, in the
    order exit, body-start, condition-start, increment-start, before
    the [for] keyword is appended.  The routine then goes through the
    states named below: the init clause is parsed where the
    parenthesis leaves the cursor, condition-start is fixed up after
    the init clause and its separator, increment-start after the
    condition and its separator, body-start after the increment and
    the closing parenthesis, exit after the body.  A clause appends
    the code of the sub-parse made at its state when the clause is
    there and nothing when it is empty, and the stream holds the code
    of the init clause, of the condition, of the increment and of the
    body in that order, the body last, each marker holding the
    position at which its part starts. *)
Theorem for_emission_order n fid p q :
  parse_FOR (S n) fid p = Some q →
  let b := length (icode p) in
  let p1 := (put_location_marker p).2 in
  let p2 := (put_location_marker p1).2 in
  let p3 := (put_location_marker p2).2 in
  let p4 := (put_location_marker p3).2 in
  let pI := conditional_get_token_append tc_left_paren
              err_missing_left_paren (get_token_append p4) in
  let qI := for_init parse_declarations_or_assignment fid pI in
  let pE := fixup_location_marker (length (icode p2)) qI in
  let qE := for_condition is_boolean parse_expression pE in
  let pX := fixup_location_marker (length (icode p3)) qE in
  let qX := conditional_get_token_append tc_right_paren
              err_missing_right_paren (for_increment parse_expression pX) in
  let pS := fixup_location_marker (length (icode p1)) qX in
  (∃ eI eE eX eS,
     mlog q
     = mlog p
       ++ [Reserve b; Reserve (b + 1); Reserve (b + 2); Reserve (b + 3)]
       ++ eI ++ [Fixup (b + 2)] ++ eE ++ [Fixup (b + 3)]
       ++ eX ++ [Fixup (b + 1)] ++ eS ++ [Fixup b])
  ∧ length (icode p1) = b + 1 ∧ length (icode p2) = b + 2
  ∧ length (icode p3) = b + 3
  ∧ ∃ qS lp cI s1 cE s2 cX rp cS,
      parse_statement n fid pS = Some qS
      ∧ q = fixup_location_marker b qS
      ∧ tokens_of tc_left_paren lp
      ∧ icode pI = icode p4 ++ [ic_token (p_token p)] ++ lp
      ∧ (if decide (token pI ≠ tc_semicolon)
         then icode (parse_declarations_or_assignment fid pI)
              = icode pI ++ cI
         else cI = [])
      ∧ tokens_of tc_semicolon s1
      ∧ icode qI = icode pI ++ cI ++ s1
      ∧ (if decide (token pE ≠ tc_semicolon)
         then icode (parse_expression pE).2 = icode pE ++ cE
         else cE = [])
      ∧ tokens_of tc_semicolon s2
      ∧ icode qE = icode pE ++ cE ++ s2
      ∧ (if decide (token pX ≠ tc_right_paren)
         then icode (parse_expression pX).2 = icode pX ++ cX
         else cX = [])
      ∧ tokens_of tc_right_paren rp
      ∧ icode qX = icode pX ++ cX ++ rp
      ∧ icode qS = icode pS ++ cS
      ∧ let cond := b + 5 + length lp + length cI + length s1 in
        let incr := cond + length cE + length s2 in
        let body := incr + length cX + length rp in
        let exit := body + length cS in
        icode q
        = icode p
          ++ [ic_location_marker (Some exit);
              ic_location_marker (Some body);
              ic_location_marker (Some cond);
              ic_location_marker (Some incr)]
          ++ [ic_token (p_token p)] ++ lp
          ++ cI ++ s1 ++ cE ++ s2 ++ cX ++ rp ++ cS.
Proof.
  intros H b p1 p2 p3 p4 pI qI pE qE pX qX pS.
  destruct (discipline n fid) as (IHs & _).
  split.
  { destruct (parse_FOR_run _ _ _ _ IHs H)
      as (eI & eE & eX & eS & _ & _ & _ & _ & [R _] & _).
    by exists eI, eE, eX, eS. }
  pose proof (icode_put_location_marker p : icode p1 = _) as I1.
  pose proof (icode_put_location_marker p1 : icode p2 = _) as I2.
  pose proof (icode_put_location_marker p2 : icode p3 = _) as I3.
  pose proof (icode_put_location_marker p3 : icode p4 = _) as I4.
  assert (p_token p4 = p_token p) as K by reflexivity.
  split; [rewrite I1; lengths|].
  split; [rewrite I2, I1; lengths|].
  split; [rewrite I3, I2, I1; lengths|].
  destruct (parse_FOR_inv _ _ _ _ H) as (qS & ES & ->). clear H.
  fold p1 p2 p3 p4 pI qI pE qE pX qX pS in ES. fold b.
  destruct (closed_emits _ _ (IHs _ _ ES)) as (cS & IS).
  pose proof (icode_get_token_append p4) as I0.
  destruct (icode_conditional_get_token_append tc_left_paren
              err_missing_left_paren (get_token_append p4))
    as (lp & Ilp & Tlp).
  fold pI in Ilp.
  destruct (for_init_tied fid pI) as (cI & s1 & TI & Ts1 & II).
  fold qI in II.
  pose proof (icode_fixup_location_marker (length (icode p2)) qI
              : icode pE = _) as IfE.
  destruct (for_condition_tied pE) as (cE & s2 & TE & Ts2 & IE).
  fold qE in IE.
  pose proof (icode_fixup_location_marker (length (icode p3)) qE
              : icode pX = _) as IfX.
  destruct (for_increment_tied pX) as (cX & TX & IX).
  destruct (icode_conditional_get_token_append tc_right_paren
              err_missing_right_paren (for_increment parse_expression pX))
    as (rp & Irp & Trp).
  fold qX in Irp.
  pose proof (icode_fixup_location_marker (length (icode p1)) qX
              : icode pS = _) as IfS.
  exists qS, lp, cI, s1, cE, s2, cX, rp, cS.
  split; [exact ES|]. split; [reflexivity|]. split; [exact Tlp|].
  split; [by rewrite Ilp, I0, K, <- app_assoc|].
  split; [exact TI|]. split; [exact Ts1|]. split; [exact II|].
  split; [exact TE|]. split; [exact Ts2|]. split; [exact IE|].
  split; [exact TX|]. split; [exact Trp|].
  split; [by rewrite Irp, IX, <- app_assoc|].
  split; [exact IS|].
  cbv zeta.
  set (pk := get_token_append p4) in *.
  set (pi := for_increment parse_expression pX) in *.
  clearbody p1 p2 p3 p4 pk pI qI pE qE pX pi qX pS. subst b.
  stream_eq.
Qed.

(** C4 — compound block.  Once the statement list of the block has
    returned: for a standard iterator the block is complete, the
    closing delimiter is neither required nor consumed; for any other
    routine a current token that is not the closing delimiter makes
    the block report exactly the missing-right-bracket error, leaving
    cursor and stream alone, and a closing delimiter is consumed
    without an error. *)
Theorem compound_closing_delimiter n fid p q1 :
  parse_statement_list n fid tc_right_bracket (get_token_append p)
    = Some q1 →
  (which fid = func_std_iterator →
     parse_compound (S n) fid p = Some q1)
  ∧ (which fid ≠ func_std_iterator → token q1 ≠ tc_right_bracket →
       ∃ q, parse_compound (S n) fid p = Some q
            ∧ errors q = errors q1 ++ [err_missing_right_bracket]
            ∧ input q = input q1 ∧ icode q = icode q1)
  ∧ (which fid ≠ func_std_iterator → token q1 = tc_right_bracket →
       ∃ q, parse_compound (S n) fid p = Some q
            ∧ errors q = errors q1
            ∧ input q = tail (input q1)
            ∧ icode q = icode q1 ++ [ic_token (p_token q1)]).
Proof.
  intros H. rewrite parse_compound_unfold. cbv zeta. rewrite H.
  rewrite bind_Some_eq. unfold conditional_get_token_append.
  split_and!.
  - intros Hw. by rewrite decide_True.
  - intros Hw Ht. rewrite decide_False by done.
    rewrite decide_False by done. by eexists.
  - intros Hw Ht. rewrite decide_False by done.
    rewrite decide_True by done. by eexists.
Qed.

(** C5 — non-boolean condition.  When the condition of a [while], a
    [do], an [if] or the condition clause of a [for] has a type that is
    not boolean, the routine records exactly one incompatible-types
    error after the expression and goes on as it would have without
    it: it returns whenever the parses it still has to make return. *)
Theorem non_boolean_condition n fid p t pe :
  is_boolean t = false →
  let eit := err_incompatible_types in
  let m := length (icode p) in
  let p1 := get_token_append (put_location_marker p).2 in
  (errors (check_boolean t pe) = errors pe ++ [eit]
   ∧ error_count eit (check_boolean t pe) = S (error_count eit pe)
   ∧ input (check_boolean t pe) = input pe
   ∧ icode (check_boolean t pe) = icode pe)
  ∧ (parse_expression
       (conditional_get_token_append tc_left_paren
          err_missing_left_paren p1) = (t, pe) →
     parse_WHILE (S n) fid p
     = (q ← parse_statement n fid
              (conditional_get_token_append tc_right_paren
                 err_missing_right_paren (cx_error eit pe));
        Some (fixup_location_marker m q)))
  ∧ (∀ pl,
       parse_statement_list n fid tc_WHILE p1 = Some pl →
       parse_expression
         (conditional_get_token_append tc_left_paren
            err_missing_left_paren
            (conditional_get_token_append tc_WHILE err_missing_WHILE pl))
       = (t, pe) →
       parse_DO (S n) fid p
       = Some (fixup_location_marker m
                 (conditional_get_token_append tc_right_paren
                    err_missing_right_paren (cx_error eit pe))))
  ∧ (parse_expression
       (conditional_get_token_append tc_left_paren
          err_missing_left_paren p1) = (t, pe) →
     parse_IF (S n) fid p
     = (q ← parse_statement n fid
              (conditional_get_token_append tc_right_paren
                 err_missing_right_paren (cx_error eit pe));
        let q := fixup_location_marker m (skip_semicolons q) in
        if decide (token q = tc_ELSE) then
          let '(at_follow, q) := put_location_marker q in
          q ← parse_statement n fid (get_token_append q);
          Some (fixup_location_marker at_follow (skip_semicolons q))
        else Some q))
  ∧ (let '(break_point, p0) := put_location_marker p in
     let '(statementMarker, p0) := put_location_marker p0 in
     let '(condition_marker, p0) := put_location_marker p0 in
     let '(increment_marker, p0) := put_location_marker p0 in
     let p0 := conditional_get_token_append tc_left_paren
                 err_missing_left_paren (get_token_append p0) in
     let pc :=
       fixup_location_marker condition_marker
         (if decide (token p0 ≠ tc_semicolon) then
            conditional_get_token_append tc_semicolon
              err_missing_semicolon
              (parse_declarations_or_assignment fid p0)
          else get_token_append p0) in
     token pc ≠ tc_semicolon →
     parse_expression pc = (t, pe) →
     parse_FOR (S n) fid p
     = (let q := conditional_get_token_append tc_semicolon
                   err_missing_semicolon (cx_error eit pe) in
        let q := fixup_location_marker increment_marker q in
        let q := if decide (token q ≠ tc_right_paren)
                 then (parse_expression q).2 else q in
        let q := conditional_get_token_append tc_right_paren
                   err_missing_right_paren q in
        let q := fixup_location_marker statementMarker q in
        q ← parse_statement n fid q;
        Some (fixup_location_marker break_point q))).
Proof.
  intros Hb eit m p1.
  assert (∀ x, check_boolean t x = cx_error eit x) as Hc.
  { intros x. unfold_check_boolean.
    by rewrite Hb. }
  split_and!.
  - by rewrite Hc.
  - rewrite Hc. apply error_count_cx_error.
  - by rewrite Hc.
  - by rewrite Hc.
  - intros He. rewrite parse_WHILE_unfold. cbv zeta.
    change (put_location_marker p) with (m, (put_location_marker p).2).
    cbv beta iota. fold p1. rewrite He. cbv beta iota. by rewrite Hc.
  - intros pl Hl He. rewrite parse_DO_unfold. cbv zeta.
    change (put_location_marker p) with (m, (put_location_marker p).2).
    cbv beta iota. fold p1. rewrite Hl, bind_Some_eq. rewrite He.
    cbv beta iota. by rewrite Hc.
  - intros He. rewrite parse_IF_unfold. cbv zeta.
    change (put_location_marker p) with (m, (put_location_marker p).2).
    cbv beta iota. fold p1. rewrite He. cbv beta iota. by rewrite Hc.
  - rewrite parse_FOR_unfold.
    destruct (put_location_marker p) as [m0 p0].
    destruct (put_location_marker p0) as [m1 p2].
    destruct (put_location_marker p2) as [m2 p3].
    destruct (put_location_marker p3) as [m3 p4].
    cbv zeta. intros Ht He. rewrite (decide_True (P := token _ ≠ tc_semicolon)) by exact Ht.
    rewrite He. cbv beta iota. by rewrite Hc.
Qed.

(** C6 — [switch].  After [switch], [(], the selector expression and
    [)], exactly one incompatible-types error is added if the base
    type of the selector is neither the integer type nor the character
    type nor an enumeration, and none otherwise; either way the
    routine then parses one statement and does nothing else. *)
Theorem switch_selector_type n fid p t pe :
  parse_expression
    (conditional_get_token_append tc_left_paren err_missing_left_paren
       (get_token_append p)) = (t, pe) →
  let p_expr_type := base_type t in
  let pr := conditional_get_token_append tc_right_paren
              err_missing_right_paren pe in
  let acceptable :=
    type_addr p_expr_type = type_addr p_integer_type
    ∨ type_addr p_expr_type = type_addr p_char_type
    ∨ form p_expr_type = fc_enum in
  ∃ ps,
    parse_SWITCH (S n) fid p = parse_statement n fid ps
    ∧ input ps = input pr ∧ icode ps = icode pr ∧ mlog ps = mlog pr
    ∧ (errors ps = errors pr ++ [err_incompatible_types] ↔ ¬ acceptable)
    ∧ (errors ps = errors pr ↔ acceptable).
Proof.
  intros He p_expr_type pr acceptable.
  rewrite parse_SWITCH_unfold. cbv zeta. rewrite He. cbv beta iota.
  fold p_expr_type pr. unfold same_type.
  assert (∀ l : list cx_error_code, l ++ [err_incompatible_types] ≠ l)
    as Hne.
  { intros l Hl. apply (f_equal length) in Hl.
    rewrite length_app in Hl. simpl in Hl. lia. }
  destruct (decide acceptable) as [Ha|Ha].
  - exists pr. split.
    + destruct Ha as [Ha|[Ha|Ha]].
      * by rewrite (bool_decide_eq_true_2 _ Ha).
      * rewrite (bool_decide_eq_true_2 _ Ha). by rewrite andb_false_r.
      * rewrite (bool_decide_eq_true_2 (_ = fc_enum) Ha).
        by rewrite andb_false_r.
    + do 3 (split; [done|]). split; [|done].
      split; [intros E; symmetry in E; by apply Hne in E|done].
  - exists (cx_error err_incompatible_types pr). split.
    + rewrite !bool_decide_eq_false_2; [done|..];
        intros ?; apply Ha; unfold acceptable; tauto.
    + do 3 (split; [done|]). split; [done|].
      split; [intros E; by apply Hne in E|done].
Qed.

(** The separator loop consumes the whole run of separators in front
    of the cursor, appends each of them, and touches nothing else. *)
Lemma skip_semicolons_loop_run k semis rest p :
  length semis ≤ k →
  input p = semis ++ rest →
  Forall (λ t, code t = tc_semicolon) semis →
  head (code <$> rest) ≠ Some tc_semicolon →
  let q := skip_semicolons_loop k p in
  input q = rest ∧ icode q = icode p ++ (ic_token <$> semis)
  ∧ errors q = errors p ∧ mlog q = mlog p ∧ dispatched q = dispatched p.
Proof.
  revert k p. induction semis as [|t semis IH]; intros k p Hk Hi Hs Hr.
  - simpl in Hi. destruct k as [|k]; simpl.
    { by rewrite app_nil_r. }
    rewrite decide_False.
    { by rewrite app_nil_r. }
    unfold token. rewrite Hi. destruct rest as [|t rest]; [done|].
    simpl in Hr. congruence.
  - destruct k as [|k]; [simpl in Hk; lia|].
    inversion Hs as [|?? Ht Hs']; subst. simpl.
    rewrite decide_True by (unfold token; by rewrite Hi).
    destruct (IH k (get_token_append p)) as (E1 & E2 & E3 & E4 & E5);
      [simpl in Hk; lia|by unfold get_token_append; simpl; rewrite Hi
      |done|done|].
    split; [done|]. split; [|done].
    rewrite E2, icode_get_token_append. unfold p_token. rewrite Hi.
    simpl. by rewrite <- app_assoc.
Qed.

(** C7 — the statement-list driver.  It dispatches one statement, then
    consumes the run of separators in front of the cursor; it stops
    with that state when the current token is the terminator or
    end-of-input, and otherwise goes round again from it.  So what it
    returns always stands at the terminator or at end-of-input, and
    it dispatches exactly two statements when the first leaves the
    cursor before a token that is neither, and the second before one
    that is. *)
Theorem statement_list_driver n fid terminator :
  (∀ p q, parse_statement_list n fid terminator p = Some q →
          token q = terminator ∨ token q = tc_end_of_file)
  ∧ (∀ p semis rest,
       input p = semis ++ rest →
       Forall (λ t, code t = tc_semicolon) semis →
       head (code <$> rest) ≠ Some tc_semicolon →
       input (skip_semicolons p) = rest
       ∧ icode (skip_semicolons p) = icode p ++ (ic_token <$> semis)
       ∧ dispatched (skip_semicolons p) = dispatched p)
  ∧ (∀ p p1,
       parse_statement n fid p = Some p1 →
       token (skip_semicolons p1) = terminator
       ∨ token (skip_semicolons p1) = tc_end_of_file →
       parse_statement_list (S n) fid terminator p
       = Some (skip_semicolons p1))
  ∧ (∀ p p1,
       parse_statement n fid p = Some p1 →
       token (skip_semicolons p1) ≠ terminator →
       token (skip_semicolons p1) ≠ tc_end_of_file →
       parse_statement_list (S n) fid terminator p
       = parse_statement_list n fid terminator (skip_semicolons p1))
  ∧ (∀ p p1 p2,
       parse_statement (S n) fid p = Some p1 →
       token (skip_semicolons p1) ≠ terminator →
       token (skip_semicolons p1) ≠ tc_end_of_file →
       parse_statement n fid (skip_semicolons p1) = Some p2 →
       token (skip_semicolons p2) = terminator
       ∨ token (skip_semicolons p2) = tc_end_of_file →
       parse_statement_list (S (S n)) fid terminator p
       = Some (skip_semicolons p2)).
Proof.
  assert (∀ k p p1,
            parse_statement k fid p = Some p1 →
            token (skip_semicolons p1) = terminator
            ∨ token (skip_semicolons p1) = tc_end_of_file →
            parse_statement_list (S k) fid terminator p
            = Some (skip_semicolons p1)) as Hstop.
  { intros k p p1 H Ht. rewrite parse_statement_list_unfold, H.
    rewrite bind_Some_eq. cbv zeta. rewrite decide_False; [done|].
    intros [? ?]. by destruct Ht. }
  assert (∀ k p p1,
            parse_statement k fid p = Some p1 →
            token (skip_semicolons p1) ≠ terminator →
            token (skip_semicolons p1) ≠ tc_end_of_file →
            parse_statement_list (S k) fid terminator p
            = parse_statement_list k fid terminator (skip_semicolons p1))
    as Hgo.
  { intros k p p1 H Ht He. rewrite parse_statement_list_unfold, H.
    rewrite bind_Some_eq. cbv zeta. by rewrite decide_True. }
  split_and!.
  - induction n as [|k IH]; intros p q H; [discriminate|].
    rewrite parse_statement_list_unfold in H.
    destruct (parse_statement k fid p) as [p1|]; [|discriminate].
    rewrite bind_Some_eq in H. cbv zeta in H.
    case_decide as Hd; [by eapply IH|]. injection H as <-.
    destruct (decide (token (skip_semicolons p1) = terminator)); [by left|].
    destruct (decide (token (skip_semicolons p1) = tc_end_of_file));
      [by right|].
    by destruct Hd.
  - intros p semis rest Hi Hs Hr.
    destruct (skip_semicolons_loop_run (length (input p)) semis rest p)
      as (E1 & E2 & _ & _ & E3); try done.
    rewrite Hi, length_app. lia.
  - apply Hstop.
  - apply Hgo.
  - intros p p1 p2 H1 Ht He H2 Hend.
    rewrite (Hgo _ _ _ H1 Ht He). by apply Hstop.
Qed.

(** C8 — [return].  The routine consumes the [return] keyword, parses
    an expression, and adds exactly one incompatible-types error when
    the type of the expression is not assignment compatible with the
    return type of the enclosing routine, and none when it is. *)
Theorem return_type_check fid p :
  let r := parse_expression (get_token_append p) in
  let compatible := assignment_compatible (p_type fid) r.1 in
  let q := parse_RETURN fid p in
  input (get_token_append p) = tail (input p)
  ∧ icode (get_token_append p) = icode p ++ [ic_token (p_token p)]
  ∧ errors q
    = errors r.2 ++ (if compatible then [] else [err_incompatible_types])
  ∧ error_count err_incompatible_types q
    = error_count err_incompatible_types r.2
      + (if compatible then 0 else 1)
  ∧ input q = input r.2 ∧ icode q = icode r.2.
Proof.
  intros r compatible q. do 2 (split; [done|]).
  unfold q. unfold_parse_RETURN.
  fold r. destruct r as [t pe] eqn:E. cbn [fst snd] in compatible.
  unfold check_assignment_type_compatible. fold compatible.
  destruct compatible; simpl.
  - rewrite app_nil_r. split_and!; try done; lia.
  - split_and!; try done.
    change (error_count err_incompatible_types
              (cx_error err_incompatible_types pe)
            = error_count err_incompatible_types pe + 1).
    rewrite error_count_cx_error. lia.
Qed.

(** C9 — the directive marker.  When the dispatcher stands at [#], it
    advances the cursor with [get_token], which leaves the stream as
    it is, and hands over to the directive parser; at [break] and at
    [const] it advances with [get_token_append], which appends the
    consumed keyword to the stream and changes nothing else in it. *)
Theorem directive_marker_not_appended n fid p :
  let ps := insert_line_marker (set_dispatched (S (dispatched p)) p) in
  let finish q :=
    if decide (token q ≠ tc_end_of_file)
    then resync tokenlist_statement_follow tokenlist_statement_start q
    else q in
  (token ps = tc_pound →
     parse_statement (S n) fid p
     = Some (finish (parse_execute_directive fid (get_token ps))))
  ∧ (input (get_token ps) = tail (input ps)
     ∧ icode (get_token ps) = icode ps)
  ∧ (token ps = tc_BREAK →
       parse_statement (S n) fid p = Some (finish (get_token_append ps)))
  ∧ (token ps = tc_CONST →
       parse_statement (S n) fid p
       = Some (finish (parse_constant_declaration fid
                         (get_token_append ps))))
  ∧ (input (get_token_append ps) = tail (input ps)
     ∧ icode (get_token_append ps) = icode ps ++ [ic_token (p_token ps)])
  ∧ (∀ q, icode (finish q) = icode q).
Proof.
  intros ps finish. split_and!; try done.
  - intros Ht. rewrite parse_statement_unfold. cbv zeta. fold ps.
    by rewrite Ht.
  - intros Ht. rewrite parse_statement_unfold. cbv zeta. fold ps.
    by rewrite Ht.
  - intros Ht. rewrite parse_statement_unfold. cbv zeta. fold ps.
    by rewrite Ht.
  - intros q. unfold finish. case_decide; [apply icode_resync|done].
Qed.

(** C10 — a string as case label.  When the case-label validator finds
    a string token as the case value, it does not consume it, whether
    the literal is valid (no sign, length 3) or not: the required-colon
    check that follows looks at the string token, reports the
    missing-colon error and leaves the cursor on the string token,
    whatever comes after it in the input. *)
Theorem case_label_string_not_consumed n fid ty p :
  let p1 := get_token_append p in
  let sign_flag := token_in (token p1) tokenlist_unary_ops in
  let p2 := if sign_flag then get_token_append p1 else p1 in
  token p2 = tc_string →
  let invalid :=
    sign_flag || negb (String.length (string__ (p_token p2)) =? 3) in
  ∃ p4,
    parse_case_label n fid ty p = parse_statement_list n fid tc_BREAK p4
    ∧ input p4 = input p2 ∧ token p4 = tc_string ∧ icode p4 = icode p2
    ∧ errors p4
      = errors p2 ++ (if invalid then [err_invalid_constant] else [])
        ++ [err_missing_colon].
Proof.
  intros p1 sign_flag p2 Ht invalid.
  unfold_parse_case_label. fold p1 sign_flag.
  assert ((if sign_flag then (true, get_token_append p1) else (false, p1))
          = (sign_flag, p2)) as -> by (unfold p2; by destruct sign_flag).
  cbv beta iota zeta. rewrite Ht. fold invalid.
  unfold conditional_get_token_append.
  destruct invalid.
  - rewrite decide_False by (change (tc_colon ≠ token p2); by rewrite Ht).
    eexists. split; [done|]. split_and!; try done.
    simpl. by rewrite <- app_assoc.
  - rewrite decide_False by (by rewrite Ht).
    eexists. split; [done|]. by split_and!.
Qed.

(** ** The stream written by the two simple loops *)



(** X1 — every statement keeps the marker discipline.  Not only the
    four forms that reserve markers themselves: for every statement
    and every statement list, of whatever form and nesting, the
    marker calls made between entry and return reserve no marker
    twice and fix up each marker exactly as often as it is reserved,
    and the stream on return is the stream on entry followed by the
    code of the statement. *)
Theorem every_statement_keeps_discipline n fid :
  (∀ p q, parse_statement n fid p = Some q →
     (∃ e, mlog q = mlog p ++ e ∧ exactly_once e)
     ∧ ∃ c, icode q = icode p ++ c)
  ∧ (∀ t p q, parse_statement_list n fid t p = Some q →
       (∃ e, mlog q = mlog p ++ e ∧ exactly_once e)
       ∧ ∃ c, icode q = icode p ++ c).
Proof.
  destruct (discipline n fid) as (IHs & IHl & _). split.
  - intros p q H. pose proof (IHs _ _ H) as Hc. split.
    + destruct Hc as (e & [R _] & X). by exists e.
    + by apply closed_emits.
  - intros t p q H. pose proof (IHl _ _ _ H) as Hc. split.
    + destruct Hc as (e & [R _] & X). by exists e.
    + by apply closed_emits.
Qed.

(** X5 — [switch] and compound blocks reserve no marker.  The marker
    calls made during a [switch] statement are those of its selector
    expression followed by those of its controlled statement, and
    the marker calls made during a block are those of its statement
    list: neither routine calls [put_location_marker] or
    [fixup_location_marker] itself. *)
Theorem switch_and_compound_reserve_no_marker n fid p q :
  (parse_SWITCH (S n) fid p = Some q →
     ∃ eE eS,
       expression_events eE ∧ statement_events n fid eS
       ∧ mlog q = mlog p ++ eE ++ eS)
  ∧ (parse_compound (S n) fid p = Some q →
       ∃ eL,
         statement_list_events n fid tc_right_bracket eL
         ∧ mlog q = mlog p ++ eL).
Proof.
  destruct (discipline n fid) as (IHs & IHl & _). split; intros H.
  - rewrite parse_SWITCH_unfold in H. exec H.
    destruct (IHs _ _ H) as (eS & RS & XS).
    exists e, eS. split; [done|].
    split; [eexists _, _; split; [exact H|apply RS]|].
    assert (marker_run p q (e ++ eS)) as [Hm _] by run_shape.
    exact Hm.
  - rewrite parse_compound_unfold in H. exec H.
    exists e. split; [done|].
    case_decide; injection H as <-.
    + assert (marker_run p p1 e) as [Hm _] by run_shape. exact Hm.
    + assert (marker_run p
                (conditional_get_token_append tc_right_bracket
                   err_missing_right_bracket p1) e) as [Hm _] by run_shape.
      exact Hm.
Qed.

End Properties.

(** * The sample collaborators keep the discipline *)

Lemma demo_silent (f : cx_parser → cx_parser) :
  (∀ p, mlog (f p) = mlog p ∧ ∃ c, icode (f p) = icode p ++ c) →
  well_behaved f.
Proof.
  intros H p. destruct (H p) as (Hl & c & Hc). exists [].
  split; [by eapply silent_run|apply exactly_once_nil].
Qed.

Lemma demo_line_marker_ok : well_behaved Demo.insert_line_marker.
Proof. apply demo_silent. intros p. split; [done|by eexists]. Qed.

Lemma demo_expression_ok :
  well_behaved (λ p, (Demo.parse_expression p).2).
Proof. apply demo_silent. intros p. split; [done|by eexists]. Qed.

Lemma demo_declaration_ok fid :
  well_behaved (Demo.parse_declarations_or_assignment fid).
Proof. apply demo_expression_ok. Qed.

Lemma demo_constant_ok fid :
  well_behaved (Demo.parse_constant_declaration fid).
Proof. apply demo_expression_ok. Qed.

Lemma demo_directive_ok fid :
  well_behaved (Demo.parse_execute_directive fid).
Proof.
  apply demo_silent. intros p. split; [done|].
  exists []. by rewrite app_nil_r.
Qed.

Lemma demo_ok : demo_collaborators_ok.
Proof.
  split; [apply demo_line_marker_ok|]. split; [apply demo_expression_ok|].
  split; [apply demo_declaration_ok|].
  split; [apply demo_constant_ok|apply demo_directive_ok].
Qed.

(** * The claims on sample inputs *)

(** One run of each form: [do { } while (1 + 1)], [while (1 + 1) { }],
    [if (a < b) { }], [if (a < b) { } else { }] and
    [for (i = 0; i < n; i = i + 1) { }]; the [if] reserves one marker
    without [else] and two with it. *)
Lemma marker_balance_witness :
  demo_collaborators_ok
  ∧ (∃ q,
       Demo.parse_DO 6 Demo.main_id (Demo.start Demo.do_input) = Some q
       ∧ mlog q = [Reserve 0; Fixup 0]
       ∧ ∃ eL eE,
           statement_list_events
             Demo.tokenlist_statement_follow Demo.tokenlist_statement_start
             Demo.p_integer_type Demo.p_char_type Demo.is_boolean
             Demo.assignment_compatible Demo.insert_line_marker
             Demo.parse_expression Demo.parse_declarations_or_assignment
             Demo.parse_constant_declaration Demo.parse_execute_directive
             5 Demo.main_id tc_WHILE eL
           ∧ Demo.expression_events eE
           ∧ mlog q = [] ++ [Reserve 0] ++ eL ++ eE ++ [Fixup 0]
           ∧ exactly_once ([Reserve 0] ++ eL ++ eE ++ [Fixup 0]))
  ∧ (∃ q,
       Demo.parse_WHILE 6 Demo.main_id (Demo.start Demo.while_input) = Some q
       ∧ mlog q = [Reserve 0; Fixup 0]
       ∧ ∃ eE eS,
           Demo.expression_events eE ∧ Demo.statement_events 5 Demo.main_id eS
           ∧ mlog q = [] ++ [Reserve 0] ++ eE ++ eS ++ [Fixup 0]
           ∧ exactly_once ([Reserve 0] ++ eE ++ eS ++ [Fixup 0]))
  ∧ (∃ q,
       Demo.parse_IF 6 Demo.main_id
         (Demo.start
            [Demo.t_if; Demo.t_lparen; Demo.ident "a"; Demo.t_less;
          Demo.ident "b"; Demo.t_rparen; Demo.t_lbracket; Demo.t_rbracket]) = Some q
       ∧ mlog q = [Reserve 0; Fixup 0]
       ∧ ∃ t pe qT eE eS1,
           Demo.parse_expression
             (conditional_get_token_append tc_left_paren
                err_missing_left_paren
                (get_token_append (put_location_marker (Demo.start [Demo.t_if; Demo.t_lparen; Demo.ident "a"; Demo.t_less;
                      Demo.ident "b"; Demo.t_rparen; Demo.t_lbracket; Demo.t_rbracket])).2)) = (t, pe)
           ∧ Demo.parse_statement 5 Demo.main_id
               (conditional_get_token_append tc_right_paren
                  err_missing_right_paren
                  (check_boolean Demo.is_boolean t pe)) = Some qT
           ∧ Demo.expression_events eE
           ∧ Demo.statement_events 5 Demo.main_id eS1
           ∧ mlog pe = [] ++ [Reserve 0] ++ eE
           ∧ mlog qT = mlog pe ++ eS1
           ∧ ((token (skip_semicolons qT) ≠ tc_ELSE
               ∧ mlog q = [] ++ [Reserve 0] ++ eE ++ eS1 ++ [Fixup 0]
               ∧ exactly_once ([Reserve 0] ++ eE ++ eS1 ++ [Fixup 0]))
              ∨ (token (skip_semicolons qT) = tc_ELSE
                 ∧ ∃ m' qE eS2,
                     m' = length (icode (skip_semicolons qT))
                     ∧ Demo.parse_statement 5 Demo.main_id
                         (get_token_append
                            (put_location_marker
                               (fixup_location_marker 0
                                  (skip_semicolons qT))).2) = Some qE
                     ∧ Demo.statement_events 5 Demo.main_id eS2
                     ∧ mlog qE
                       = mlog qT ++ [Fixup 0] ++ [Reserve m'] ++ eS2
                     ∧ mlog q
                       = [] ++ [Reserve 0] ++ eE ++ eS1 ++ [Fixup 0]
                         ++ [Reserve m'] ++ eS2 ++ [Fixup m']
                     ∧ exactly_once
                         ([Reserve 0] ++ eE ++ eS1 ++ [Fixup 0]
                          ++ [Reserve m'] ++ eS2 ++ [Fixup m']))))
  ∧ (∃ q,
       Demo.parse_IF 6 Demo.main_id (Demo.start Demo.if_else_input) = Some q
       ∧ mlog q = [Reserve 0; Fixup 0; Reserve 11; Fixup 11]
       ∧ ∃ t pe qT eE eS1,
           Demo.parse_expression
             (conditional_get_token_append tc_left_paren
                err_missing_left_paren
                (get_token_append (put_location_marker (Demo.start Demo.if_else_input)).2)) = (t, pe)
           ∧ Demo.parse_statement 5 Demo.main_id
               (conditional_get_token_append tc_right_paren
                  err_missing_right_paren
                  (check_boolean Demo.is_boolean t pe)) = Some qT
           ∧ Demo.expression_events eE
           ∧ Demo.statement_events 5 Demo.main_id eS1
           ∧ mlog pe = [] ++ [Reserve 0] ++ eE
           ∧ mlog qT = mlog pe ++ eS1
           ∧ ((token (skip_semicolons qT) ≠ tc_ELSE
               ∧ mlog q = [] ++ [Reserve 0] ++ eE ++ eS1 ++ [Fixup 0]
               ∧ exactly_once ([Reserve 0] ++ eE ++ eS1 ++ [Fixup 0]))
              ∨ (token (skip_semicolons qT) = tc_ELSE
                 ∧ ∃ m' qE eS2,
                     m' = length (icode (skip_semicolons qT))
                     ∧ Demo.parse_statement 5 Demo.main_id
                         (get_token_append
                            (put_location_marker
                               (fixup_location_marker 0
                                  (skip_semicolons qT))).2) = Some qE
                     ∧ Demo.statement_events 5 Demo.main_id eS2
                     ∧ mlog qE
                       = mlog qT ++ [Fixup 0] ++ [Reserve m'] ++ eS2
                     ∧ mlog q
                       = [] ++ [Reserve 0] ++ eE ++ eS1 ++ [Fixup 0]
                         ++ [Reserve m'] ++ eS2 ++ [Fixup m']
                     ∧ exactly_once
                         ([Reserve 0] ++ eE ++ eS1 ++ [Fixup 0]
                          ++ [Reserve m'] ++ eS2 ++ [Fixup m']))))
  ∧ ∃ q, Demo.parse_FOR 6 Demo.main_id (Demo.start Demo.for_input) = Some q
         ∧ mlog q = [Reserve 0; Reserve 1; Reserve 2; Reserve 3;
                     Fixup 2; Fixup 3; Fixup 1; Fixup 0]
         ∧ ∃ eI eE eX eS,
             optional (Demo.declaration_events Demo.main_id) eI
             ∧ optional Demo.expression_events eE
             ∧ optional Demo.expression_events eX
             ∧ Demo.statement_events 5 Demo.main_id eS
             ∧ mlog q
               = [Reserve 0; Reserve 1; Reserve 2; Reserve 3]
                 ++ eI ++ [Fixup 2] ++ eE ++ [Fixup 3]
                 ++ eX ++ [Fixup 1] ++ eS ++ [Fixup 0]
             ∧ exactly_once
                 ([Reserve 0; Reserve 1; Reserve 2; Reserve 3]
                  ++ eI ++ [Fixup 2] ++ eE ++ [Fixup 3]
                  ++ eX ++ [Fixup 1] ++ eS ++ [Fixup 0]).
Proof.
  split; [exact demo_ok|]. split_and!.
  - eexists. split; [vm_compute; reflexivity|].
    split; [vm_compute; reflexivity|].
    refine (proj1
      (marker_balance
       Demo.tokenlist_statement_follow Demo.tokenlist_statement_start
       Demo.p_integer_type Demo.p_char_type Demo.is_boolean
       Demo.assignment_compatible Demo.insert_line_marker
       Demo.parse_expression Demo.parse_declarations_or_assignment
       Demo.parse_constant_declaration Demo.parse_execute_directive
       demo_line_marker_ok demo_expression_ok demo_declaration_ok
       demo_constant_ok demo_directive_ok
       5 Demo.main_id (Demo.start Demo.do_input) _) _).
    vm_compute; reflexivity.
  - eexists. split; [vm_compute; reflexivity|].
    split; [vm_compute; reflexivity|].
    refine (proj1 (proj2
      (marker_balance
       Demo.tokenlist_statement_follow Demo.tokenlist_statement_start
       Demo.p_integer_type Demo.p_char_type Demo.is_boolean
       Demo.assignment_compatible Demo.insert_line_marker
       Demo.parse_expression Demo.parse_declarations_or_assignment
       Demo.parse_constant_declaration Demo.parse_execute_directive
       demo_line_marker_ok demo_expression_ok demo_declaration_ok
       demo_constant_ok demo_directive_ok
       5 Demo.main_id (Demo.start Demo.while_input) _)) _).
    vm_compute; reflexivity.
  - eexists. split; [vm_compute; reflexivity|].
    split; [vm_compute; reflexivity|].
    refine (proj1 (proj2 (proj2
      (marker_balance
       Demo.tokenlist_statement_follow Demo.tokenlist_statement_start
       Demo.p_integer_type Demo.p_char_type Demo.is_boolean
       Demo.assignment_compatible Demo.insert_line_marker
       Demo.parse_expression Demo.parse_declarations_or_assignment
       Demo.parse_constant_declaration Demo.parse_execute_directive
       demo_line_marker_ok demo_expression_ok demo_declaration_ok
       demo_constant_ok demo_directive_ok
       5 Demo.main_id
       (Demo.start
          [Demo.t_if; Demo.t_lparen; Demo.ident "a"; Demo.t_less;
          Demo.ident "b"; Demo.t_rparen; Demo.t_lbracket; Demo.t_rbracket]) _))) _).
    vm_compute; reflexivity.
  - eexists. split; [vm_compute; reflexivity|].
    split; [vm_compute; reflexivity|].
    refine (proj1 (proj2 (proj2
      (marker_balance
       Demo.tokenlist_statement_follow Demo.tokenlist_statement_start
       Demo.p_integer_type Demo.p_char_type Demo.is_boolean
       Demo.assignment_compatible Demo.insert_line_marker
       Demo.parse_expression Demo.parse_declarations_or_assignment
       Demo.parse_constant_declaration Demo.parse_execute_directive
       demo_line_marker_ok demo_expression_ok demo_declaration_ok
       demo_constant_ok demo_directive_ok
       5 Demo.main_id (Demo.start Demo.if_else_input) _))) _).
    vm_compute; reflexivity.
  - eexists. split; [vm_compute; reflexivity|].
    split; [vm_compute; reflexivity|].
    refine (proj2 (proj2 (proj2
      (marker_balance
       Demo.tokenlist_statement_follow Demo.tokenlist_statement_start
       Demo.p_integer_type Demo.p_char_type Demo.is_boolean
       Demo.assignment_compatible Demo.insert_line_marker
       Demo.parse_expression Demo.parse_declarations_or_assignment
       Demo.parse_constant_declaration Demo.parse_execute_directive
       demo_line_marker_ok demo_expression_ok demo_declaration_ok
       demo_constant_ok demo_directive_ok
       5 Demo.main_id (Demo.start Demo.for_input) _))) _).
    vm_compute; reflexivity.
Defined.

(** [if (a < b) { } else { }]: the false-branch marker, slot 0,
    holds 11, the slot of the skip-else marker; the skip-else marker
    holds 17, the end of the stream; and [if (a < b) { }]: one
    marker, which holds the end of the stream. *)
Lemma if_else_marker_targets_witness :
  demo_collaborators_ok
  ∧ (∃ q,
      Demo.parse_IF 6 Demo.main_id (Demo.start Demo.if_else_input) = Some q
      ∧ icode q !! 0 = Some (ic_location_marker (Some 11))
      ∧ icode q !! 11 = Some (ic_location_marker (Some 17))
      ∧ icode q !! 12 = Some (ic_token Demo.t_else)
      ∧ length (icode q) = 17
      ∧ ∃ t pe qT lp cE rp cS1 sep1,
          Demo.parse_expression
            (conditional_get_token_append tc_left_paren
               err_missing_left_paren
               (get_token_append (put_location_marker (Demo.start Demo.if_else_input)).2)) = (t, pe)
          ∧ Demo.parse_statement 5 Demo.main_id
              (conditional_get_token_append tc_right_paren
                 err_missing_right_paren
                 (check_boolean Demo.is_boolean t pe)) = Some qT
          ∧ tokens_of tc_left_paren lp ∧ Demo.expression_code cE
          ∧ tokens_of tc_right_paren rp
          ∧ Demo.statement_code 5 Demo.main_id cS1
          ∧ tokens_of tc_semicolon sep1
          ∧ icode pe
            = [] ++ [ic_location_marker None] ++ [ic_token Demo.t_if]
              ++ lp ++ cE
          ∧ icode qT = icode pe ++ rp ++ cS1
          ∧ icode (skip_semicolons qT) = icode qT ++ sep1
          ∧ let t1 := 0 + 2 + length lp + length cE + length rp
                      + length cS1 + length sep1 in
            (token (skip_semicolons qT) ≠ tc_ELSE
             ∧ icode q
               = [] ++ [ic_location_marker (Some t1)]
                 ++ [ic_token Demo.t_if] ++ lp ++ cE ++ rp ++ cS1 ++ sep1)
            ∨ (token (skip_semicolons qT) = tc_ELSE
               ∧ ∃ pE qE cS2 sep2,
                   pE = get_token_append
                          (put_location_marker
                             (fixup_location_marker 0
                                (skip_semicolons qT))).2
                   ∧ Demo.parse_statement 5 Demo.main_id pE = Some qE
                   ∧ Demo.statement_code 5 Demo.main_id cS2
                   ∧ tokens_of tc_semicolon sep2
                   ∧ icode qE = icode pE ++ cS2
                   ∧ icode (skip_semicolons qE) = icode qE ++ sep2
                   ∧ length (icode pE) = t1 + 2
                   ∧ let t2 := t1 + 2 + length cS2 + length sep2 in
                     icode q
                     = [] ++ [ic_location_marker (Some t1)]
                       ++ [ic_token Demo.t_if] ++ lp ++ cE ++ rp ++ cS1
                       ++ sep1
                       ++ [ic_location_marker (Some t2);
                           ic_token (p_token (skip_semicolons qT))]
                       ++ cS2 ++ sep2))
  ∧ (∃ q,
      Demo.parse_IF 6 Demo.main_id
        (Demo.start
           [Demo.t_if; Demo.t_lparen; Demo.ident "a"; Demo.t_less;
          Demo.ident "b"; Demo.t_rparen; Demo.t_lbracket; Demo.t_rbracket]) = Some q
      ∧ icode q !! 0 = Some (ic_location_marker (Some 11))
      ∧ length (icode q) = 11
      ∧ ∃ t pe qT lp cE rp cS1 sep1,
          Demo.parse_expression
            (conditional_get_token_append tc_left_paren
               err_missing_left_paren
               (get_token_append (put_location_marker (Demo.start [Demo.t_if; Demo.t_lparen; Demo.ident "a"; Demo.t_less;
                      Demo.ident "b"; Demo.t_rparen; Demo.t_lbracket; Demo.t_rbracket])).2)) = (t, pe)
          ∧ Demo.parse_statement 5 Demo.main_id
              (conditional_get_token_append tc_right_paren
                 err_missing_right_paren
                 (check_boolean Demo.is_boolean t pe)) = Some qT
          ∧ tokens_of tc_left_paren lp ∧ Demo.expression_code cE
          ∧ tokens_of tc_right_paren rp
          ∧ Demo.statement_code 5 Demo.main_id cS1
          ∧ tokens_of tc_semicolon sep1
          ∧ icode pe
            = [] ++ [ic_location_marker None] ++ [ic_token Demo.t_if]
              ++ lp ++ cE
          ∧ icode qT = icode pe ++ rp ++ cS1
          ∧ icode (skip_semicolons qT) = icode qT ++ sep1
          ∧ let t1 := 0 + 2 + length lp + length cE + length rp
                      + length cS1 + length sep1 in
            (token (skip_semicolons qT) ≠ tc_ELSE
             ∧ icode q
               = [] ++ [ic_location_marker (Some t1)]
                 ++ [ic_token Demo.t_if] ++ lp ++ cE ++ rp ++ cS1 ++ sep1)
            ∨ (token (skip_semicolons qT) = tc_ELSE
               ∧ ∃ pE qE cS2 sep2,
                   pE = get_token_append
                          (put_location_marker
                             (fixup_location_marker 0
                                (skip_semicolons qT))).2
                   ∧ Demo.parse_statement 5 Demo.main_id pE = Some qE
                   ∧ Demo.statement_code 5 Demo.main_id cS2
                   ∧ tokens_of tc_semicolon sep2
                   ∧ icode qE = icode pE ++ cS2
                   ∧ icode (skip_semicolons qE) = icode qE ++ sep2
                   ∧ length (icode pE) = t1 + 2
                   ∧ let t2 := t1 + 2 + length cS2 + length sep2 in
                     icode q
                     = [] ++ [ic_location_marker (Some t1)]
                       ++ [ic_token Demo.t_if] ++ lp ++ cE ++ rp ++ cS1
                       ++ sep1
                       ++ [ic_location_marker (Some t2);
                           ic_token (p_token (skip_semicolons qT))]
                       ++ cS2 ++ sep2)).
Proof.
  split; [exact demo_ok|]. split.
  - eexists. split; [vm_compute; reflexivity|].
    do 4 (split; [vm_compute; reflexivity|]).
    refine (if_else_marker_targets
       Demo.tokenlist_statement_follow Demo.tokenlist_statement_start
       Demo.p_integer_type Demo.p_char_type Demo.is_boolean
       Demo.assignment_compatible Demo.insert_line_marker
       Demo.parse_expression Demo.parse_declarations_or_assignment
       Demo.parse_constant_declaration Demo.parse_execute_directive
       demo_line_marker_ok demo_expression_ok demo_declaration_ok
       demo_constant_ok demo_directive_ok
       5 Demo.main_id (Demo.start Demo.if_else_input) _ _).
    vm_compute; reflexivity.
  - eexists. split; [vm_compute; reflexivity|].
    do 2 (split; [vm_compute; reflexivity|]).
    refine (if_else_marker_targets
       Demo.tokenlist_statement_follow Demo.tokenlist_statement_start
       Demo.p_integer_type Demo.p_char_type Demo.is_boolean
       Demo.assignment_compatible Demo.insert_line_marker
       Demo.parse_expression Demo.parse_declarations_or_assignment
       Demo.parse_constant_declaration Demo.parse_execute_directive
       demo_line_marker_ok demo_expression_ok demo_declaration_ok
       demo_constant_ok demo_directive_ok
       5 Demo.main_id
       (Demo.start
          [Demo.t_if; Demo.t_lparen; Demo.ident "a"; Demo.t_less;
          Demo.ident "b"; Demo.t_rparen; Demo.t_lbracket; Demo.t_rbracket]) _ _).
    vm_compute; reflexivity.
Defined.

(** C2 as stated fails on [if (a < b) { } else { }].  The routine parses
    the then-branch from the state after [)], fixes up the false-branch
    marker, reserves the second marker, appends [else] and is then in
    [Demo.else_entry], from which it parses the else-branch: the code of
    the else-branch starts at position 13.  The false-branch marker,
    slot 0, holds 11, the slot of the skip-else marker. *)
Lemma if_else_false_target_counterexample :
  let pc :=
    conditional_get_token_append tc_left_paren err_missing_left_paren
      (get_token_append
         (put_location_marker (Demo.start Demo.if_else_input)).2) in
  let r := Demo.parse_expression pc in
  let pt :=
    conditional_get_token_append tc_right_paren err_missing_right_paren
      (check_boolean Demo.is_boolean r.1 r.2) in
  ∃ b1 b2 q,
    Demo.parse_statement 5 Demo.main_id pt = Some b1
    ∧ Demo.else_entry
      = get_token_append
          (put_location_marker
             (fixup_location_marker 0 (skip_semicolons b1))).2
    ∧ Demo.parse_statement 5 Demo.main_id Demo.else_entry = Some b2
    ∧ icode b2
      = icode Demo.else_entry
        ++ [ic_line_marker 0; ic_token Demo.t_lbracket;
            ic_line_marker 0; ic_token Demo.t_rbracket]
    ∧ Demo.parse_IF 6 Demo.main_id (Demo.start Demo.if_else_input) = Some q
    ∧ q = fixup_location_marker 11 (skip_semicolons b2)
    ∧ length (icode Demo.else_entry) = 13
    ∧ icode q !! 0 = Some (ic_location_marker (Some 11))
    ∧ icode q !! 11 = Some (ic_location_marker (Some 17))
    ∧ icode q !! 12 = Some (ic_token Demo.t_else)
    ∧ icode q !! 0
      ≠ Some (ic_location_marker (Some (length (icode Demo.else_entry)))).
Proof.
  intros pc r pt. eexists _, _, _.
  split; [vm_compute; reflexivity|].
  split; [vm_compute; reflexivity|].
  split; [vm_compute; reflexivity|].
  split; [vm_compute; reflexivity|].
  split; [vm_compute; reflexivity|].
  split; [vm_compute; reflexivity|].
  repeat split; vm_compute; congruence.
Qed.

(** [for (i = 0; i < n; i = i + 1) { }]: the stream and the log; and
    [for (i = 0; i + 1; ) { }], where the increment is empty. *)
Lemma for_emission_order_witness :
  demo_collaborators_ok
  ∧ (∃ q,
      Demo.parse_FOR 6 Demo.main_id (Demo.start Demo.for_input) = Some q
      ∧ icode q
        = [ic_location_marker (Some 24); ic_location_marker (Some 20);
           ic_location_marker (Some 10); ic_location_marker (Some 14);
           ic_token Demo.t_for; ic_token Demo.t_lparen;
           ic_token (Demo.ident "i"); ic_token Demo.t_equal;
           ic_token (Demo.number "0"); ic_token Demo.t_semicolon;
           ic_token (Demo.ident "i"); ic_token Demo.t_less;
           ic_token (Demo.ident "n"); ic_token Demo.t_semicolon;
           ic_token (Demo.ident "i"); ic_token Demo.t_equal;
           ic_token (Demo.ident "i"); ic_token Demo.t_plus;
           ic_token (Demo.number "1"); ic_token Demo.t_rparen;
           ic_line_marker 0; ic_token Demo.t_lbracket;
           ic_line_marker 0; ic_token Demo.t_rbracket]
      ∧ let p1 := (put_location_marker (Demo.start Demo.for_input)).2 in
        let p2 := (put_location_marker p1).2 in
        let p3 := (put_location_marker p2).2 in
        let p4 := (put_location_marker p3).2 in
        let pI := conditional_get_token_append tc_left_paren
                    err_missing_left_paren (get_token_append p4) in
        let qI := for_init Demo.parse_declarations_or_assignment
                    Demo.main_id pI in
        let pE := fixup_location_marker (length (icode p2)) qI in
        let qE := for_condition Demo.is_boolean Demo.parse_expression pE in
        let pX := fixup_location_marker (length (icode p3)) qE in
        let qX := conditional_get_token_append tc_right_paren
                    err_missing_right_paren
                    (for_increment Demo.parse_expression pX) in
        let pS := fixup_location_marker (length (icode p1)) qX in
        (∃ eI eE eX eS,
           mlog q
           = [] ++ [Reserve 0; Reserve (0 + 1); Reserve (0 + 2);
                    Reserve (0 + 3)]
             ++ eI ++ [Fixup (0 + 2)] ++ eE ++ [Fixup (0 + 3)]
             ++ eX ++ [Fixup (0 + 1)] ++ eS ++ [Fixup 0])
        ∧ length (icode p1) = 0 + 1 ∧ length (icode p2) = 0 + 2
        ∧ length (icode p3) = 0 + 3
        ∧ ∃ qS lp cI s1 cE s2 cX rp cS,
            Demo.parse_statement 5 Demo.main_id pS = Some qS
            ∧ q = fixup_location_marker 0 qS
            ∧ tokens_of tc_left_paren lp
            ∧ icode pI = icode p4 ++ [ic_token Demo.t_for] ++ lp
            ∧ (if decide (token pI ≠ tc_semicolon)
               then icode (Demo.parse_declarations_or_assignment
                             Demo.main_id pI) = icode pI ++ cI
               else cI = [])
            ∧ tokens_of tc_semicolon s1
            ∧ icode qI = icode pI ++ cI ++ s1
            ∧ (if decide (token pE ≠ tc_semicolon)
               then icode (Demo.parse_expression pE).2 = icode pE ++ cE
               else cE = [])
            ∧ tokens_of tc_semicolon s2
            ∧ icode qE = icode pE ++ cE ++ s2
            ∧ (if decide (token pX ≠ tc_right_paren)
               then icode (Demo.parse_expression pX).2 = icode pX ++ cX
               else cX = [])
            ∧ tokens_of tc_right_paren rp
            ∧ icode qX = icode pX ++ cX ++ rp
            ∧ icode qS = icode pS ++ cS
            ∧ let cond := 0 + 5 + length lp + length cI + length s1 in
              let incr := cond + length cE + length s2 in
              let body := incr + length cX + length rp in
              let exit := body + length cS in
              icode q
              = [] ++ [ic_location_marker (Some exit);
                       ic_location_marker (Some body);
                       ic_location_marker (Some cond);
                       ic_location_marker (Some incr)]
                ++ [ic_token Demo.t_for] ++ lp
                ++ cI ++ s1 ++ cE ++ s2 ++ cX ++ rp ++ cS)
  ∧ (∃ q,
      Demo.parse_FOR 6 Demo.main_id (Demo.start Demo.for_int_input) = Some q
      ∧ let p1 := (put_location_marker (Demo.start Demo.for_int_input)).2 in
        let p2 := (put_location_marker p1).2 in
        let p3 := (put_location_marker p2).2 in
        let p4 := (put_location_marker p3).2 in
        let pI := conditional_get_token_append tc_left_paren
                    err_missing_left_paren (get_token_append p4) in
        let qI := for_init Demo.parse_declarations_or_assignment
                    Demo.main_id pI in
        let pE := fixup_location_marker (length (icode p2)) qI in
        let qE := for_condition Demo.is_boolean Demo.parse_expression pE in
        let pX := fixup_location_marker (length (icode p3)) qE in
        let qX := conditional_get_token_append tc_right_paren
                    err_missing_right_paren
                    (for_increment Demo.parse_expression pX) in
        let pS := fixup_location_marker (length (icode p1)) qX in
        (∃ eI eE eX eS,
           mlog q
           = [] ++ [Reserve 0; Reserve (0 + 1); Reserve (0 + 2);
                    Reserve (0 + 3)]
             ++ eI ++ [Fixup (0 + 2)] ++ eE ++ [Fixup (0 + 3)]
             ++ eX ++ [Fixup (0 + 1)] ++ eS ++ [Fixup 0])
        ∧ length (icode p1) = 0 + 1 ∧ length (icode p2) = 0 + 2
        ∧ length (icode p3) = 0 + 3
        ∧ ∃ qS lp cI s1 cE s2 cX rp cS,
            Demo.parse_statement 5 Demo.main_id pS = Some qS
            ∧ q = fixup_location_marker 0 qS
            ∧ tokens_of tc_left_paren lp
            ∧ icode pI = icode p4 ++ [ic_token Demo.t_for] ++ lp
            ∧ (if decide (token pI ≠ tc_semicolon)
               then icode (Demo.parse_declarations_or_assignment
                             Demo.main_id pI) = icode pI ++ cI
               else cI = [])
            ∧ tokens_of tc_semicolon s1
            ∧ icode qI = icode pI ++ cI ++ s1
            ∧ (if decide (token pE ≠ tc_semicolon)
               then icode (Demo.parse_expression pE).2 = icode pE ++ cE
               else cE = [])
            ∧ tokens_of tc_semicolon s2
            ∧ icode qE = icode pE ++ cE ++ s2
            ∧ (if decide (token pX ≠ tc_right_paren)
               then icode (Demo.parse_expression pX).2 = icode pX ++ cX
               else cX = [])
            ∧ tokens_of tc_right_paren rp
            ∧ icode qX = icode pX ++ cX ++ rp
            ∧ icode qS = icode pS ++ cS
            ∧ let cond := 0 + 5 + length lp + length cI + length s1 in
              let incr := cond + length cE + length s2 in
              let body := incr + length cX + length rp in
              let exit := body + length cS in
              icode q
              = [] ++ [ic_location_marker (Some exit);
                       ic_location_marker (Some body);
                       ic_location_marker (Some cond);
                       ic_location_marker (Some incr)]
                ++ [ic_token Demo.t_for] ++ lp
                ++ cI ++ s1 ++ cE ++ s2 ++ cX ++ rp ++ cS).
Proof.
  split; [exact demo_ok|]. split.
  - eexists. split; [vm_compute; reflexivity|].
    split; [vm_compute; reflexivity|].
    refine (for_emission_order
       Demo.tokenlist_statement_follow Demo.tokenlist_statement_start
       Demo.p_integer_type Demo.p_char_type Demo.is_boolean
       Demo.assignment_compatible Demo.insert_line_marker
       Demo.parse_expression Demo.parse_declarations_or_assignment
       Demo.parse_constant_declaration Demo.parse_execute_directive
       demo_line_marker_ok demo_expression_ok demo_declaration_ok
       demo_constant_ok demo_directive_ok
       5 Demo.main_id (Demo.start Demo.for_input) _ _).
    vm_compute; reflexivity.
  - eexists. split; [vm_compute; reflexivity|].
    refine (for_emission_order
       Demo.tokenlist_statement_follow Demo.tokenlist_statement_start
       Demo.p_integer_type Demo.p_char_type Demo.is_boolean
       Demo.assignment_compatible Demo.insert_line_marker
       Demo.parse_expression Demo.parse_declarations_or_assignment
       Demo.parse_constant_declaration Demo.parse_execute_directive
       demo_line_marker_ok demo_expression_ok demo_declaration_ok
       demo_constant_ok demo_directive_ok
       5 Demo.main_id (Demo.start Demo.for_int_input) _ _).
    vm_compute; reflexivity.
Defined.

(** [{ a ;] with the closing delimiter missing: a standard iterator
    completes, an ordinary routine reports the missing bracket. *)
Lemma compound_closing_delimiter_witness :
  ∃ q1,
    Demo.parse_statement_list 5 Demo.iterator_id tc_right_bracket
      (get_token_append (Demo.start Demo.open_block_input)) = Some q1
    ∧ Demo.parse_statement_list 5 Demo.main_id tc_right_bracket
        (get_token_append (Demo.start Demo.open_block_input)) = Some q1
    ∧ token q1 = tc_end_of_file
    ∧ Demo.parse_compound 6 Demo.iterator_id
        (Demo.start Demo.open_block_input) = Some q1
    ∧ ∃ q, Demo.parse_compound 6 Demo.main_id
             (Demo.start Demo.open_block_input) = Some q
           ∧ errors q = errors q1 ++ [err_missing_right_bracket]
           ∧ input q = input q1 ∧ icode q = icode q1.
Proof.
  eexists. split; [vm_compute; reflexivity|].
  split; [vm_compute; reflexivity|]. split; [vm_compute; reflexivity|].
  split.
  - refine (proj1
      (compound_closing_delimiter
         Demo.tokenlist_statement_follow Demo.tokenlist_statement_start
       Demo.p_integer_type Demo.p_char_type Demo.is_boolean
       Demo.assignment_compatible Demo.insert_line_marker
       Demo.parse_expression Demo.parse_declarations_or_assignment
       Demo.parse_constant_declaration Demo.parse_execute_directive
         5 Demo.iterator_id (Demo.start Demo.open_block_input) _ _) _);
      vm_compute; reflexivity.
  - refine (proj1 (proj2
      (compound_closing_delimiter
         Demo.tokenlist_statement_follow Demo.tokenlist_statement_start
       Demo.p_integer_type Demo.p_char_type Demo.is_boolean
       Demo.assignment_compatible Demo.insert_line_marker
       Demo.parse_expression Demo.parse_declarations_or_assignment
       Demo.parse_constant_declaration Demo.parse_execute_directive
         5 Demo.main_id (Demo.start Demo.open_block_input) _ _)) _ _);
      vm_compute; congruence.
Defined.

(** [while (1 + 1) { }]: one incompatible-types error, and the parse
    returns; likewise [do { } while (1 + 1)], [if (1) x; else y;] and
    [for (i = 0; i + 1; ) { }]. *)
Lemma non_boolean_condition_witness :
  ∃ t pe,
    Demo.parse_expression
      (conditional_get_token_append tc_left_paren err_missing_left_paren
         (get_token_append
            (put_location_marker (Demo.start Demo.while_input)).2))
    = (t, pe)
    ∧ Demo.is_boolean t = false
    ∧ Demo.parse_WHILE 6 Demo.main_id (Demo.start Demo.while_input)
      = (q ← Demo.parse_statement 5 Demo.main_id
               (conditional_get_token_append tc_right_paren
                  err_missing_right_paren
                  (cx_error err_incompatible_types pe));
         Some (fixup_location_marker 0 q))
    ∧ errors <$> Demo.parse_WHILE 6 Demo.main_id
                   (Demo.start Demo.while_input)
      = Some [err_incompatible_types]
    ∧ errors <$> Demo.parse_DO 6 Demo.main_id (Demo.start Demo.do_input)
      = Some [err_incompatible_types]
    ∧ errors <$> Demo.parse_IF 6 Demo.main_id (Demo.start Demo.if_int_input)
      = Some [err_incompatible_types]
    ∧ errors <$> Demo.parse_FOR 6 Demo.main_id
                   (Demo.start Demo.for_int_input)
      = Some [err_incompatible_types].
Proof.
  exists Demo.p_integer_type,
    (Demo.parse_expression
       (conditional_get_token_append tc_left_paren err_missing_left_paren
          (get_token_append
             (put_location_marker (Demo.start Demo.while_input)).2))).2.
  split; [vm_compute; reflexivity|].
  split; [vm_compute; reflexivity|]. split.
  - refine (proj1 (proj2
      (non_boolean_condition
         Demo.tokenlist_statement_follow Demo.tokenlist_statement_start
         Demo.p_integer_type Demo.p_char_type Demo.is_boolean
         Demo.assignment_compatible Demo.insert_line_marker
         Demo.parse_expression Demo.parse_declarations_or_assignment
         Demo.parse_constant_declaration Demo.parse_execute_directive
         5 Demo.main_id (Demo.start Demo.while_input)
         Demo.p_integer_type _ eq_refl)) _).
    vm_compute; reflexivity.
  - repeat split; vm_compute; reflexivity.
Defined.

(** [switch (1.5) { }]: a real selector is reported, and one statement
    is parsed; [switch ('a') { }]: a character selector is accepted. *)
Lemma switch_selector_type_witness :
  ∃ t pe,
    Demo.parse_expression
      (conditional_get_token_append tc_left_paren err_missing_left_paren
         (get_token_append (Demo.start Demo.switch_real_input))) = (t, pe)
    ∧ ∃ ps,
        Demo.parse_SWITCH 6 Demo.main_id (Demo.start Demo.switch_real_input)
        = Demo.parse_statement 5 Demo.main_id ps
        ∧ errors ps = [err_incompatible_types]
        ∧ errors <$> Demo.parse_SWITCH 6 Demo.main_id
                       (Demo.start Demo.switch_input) = Some []
        ∧ (errors ps
           = errors (conditional_get_token_append tc_right_paren
                       err_missing_right_paren pe)
             ++ [err_incompatible_types]
           ↔ ¬ (type_addr (base_type t) = type_addr Demo.p_integer_type
                ∨ type_addr (base_type t) = type_addr Demo.p_char_type
                ∨ form (base_type t) = fc_enum)).
Proof.
  eexists _, _. split; [vm_compute; reflexivity|].
  destruct (switch_selector_type
         Demo.tokenlist_statement_follow Demo.tokenlist_statement_start
       Demo.p_integer_type Demo.p_char_type Demo.is_boolean
       Demo.assignment_compatible Demo.insert_line_marker
       Demo.parse_expression Demo.parse_declarations_or_assignment
       Demo.parse_constant_declaration Demo.parse_execute_directive
         5 Demo.main_id (Demo.start Demo.switch_real_input)
         Demo.p_real_type
         (Demo.parse_expression
            (conditional_get_token_append tc_left_paren
               err_missing_left_paren
               (get_token_append (Demo.start Demo.switch_real_input)))).2
         eq_refl)
    as (ps & Hs & _ & _ & _ & Hbad & _).
  exists ps. split; [exact Hs|]. split; [|split; [|exact Hbad]].
  - etransitivity; [apply Hbad|reflexivity].
    vm_compute. intros [H|[H|H]]; discriminate H.
  - vm_compute; reflexivity.
Defined.

(** [a; ; ; b }]: two statements are dispatched. *)
Lemma statement_list_driver_witness :
  ∃ p1 p2,
    Demo.parse_statement 3 Demo.main_id (Demo.start Demo.list_input)
    = Some p1
    ∧ input p1
      = [Demo.t_semicolon; Demo.t_semicolon; Demo.t_semicolon]
        ++ [Demo.ident "b"; Demo.t_rbracket]
    ∧ input (skip_semicolons p1) = [Demo.ident "b"; Demo.t_rbracket]
    ∧ Demo.parse_statement 2 Demo.main_id (skip_semicolons p1) = Some p2
    ∧ token (skip_semicolons p2) = tc_right_bracket
    ∧ Demo.parse_statement_list 4 Demo.main_id tc_right_bracket
        (Demo.start Demo.list_input) = Some (skip_semicolons p2)
    ∧ dispatched (skip_semicolons p2) = 2.
Proof.
  eexists _, _. split; [vm_compute; reflexivity|].
  split; [vm_compute; reflexivity|].
  split.
  { refine (proj1 (proj1 (proj2
      (statement_list_driver
         Demo.tokenlist_statement_follow Demo.tokenlist_statement_start
       Demo.p_integer_type Demo.p_char_type Demo.is_boolean
       Demo.assignment_compatible Demo.insert_line_marker
       Demo.parse_expression Demo.parse_declarations_or_assignment
       Demo.parse_constant_declaration Demo.parse_execute_directive
         2 Demo.main_id tc_right_bracket)) _
         [Demo.t_semicolon; Demo.t_semicolon; Demo.t_semicolon]
         [Demo.ident "b"; Demo.t_rbracket] _ _ _));
      [vm_compute; reflexivity|repeat constructor|vm_compute; congruence]. }
  split; [vm_compute; reflexivity|].
  split; [vm_compute; reflexivity|].
  split; [|vm_compute; reflexivity].
  refine (proj2 (proj2 (proj2 (proj2
      (statement_list_driver
         Demo.tokenlist_statement_follow Demo.tokenlist_statement_start
       Demo.p_integer_type Demo.p_char_type Demo.is_boolean
       Demo.assignment_compatible Demo.insert_line_marker
       Demo.parse_expression Demo.parse_declarations_or_assignment
       Demo.parse_constant_declaration Demo.parse_execute_directive
         2 Demo.main_id tc_right_bracket)))) _ _ _ _ _ _ _ _);
    [vm_compute; reflexivity|vm_compute; congruence|vm_compute; congruence
    |vm_compute; reflexivity|left; vm_compute; reflexivity].
Defined.

(** [return 'a'] in a routine that returns an integer. *)
Lemma return_type_check_witness :
  errors (Demo.parse_RETURN Demo.main_id (Demo.start Demo.return_char_input))
  = [err_incompatible_types]
  ∧ errors (Demo.parse_RETURN Demo.main_id
              (Demo.start Demo.return_int_input)) = [].
Proof.
  split.
  - refine (eq_trans (proj1 (proj2 (proj2
      (return_type_check Demo.assignment_compatible Demo.parse_expression
         Demo.main_id (Demo.start Demo.return_char_input))))) _).
    vm_compute; reflexivity.
  - refine (eq_trans (proj1 (proj2 (proj2
      (return_type_check Demo.assignment_compatible Demo.parse_expression
         Demo.main_id (Demo.start Demo.return_int_input))))) _).
    vm_compute; reflexivity.
Defined.

(** [# include ;]: the [#] is not in the stream; [break ;] and
    [const c = 1 ;]: the keyword is. *)
Lemma directive_marker_not_appended_witness :
  token (Demo.insert_line_marker
           (set_dispatched 1 (Demo.start Demo.directive_input))) = tc_pound
  ∧ (icode <$> Demo.parse_statement 3 Demo.main_id
                 (Demo.start Demo.directive_input))
    = Some [ic_line_marker 0]
  ∧ (icode <$> Demo.parse_statement 3 Demo.main_id
                 (Demo.start Demo.break_input))
    = Some [ic_line_marker 0; ic_token Demo.t_break]
  ∧ (icode <$> Demo.parse_statement 3 Demo.main_id
                 (Demo.start Demo.const_input))
    = Some [ic_line_marker 0; ic_token Demo.t_const;
            ic_token (Demo.ident "c"); ic_token Demo.t_equal;
            ic_token (Demo.number "1")].
Proof.
  split; [vm_compute; reflexivity|]. split.
  - unfold Demo.parse_statement. rewrite (proj1
      (directive_marker_not_appended
         Demo.tokenlist_statement_follow Demo.tokenlist_statement_start
       Demo.p_integer_type Demo.p_char_type Demo.is_boolean
       Demo.assignment_compatible Demo.insert_line_marker
       Demo.parse_expression Demo.parse_declarations_or_assignment
       Demo.parse_constant_declaration Demo.parse_execute_directive
         2 Demo.main_id (Demo.start Demo.directive_input)));
      vm_compute; reflexivity.
  - split.
    + unfold Demo.parse_statement. rewrite (proj1 (proj2 (proj2
        (directive_marker_not_appended
           Demo.tokenlist_statement_follow Demo.tokenlist_statement_start
           Demo.p_integer_type Demo.p_char_type Demo.is_boolean
           Demo.assignment_compatible Demo.insert_line_marker
           Demo.parse_expression Demo.parse_declarations_or_assignment
           Demo.parse_constant_declaration Demo.parse_execute_directive
           2 Demo.main_id (Demo.start Demo.break_input)))));
        vm_compute; reflexivity.
    + vm_compute; reflexivity.
Defined.

(** [case 'a' : x ; break]: the colon is there, and is reported
    missing. *)
Lemma case_label_string_not_consumed_witness :
  token (get_token_append (Demo.start Demo.case_input)) = tc_string
  ∧ ∃ p4,
      Demo.parse_case_label 5 Demo.main_id Demo.p_char_type
        (Demo.start Demo.case_input)
      = Demo.parse_statement_list 5 Demo.main_id tc_BREAK p4
      ∧ input p4
        = [Demo.literal "'a'"; Demo.t_colon; Demo.ident "x";
           Demo.t_semicolon; Demo.t_break]
      ∧ errors p4 = [err_missing_colon].
Proof.
  split; [vm_compute; reflexivity|].
  destruct (case_label_string_not_consumed
         Demo.tokenlist_statement_follow Demo.tokenlist_statement_start
       Demo.tokenlist_unary_ops
       Demo.p_integer_type Demo.p_char_type Demo.is_boolean
       Demo.assignment_compatible Demo.insert_line_marker
       Demo.parse_expression Demo.parse_declarations_or_assignment
       Demo.parse_constant_declaration Demo.parse_execute_directive
         5 Demo.main_id Demo.p_char_type (Demo.start Demo.case_input)
         eq_refl)
    as (p4 & H1 & H2 & _ & _ & H3).
  exists p4. split; [exact H1|]. split; [exact H2|exact H3].
Defined.

(** * Further properties of the routines *)

Section Coverage.

Variables tokenlist_statement_follow tokenlist_statement_start
          tokenlist_unary_ops : list cx_token_code.
Variables p_integer_type p_char_type : cx_type.
Variable is_boolean : cx_type → bool.
Variable assignment_compatible : cx_type → cx_type → bool.
Variable insert_line_marker : cx_parser → cx_parser.
Variable parse_expression : cx_parser → cx_type * cx_parser.
Variable parse_declarations_or_assignment :
  cx_symtab_node → cx_parser → cx_parser.
Variable parse_constant_declaration : cx_symtab_node → cx_parser → cx_parser.
Variable parse_execute_directive : cx_symtab_node → cx_parser → cx_parser.

Local Abbreviation parse_statement :=
  (parse_statement tokenlist_statement_follow tokenlist_statement_start
     p_integer_type p_char_type is_boolean assignment_compatible
     insert_line_marker parse_expression parse_declarations_or_assignment
     parse_constant_declaration parse_execute_directive).
Local Abbreviation parse_statement_list :=
  (parse_statement_list tokenlist_statement_follow tokenlist_statement_start
     p_integer_type p_char_type is_boolean assignment_compatible
     insert_line_marker parse_expression parse_declarations_or_assignment
     parse_constant_declaration parse_execute_directive).
Local Abbreviation parse_DO :=
  (parse_DO tokenlist_statement_follow tokenlist_statement_start
     p_integer_type p_char_type is_boolean assignment_compatible
     insert_line_marker parse_expression parse_declarations_or_assignment
     parse_constant_declaration parse_execute_directive).
Local Abbreviation parse_WHILE :=
  (parse_WHILE tokenlist_statement_follow tokenlist_statement_start
     p_integer_type p_char_type is_boolean assignment_compatible
     insert_line_marker parse_expression parse_declarations_or_assignment
     parse_constant_declaration parse_execute_directive).
Local Abbreviation parse_IF :=
  (parse_IF tokenlist_statement_follow tokenlist_statement_start
     p_integer_type p_char_type is_boolean assignment_compatible
     insert_line_marker parse_expression parse_declarations_or_assignment
     parse_constant_declaration parse_execute_directive).
Local Abbreviation parse_FOR :=
  (parse_FOR tokenlist_statement_follow tokenlist_statement_start
     p_integer_type p_char_type is_boolean assignment_compatible
     insert_line_marker parse_expression parse_declarations_or_assignment
     parse_constant_declaration parse_execute_directive).
Local Abbreviation parse_SWITCH :=
  (parse_SWITCH tokenlist_statement_follow tokenlist_statement_start
     p_integer_type p_char_type is_boolean assignment_compatible
     insert_line_marker parse_expression parse_declarations_or_assignment
     parse_constant_declaration parse_execute_directive).
Local Abbreviation parse_compound :=
  (parse_compound tokenlist_statement_follow tokenlist_statement_start
     p_integer_type p_char_type is_boolean assignment_compatible
     insert_line_marker parse_expression parse_declarations_or_assignment
     parse_constant_declaration parse_execute_directive).
Local Abbreviation parse_case_label :=
  (parse_case_label tokenlist_statement_follow tokenlist_statement_start
     tokenlist_unary_ops
     p_integer_type p_char_type is_boolean assignment_compatible
     insert_line_marker parse_expression parse_declarations_or_assignment
     parse_constant_declaration parse_execute_directive).
Local Abbreviation check_boolean := (check_boolean is_boolean).
Local Abbreviation parse_RETURN :=
  (parse_RETURN assignment_compatible parse_expression).

(** ** Where a statement leaves the cursor *)

Lemma resync_loop_stops k l1 l2 p :
  length (input p) ≤ k →
  token_in (token (resync_loop k l1 l2 p)) l1
  || token_in (token (resync_loop k l1 l2 p)) l2
  || bool_decide (token (resync_loop k l1 l2 p) = tc_end_of_file) = true.
Proof.
  revert p. induction k as [|k IH]; intros p Hk; simpl.
  - assert (token p = tc_end_of_file) as ->.
    { unfold token. destruct (input p); [done|simpl in Hk; lia]. }
    by rewrite orb_true_r.
  - destruct (token_in (token p) l1 || token_in (token p) l2
              || bool_decide (token p = tc_end_of_file)) eqn:E; [done|].
    apply IH. unfold get_token. simpl.
    destruct (input p); simpl in *; lia.
Qed.

Lemma resync_stops l1 l2 p :
  token (resync l1 l2 p) = tc_end_of_file
  ∨ token (resync l1 l2 p) ∈ l1 ∨ token (resync l1 l2 p) ∈ l2.
Proof.
  unfold resync. destruct (token_in (token p) l1) eqn:E.
  - right; left. by apply bool_decide_eq_true in E.
  - pose proof (resync_loop_stops (length (input p)) l1 l2 p (le_n _)) as H.
    apply orb_true_iff in H as [H|H].
    + apply orb_true_iff in H as [H|H];
        apply bool_decide_eq_true in H; auto.
    + apply bool_decide_eq_true in H; auto.
Qed.

(** The last step of the dispatcher. *)
Lemma parse_statement_inv n fid p q :
  parse_statement (S n) fid p = Some q →
  let p1 := insert_line_marker (set_dispatched (S (dispatched p)) p) in
  ∃ r,
    match token p1 with
    | tc_identifier => Some (parse_declarations_or_assignment fid p1)
    | tc_CONST =>
        Some (parse_constant_declaration fid (get_token_append p1))
    | tc_DO => parse_DO n fid p1
    | tc_WHILE => parse_WHILE n fid p1
    | tc_IF => parse_IF n fid p1
    | tc_FOR => parse_FOR n fid p1
    | tc_SWITCH => parse_SWITCH n fid p1
    | tc_BREAK => Some (get_token_append p1)
    | tc_left_bracket => parse_compound n fid p1
    | tc_RETURN => Some (parse_RETURN fid p1)
    | tc_pound => Some (parse_execute_directive fid (get_token p1))
    | _ => Some p1
    end = Some r
    ∧ q = (if decide (token r ≠ tc_end_of_file)
           then resync tokenlist_statement_follow
                  tokenlist_statement_start r
           else r).
Proof.
  intros H p1. rewrite parse_statement_unfold in H. cbv zeta in H.
  fold p1 in H.
  match type of H with
  | ?d ≫= _ = _ => destruct d as [r|] eqn:D; [|discriminate H]
  end.
  rewrite bind_Some_eq in H. injection H as <-. by exists r.
Qed.

(** X6 — a statement always ends at a synchronisation point.  Whatever
    the statement was and whatever the sub-parsers did, when
    [parse_statement] returns the current token is end-of-file, or a
    token of the follow list, or a token of the start list. *)
Theorem statement_ends_at_sync_point n fid p q :
  parse_statement n fid p = Some q →
  token q = tc_end_of_file
  ∨ token q ∈ tokenlist_statement_follow
  ∨ token q ∈ tokenlist_statement_start.
Proof.
  destruct n as [|n]; [discriminate|]. intros H.
  apply parse_statement_inv in H as (r & _ & ->).
  case_decide as Hr.
  - apply resync_stops.
  - left. by destruct (decide (token r = tc_end_of_file)).
Qed.

(** ** Where a statement list stops, and what its callers make of it *)

Lemma statement_list_stops n fid t p q :
  parse_statement_list n fid t p = Some q →
  token q = t ∨ token q = tc_end_of_file.
Proof.
  revert p. induction n as [|n IH]; intros p H; [discriminate|].
  rewrite parse_statement_list_unfold in H.
  destruct (parse_statement n fid p) as [p1|]; [|discriminate].
  rewrite bind_Some_eq in H. cbv zeta in H.
  case_decide as Hd; [by eapply IH|]. injection H as <-.
  destruct (decide (token (skip_semicolons p1) = t)); [by left|].
  destruct (decide (token (skip_semicolons p1) = tc_end_of_file));
    [by right|].
  by destruct Hd.
Qed.

(** X13 — a block reports a missing closing bracket only at the end of
    the input.  For a routine that is not a standard iterator the
    statement list of [parse_compound] returns either at [}], which is
    then consumed and appended without any error, or at end-of-file,
    where [err_missing_right_bracket] is reported and nothing is
    consumed. *)
Theorem compound_missing_bracket_only_at_eof n fid p q :
  which fid ≠ func_std_iterator →
  parse_compound (S n) fid p = Some q →
  ∃ ql,
    parse_statement_list n fid tc_right_bracket (get_token_append p)
    = Some ql
    ∧ ((token ql = tc_right_bracket
        ∧ q = get_token_append ql ∧ errors q = errors ql)
       ∨ (token ql = tc_end_of_file
          ∧ q = cx_error err_missing_right_bracket ql
          ∧ input q = input ql ∧ icode q = icode ql)).
Proof.
  intros Hw H. rewrite parse_compound_unfold in H. cbv zeta in H.
  destruct (parse_statement_list n fid tc_right_bracket (get_token_append p))
    as [ql|] eqn:E; [|discriminate].
  rewrite bind_Some_eq in H. rewrite decide_False in H by done.
  injection H as <-. exists ql. split; [done|].
  unfold conditional_get_token_append.
  destruct (statement_list_stops _ _ _ _ _ E) as [Ht|Ht].
  - left. by rewrite decide_True.
  - right. by rewrite decide_False by (by rewrite Ht).
Qed.

(** X14 — a [do] statement reports a missing [while] only at the end of
    the input.  The body list of [parse_DO] returns either at the
    [while] keyword, which is then consumed without error, or at
    end-of-file; there [err_missing_WHILE] is reported and, the
    cursor not having moved, [err_missing_left_paren] right after
    it.  In both cases the routine goes on to the condition and fixes
    up its marker. *)
Theorem do_missing_while_only_at_eof n fid p q :
  parse_DO (S n) fid p = Some q →
  ∃ ql r t pe,
    parse_statement_list n fid tc_WHILE
      (get_token_append (put_location_marker p).2) = Some ql
    ∧ r = conditional_get_token_append tc_left_paren err_missing_left_paren
            (conditional_get_token_append tc_WHILE err_missing_WHILE ql)
    ∧ parse_expression r = (t, pe)
    ∧ q = fixup_location_marker (length (icode p))
            (conditional_get_token_append tc_right_paren
               err_missing_right_paren (check_boolean t pe))
    ∧ ((token ql = tc_WHILE
        ∧ conditional_get_token_append tc_WHILE err_missing_WHILE ql
          = get_token_append ql)
       ∨ (token ql = tc_end_of_file
          ∧ r = cx_error err_missing_left_paren
                  (cx_error err_missing_WHILE ql))).
Proof.
  intros H. rewrite parse_DO_unfold in H.
  change (put_location_marker p)
    with (length (icode p), (put_location_marker p).2) in H.
  cbv beta iota zeta in H.
  destruct (parse_statement_list n fid tc_WHILE
              (get_token_append (put_location_marker p).2))
    as [ql|] eqn:E; [|discriminate].
  rewrite bind_Some_eq in H.
  destruct (parse_expression _) as [t pe] eqn:Ee.
  injection H as <-. exists ql. eexists _, t, pe.
  split; [done|]. split; [done|]. split; [exact Ee|]. split; [done|].
  unfold conditional_get_token_append.
  destruct (statement_list_stops _ _ _ _ _ E) as [Ht|Ht].
  - left. by rewrite decide_True.
  - right. split; [done|].
    rewrite (decide_False (P := tc_WHILE = token ql)) by (by rewrite Ht).
    rewrite decide_False; [done|].
    change (tc_left_paren ≠ token ql). by rewrite Ht.
Qed.

(** ** The [else] of an [if] *)

(** X15 — an [else] belongs to the nearest [if].  When [parse_IF]
    returns with [else] as the current token, it has consumed an
    [else] of its own: its then-branch (and the separators after it)
    ended at an [else], which the routine appended before parsing an
    else-branch.  An [if] without else-branch never returns at
    [else], so the [else] after a nested [if] is never left to the
    enclosing one. *)
Theorem else_belongs_to_nearest_if n fid p q :
  parse_IF (S n) fid p = Some q →
  token q = tc_ELSE →
  ∃ pT qT qE,
    parse_statement n fid pT = Some qT
    ∧ token (skip_semicolons qT) = tc_ELSE
    ∧ parse_statement n fid
        (get_token_append
           (put_location_marker
              (fixup_location_marker (length (icode p))
                 (skip_semicolons qT))).2) = Some qE
    ∧ q = fixup_location_marker (length (icode (skip_semicolons qT)))
            (skip_semicolons qE).
Proof.
  intros H Hq. rewrite parse_IF_unfold in H.
  change (put_location_marker p)
    with (length (icode p), (put_location_marker p).2) in H.
  cbv beta iota zeta in H.
  destruct (parse_expression _) as [t pe].
  match type of H with
  | context [parse_statement n fid ?x] =>
      exists x; destruct (parse_statement n fid x) as [qT|] eqn:ET;
      [|discriminate H]
  end.
  rewrite bind_Some_eq in H. exists qT.
  case_decide as Hd.
  - match type of H with
    | context [put_location_marker ?x] =>
        change (put_location_marker x)
          with (length (icode x), (put_location_marker x).2) in H
    end.
    cbv beta iota in H.
    match type of H with
    | context [parse_statement n fid ?x] =>
        destruct (parse_statement n fid x) as [qE|] eqn:EE;
        [|discriminate H]
    end.
    rewrite bind_Some_eq in H. injection H as <-.
    exists qE. split; [done|]. split; [exact Hd|]. split; [done|].
    unfold fixup_location_marker at 2. simpl. by rewrite length_insert.
  - injection H as <-. done.
Qed.

(** ** Case labels *)

(** X16 — a case label that is an identifier or a number.  Unlike a
    string label, the label token is consumed and appended, whether
    it is accepted or not: an identifier that is not in the symbol
    table adds [err_undefined_identifier], a number whose literal
    type is not integer adds [err_invalid_constant], and a sign in
    front of either is accepted silently.  The colon is then looked
    for behind the label, so a colon that follows is consumed without
    error. *)
Theorem case_label_name_or_number n fid ty p :
  let p1 := get_token_append p in
  let p2 := if token_in (token p1) tokenlist_unary_ops
            then get_token_append p1 else p1 in
  token p2 = tc_identifier ∨ token p2 = tc_number →
  let rejected : list cx_error_code :=
    match token p2 with
    | tc_identifier =>
        match search_all (string__ (p_token p2)) p2 with
        | Some _ => []
        | None => [err_undefined_identifier]
        end
    | _ =>
        if decide (type (p_token p2) = ty_integer)
        then [] else [err_invalid_constant]
    end in
  ∃ p3 p4,
    parse_case_label n fid ty p = parse_statement_list n fid tc_BREAK p4
    ∧ input p3 = tail (input p2)
    ∧ icode p3 = icode p2 ++ [ic_token (p_token p2)]
    ∧ errors p3 = errors p2 ++ rejected
    ∧ p4 = conditional_get_token_append tc_colon err_missing_colon p3
    ∧ (token p3 = tc_colon →
       input p4 = tail (input p3) ∧ errors p4 = errors p3).
Proof.
  intros p1 p2 Ht rejected.
  unfold_parse_case_label. fold p1.
  assert ((if token_in (token p1) tokenlist_unary_ops
           then (true, get_token_append p1) else (false, p1))
          = (token_in (token p1) tokenlist_unary_ops, p2)) as ->
    by (unfold p2; by destruct (token_in _ _)).
  cbv beta iota zeta. subst rejected.
  assert (∀ p3, token p3 = tc_colon →
            input (conditional_get_token_append tc_colon err_missing_colon p3)
            = tail (input p3)
            ∧ errors (conditional_get_token_append tc_colon
                        err_missing_colon p3) = errors p3) as Hcolon.
  { intros p3 H3. unfold conditional_get_token_append.
    by rewrite decide_True. }
  destruct Ht as [Ht|Ht]; rewrite Ht.
  - destruct (search_all (string__ (p_token p2)) p2) eqn:Es.
    + exists (get_token_append p2). eexists.
      split_and!; try reflexivity; try apply Hcolon.
      exact (eq_sym (app_nil_r _)).
    + exists (get_token_append (cx_error err_undefined_identifier p2)).
      eexists. split_and!; try reflexivity; apply Hcolon.
  - destruct (decide (type (p_token p2) = ty_integer)) as [Hi|Hi].
    + rewrite decide_False by (intros ?; done).
      exists (get_token_append p2). eexists.
      split_and!; try reflexivity; try apply Hcolon.
      exact (eq_sym (app_nil_r _)).
    + rewrite decide_True by done.
      exists (get_token_append (cx_error err_invalid_constant p2)).
      eexists. split_and!; try reflexivity; apply Hcolon.
Qed.

(** X17 — a case label without a value.  The validator does not ask
    for a label: when the token after [case] (and after a sign, if
    there is one) is the colon itself, no branch of its switch
    applies, the colon is consumed, and no error is reported. *)
Theorem case_label_without_value_accepted n fid ty p :
  let p1 := get_token_append p in
  let p2 := if token_in (token p1) tokenlist_unary_ops
            then get_token_append p1 else p1 in
  token p2 = tc_colon →
  ∃ p4,
    parse_case_label n fid ty p = parse_statement_list n fid tc_BREAK p4
    ∧ p4 = get_token_append p2
    ∧ errors p4 = errors p
    ∧ input p4 = tail (input p2).
Proof.
  intros p1 p2 Ht.
  unfold_parse_case_label. fold p1.
  assert ((if token_in (token p1) tokenlist_unary_ops
           then (true, get_token_append p1) else (false, p1))
          = (token_in (token p1) tokenlist_unary_ops, p2)) as ->
    by (unfold p2; by destruct (token_in _ _)).
  cbv beta iota zeta. rewrite Ht.
  unfold conditional_get_token_append.
  rewrite decide_True by (by rewrite Ht).
  exists (get_token_append p2). split_and!; try reflexivity.
  unfold p2. by destruct (token_in _ _).
Qed.

(** ** Relations kept by every routine

    What the routines of the file do to the parser is made of calls on
    the cursor, the stream, the error sink and the marker interface,
    and of calls of the sub-parsers.  So a reflexive and transitive
    relation between the state before and the state after that each
    of these calls keeps is kept by every routine. *)

Section Kept.

Variable Rel : cx_parser → cx_parser → Prop.

Hypothesis Rel_refl : ∀ p, Rel p p.
Hypothesis Rel_trans : ∀ p q r, Rel p q → Rel q r → Rel p r.
Hypothesis Rel_get_token : ∀ p, Rel p (get_token p).
Hypothesis Rel_get_token_append : ∀ p, Rel p (get_token_append p).
Hypothesis Rel_cx_error : ∀ ec p, Rel p (cx_error ec p).
Hypothesis Rel_set_dispatched : ∀ k p, Rel p (set_dispatched k p).
Hypothesis Rel_put_location_marker : ∀ p, Rel p (put_location_marker p).2.
Hypothesis Rel_fixup_location_marker :
  ∀ m p, Rel p (fixup_location_marker m p).
Hypothesis Rel_insert_line_marker : ∀ p, Rel p (insert_line_marker p).
Hypothesis Rel_parse_expression : ∀ p, Rel p (parse_expression p).2.
Hypothesis Rel_declaration :
  ∀ fid p, Rel p (parse_declarations_or_assignment fid p).
Hypothesis Rel_constant : ∀ fid p, Rel p (parse_constant_declaration fid p).
Hypothesis Rel_directive : ∀ fid p, Rel p (parse_execute_directive fid p).

Lemma kept_conditional_get_token_append tc ec p :
  Rel p (conditional_get_token_append tc ec p).
Proof. unfold conditional_get_token_append. case_decide; auto. Qed.

Lemma kept_check_boolean t p : Rel p (check_boolean t p).
Proof. unfold_check_boolean. destruct (is_boolean t); auto. Qed.

Lemma kept_skip_semicolons p : Rel p (skip_semicolons p).
Proof.
  unfold skip_semicolons. generalize (length (input p)) as k. intros k.
  revert p. induction k as [|k IH]; intros p; simpl; [apply Rel_refl|].
  case_decide; [|apply Rel_refl].
  eapply Rel_trans; [apply Rel_get_token_append|apply IH].
Qed.

Lemma kept_resync l1 l2 p : Rel p (resync l1 l2 p).
Proof.
  unfold resync. destruct (token_in (token p) l1); [apply Rel_refl|].
  generalize (length (input p)) as k. intros k.
  revert p. induction k as [|k IH]; intros p; simpl; [apply Rel_refl|].
  destruct (_ || _ || _); [apply Rel_refl|].
  eapply Rel_trans; [apply Rel_get_token|apply IH].
Qed.

Lemma kept_parse_RETURN fid p : Rel (get_token_append p) (parse_RETURN fid p).
Proof.
  unfold_parse_RETURN.
  pose proof (Rel_parse_expression (get_token_append p)) as R.
  destruct (parse_expression (get_token_append p)) as [t p0].
  cbn [fst snd] in R. cbv zeta.
  unfold check_assignment_type_compatible.
  destruct (assignment_compatible _ _); [exact R|].
  eapply Rel_trans; [exact R|apply Rel_cx_error].
Qed.

Lemma kept_for_init fid p :
  Rel p (if decide (token p ≠ tc_semicolon)
         then conditional_get_token_append tc_semicolon err_missing_semicolon
                (parse_declarations_or_assignment fid p)
         else get_token_append p).
Proof.
  case_decide; [|apply Rel_get_token_append].
  eapply Rel_trans; [apply Rel_declaration|].
  apply kept_conditional_get_token_append.
Qed.

Lemma kept_for_condition p :
  Rel p (if decide (token p ≠ tc_semicolon)
         then let '(t, p0) := parse_expression p in
              conditional_get_token_append tc_semicolon err_missing_semicolon
                (check_boolean t p0)
         else get_token_append p).
Proof.
  case_decide; [|apply Rel_get_token_append].
  pose proof (Rel_parse_expression p) as R.
  destruct (parse_expression p) as [t p0]. cbn [fst snd] in R.
  eapply Rel_trans; [exact R|].
  eapply Rel_trans; [apply kept_check_boolean|].
  apply kept_conditional_get_token_append.
Qed.

Lemma kept_for_increment p :
  Rel p (if decide (token p ≠ tc_right_paren)
         then (parse_expression p).2 else p).
Proof. case_decide; [apply Rel_parse_expression|apply Rel_refl]. Qed.

(** Symbolic execution of a routine's equation [H] that records, for
    every state, that it is related to the state before, and where
    the cursor stands after the first steps. *)
Ltac kept_prim :=
  first [ apply Rel_get_token_append | apply Rel_get_token
        | apply kept_conditional_get_token_append | apply Rel_cx_error
        | apply kept_check_boolean | apply kept_skip_semicolons
        | apply kept_resync | apply Rel_set_dispatched
        | apply Rel_fixup_location_marker | apply Rel_insert_line_marker ].

Ltac step_let H :=
  lazymatch type of H with
  | (let x := ?v in @?b x) = ?r =>
      let T := type of v in
      lazymatch T with
      | cx_parser =>
          let p' := fresh "p" in
          pose (p' := v); change (b p' = r) in H; cbv beta in H;
          let R := fresh "R" in let I := fresh "I" in
          lazymatch v with
          | context [parse_declarations_or_assignment ?f ?x] =>
              pose proof (kept_for_init f x : Rel x p') as R
          | context [parse_expression ?x] =>
              first [ pose proof (kept_for_condition x : Rel x p') as R
                    | pose proof (kept_for_increment x : Rel x p') as R ]
          | if ?c then cx_error _ ?x else ?x =>
              assert (Rel x p') as R by (subst p'; destruct c; auto)
          | get_token_append ?x =>
              pose proof (Rel_get_token_append x : Rel x p') as R;
              assert (input p' = tail (input x)) as I by reflexivity
          | ?f ?x =>
              assert (Rel x p') as R by (subst p'; kept_prim)
          end;
          clearbody p'
      | _ => change (b v = r) in H; cbv beta in H
      end
  end.

Ltac step_call H :=
  match type of H with
  | context [put_location_marker ?x] =>
      let m := fresh "m" in let I := fresh "I" in
      let p' := fresh "p" in let R := fresh "R" in let E := fresh "E" in
      pose proof (Rel_put_location_marker x) as R;
      assert (input (put_location_marker x).2 = input x) as I
        by reflexivity;
      destruct (put_location_marker x) as [m p'] eqn:E;
      apply (f_equal fst) in E; change (length (icode x) = m) in E;
      cbn [fst snd] in R, I; cbv beta iota in H; subst m
  | context [parse_expression ?x] =>
      let t := fresh "t" in let p' := fresh "p" in let R := fresh "R" in
      pose proof (Rel_parse_expression x) as R;
      destruct (parse_expression x) as [t p'];
      cbn [fst snd] in R; cbv beta iota in H
  | context [parse_statement ?n ?f ?x] =>
      let p' := fresh "p" in let E := fresh "E" in let R := fresh "R" in
      destruct (parse_statement n f x) as [p'|] eqn:E;
      [|discriminate H];
      match goal with
      | IH : ∀ p q, parse_statement n f p = Some q → Rel p q |- _ =>
          pose proof (IH _ _ E) as R
      end;
      clear E; rewrite bind_Some_eq in H; cbv beta in H
  | context [parse_statement_list ?n ?f ?t ?x] =>
      let p' := fresh "p" in let E := fresh "E" in let R := fresh "R" in
      destruct (parse_statement_list n f t x) as [p'|] eqn:E;
      [|discriminate H];
      match goal with
      | IH : ∀ t p q, parse_statement_list n f t p = Some q → Rel p q
        |- _ => pose proof (IH _ _ _ E) as R
      end;
      clear E; rewrite bind_Some_eq in H; cbv beta in H
  end.

Ltac step H := repeat first [step_let H | step_call H].

(** Put the recorded steps together, from the last state backwards. *)
Ltac kept_chain :=
  lazymatch goal with
  | |- Rel ?p ?p => apply Rel_refl
  | |- Rel _ (fixup_location_marker ?m ?x) =>
      apply (Rel_trans _ x); [kept_chain | apply Rel_fixup_location_marker]
  | |- Rel _ (conditional_get_token_append ?tc ?ec ?x) =>
      apply (Rel_trans _ x);
      [kept_chain | apply kept_conditional_get_token_append]
  | |- Rel _ (get_token_append ?x) =>
      apply (Rel_trans _ x); [kept_chain | apply Rel_get_token_append]
  | |- Rel _ (cx_error ?ec ?x) =>
      apply (Rel_trans _ x); [kept_chain | apply Rel_cx_error]
  | H : Rel ?x ?y |- Rel _ ?y =>
      apply (Rel_trans _ x); [kept_chain | exact H]
  end.

(** What a handler of the dispatcher does after it has consumed the
    token it was called at. *)
Lemma kept_handlers n fid :
  (∀ p q, parse_statement n fid p = Some q → Rel p q)
  ∧ (∀ t p q, parse_statement_list n fid t p = Some q → Rel p q)
  ∧ (∀ p q, parse_DO n fid p = Some q →
       ∃ r, input r = tail (input p) ∧ Rel p r ∧ Rel r q)
  ∧ (∀ p q, parse_WHILE n fid p = Some q →
       ∃ r, input r = tail (input p) ∧ Rel p r ∧ Rel r q)
  ∧ (∀ p q, parse_IF n fid p = Some q →
       ∃ r, input r = tail (input p) ∧ Rel p r ∧ Rel r q)
  ∧ (∀ p q, parse_FOR n fid p = Some q →
       ∃ r, input r = tail (input p) ∧ Rel p r ∧ Rel r q)
  ∧ (∀ p q, parse_SWITCH n fid p = Some q →
       ∃ r, input r = tail (input p) ∧ Rel p r ∧ Rel r q)
  ∧ (∀ p q, parse_compound n fid p = Some q →
       ∃ r, input r = tail (input p) ∧ Rel p r ∧ Rel r q).
Proof.
  induction n as [|n (IHs & IHl & IHdo & IHwh & IHif & IHfor & IHsw & IHco)].
  { repeat split; intros; discriminate. }
  split_and!.
  - intros p q H. rewrite parse_statement_unfold in H. step H.
    match type of H with
    | ?d ≫= _ = _ => destruct d as [r|] eqn:D; [|discriminate H]
    end.
    rewrite bind_Some_eq in H. cbv beta in H. injection H as <-.
    assert (Rel p1 r) as R1.
    { destruct (token p1); try (injection D as <-); try apply Rel_refl;
        first
          [ by auto
          | eapply Rel_trans; [apply Rel_get_token|apply Rel_directive]
          | eapply Rel_trans;
            [apply Rel_get_token_append|apply Rel_constant]
          | eapply Rel_trans;
            [apply Rel_get_token_append|apply kept_parse_RETURN]
          | match goal with
            | IH : ∀ p q, _ = Some q → ∃ r, _ |- _ =>
                destruct (IH _ _ D) as (? & _ & ? & ?);
                eapply Rel_trans; eassumption
            end ]. }
    assert (Rel r (if decide (token r ≠ tc_end_of_file)
                   then resync tokenlist_statement_follow
                          tokenlist_statement_start r
                   else r)) as R2
      by (case_decide; [apply kept_resync|apply Rel_refl]).
    kept_chain.
  - intros t p q H. rewrite parse_statement_list_unfold in H. step H.
    case_decide.
    + apply IHl in H. kept_chain.
    + injection H as <-. kept_chain.
  - intros p q H. rewrite parse_DO_unfold in H. step H.
    injection H as <-. exists p1. split; [congruence|].
    split; kept_chain.
  - intros p q H. rewrite parse_WHILE_unfold in H. step H.
    injection H as <-. exists p1. split; [congruence|].
    split; kept_chain.
  - intros p q H. rewrite parse_IF_unfold in H. step H.
    exists p1. split; [congruence|]. split; [kept_chain|].
    case_decide.
    + step H. injection H as <-. kept_chain.
    + injection H as <-. kept_chain.
  - intros p q H. rewrite parse_FOR_unfold in H. step H.
    injection H as <-. exists p4. split; [congruence|].
    split; kept_chain.
  - intros p q H. rewrite parse_SWITCH_unfold in H. step H.
    apply IHs in H. exists p0. split; [congruence|]. split; kept_chain.
  - intros p q H. rewrite parse_compound_unfold in H. step H.
    exists p0. split; [congruence|]. split; [kept_chain|].
    case_decide; injection H as <-; kept_chain.
Qed.

Lemma kept_case_label n fid ty p q :
  parse_case_label n fid ty p = Some q → Rel p q.
Proof.
  unfold_parse_case_label. intros H.
  destruct (token_in (token (get_token_append p)) tokenlist_unary_ops);
    cbv beta iota zeta in H;
    apply (proj1 (proj2 (kept_handlers n fid))) in H;
    (eapply Rel_trans; [|exact H]);
    match goal with
    | |- context [token ?x] => destruct (token x)
    end;
    repeat match goal with
           | |- context [search_all ?s ?x] => destruct (search_all s x)
           | |- context [decide ?P] => destruct (decide P)
           | |- context [if ?b then cx_error _ _ else _] => destruct b
           end;
    kept_chain.
Qed.

(** The dispatcher at a token for which this file has a handler. *)
Lemma kept_dispatch n fid p q :
  parse_statement n fid p = Some q →
  let p1 := insert_line_marker (set_dispatched (S (dispatched p)) p) in
  has_case (token p1) = true →
  token p1 ≠ tc_identifier →
  ∃ r, input r = tail (input p1) ∧ Rel r q.
Proof.
  destruct n as [|n]; [discriminate|]. intros H p1 Hc Hi.
  apply parse_statement_inv in H as (r & D & ->). fold p1 in D.
  assert (Rel r (if decide (token r ≠ tc_end_of_file)
                 then resync tokenlist_statement_follow
                        tokenlist_statement_start r
                 else r)) as R2
    by (case_decide; [apply kept_resync|apply Rel_refl]).
  destruct (kept_handlers n fid)
    as (_ & _ & IHdo & IHwh & IHif & IHfor & IHsw & IHco).
  destruct (token p1); try discriminate Hc; try done;
    try (injection D as <-);
    first
      [ exists (get_token p1); split; [reflexivity|];
        eapply Rel_trans; [apply Rel_directive|exact R2]
      | exists (get_token_append p1); split; [reflexivity|];
        first [ exact R2
              | eapply Rel_trans; [apply Rel_constant|exact R2]
              | eapply Rel_trans; [apply kept_parse_RETURN|exact R2] ]
      | match goal with
        | IH : ∀ p q, _ = Some q → ∃ r, _ |- _ =>
            destruct (IH _ _ D) as (r' & ? & _ & ?);
            exists r'; split; [done|]; eapply Rel_trans; eassumption
        end ].
Qed.

End Kept.

(** ** The error sink *)

Section Errors.

Hypothesis line_marker_errors :
  ∀ p, errors p `prefix_of` errors (insert_line_marker p).
Hypothesis expression_errors :
  ∀ p, errors p `prefix_of` errors (parse_expression p).2.
Hypothesis declaration_errors :
  ∀ fid p, errors p `prefix_of` errors (parse_declarations_or_assignment fid p).
Hypothesis constant_errors :
  ∀ fid p, errors p `prefix_of` errors (parse_constant_declaration fid p).
Hypothesis directive_errors :
  ∀ fid p, errors p `prefix_of` errors (parse_execute_directive fid p).

(** X10 — errors are only ever added.  If the sub-parsers leave the
    errors already reported in place, then so does every statement,
    every statement list and every case label: the error sink after
    the parse starts with the error sink before it, however many
    errors the statement raised and however the parser resynchronised
    after them.  No routine of the file stops at an error or takes
    one back. *)
Theorem errors_only_added n fid :
  (∀ p q, parse_statement n fid p = Some q →
          errors p `prefix_of` errors q)
  ∧ (∀ t p q, parse_statement_list n fid t p = Some q →
              errors p `prefix_of` errors q)
  ∧ (∀ ty p q, parse_case_label n fid ty p = Some q →
               errors p `prefix_of` errors q).
Proof.
  assert (∀ ec p, errors p `prefix_of` errors (cx_error ec p)) as Herr
    by (intros; by apply prefix_app_r).
  split_and!.
  - apply (kept_handlers (λ p q, errors p `prefix_of` errors q));
      try done; intros; by etrans.
  - apply (kept_handlers (λ p q, errors p `prefix_of` errors q));
      try done; intros; by etrans.
  - intros ty.
    apply (kept_case_label (λ p q, errors p `prefix_of` errors q));
      try done; intros; by etrans.
Qed.

End Errors.

(** ** The cursor *)

Section Cursor.

Hypothesis line_marker_input : ∀ p, input (insert_line_marker p) = input p.
Hypothesis expression_input :
  ∀ p, input (parse_expression p).2 `suffix_of` input p.
Hypothesis declaration_input :
  ∀ fid p, input (parse_declarations_or_assignment fid p) `suffix_of` input p.
Hypothesis constant_input :
  ∀ fid p, input (parse_constant_declaration fid p) `suffix_of` input p.
Hypothesis directive_input :
  ∀ fid p, input (parse_execute_directive fid p) `suffix_of` input p.

Lemma suffix_tail {A} (l : list A) : tail l `suffix_of` l.
Proof. destruct l; [done|]. by apply suffix_cons_r. Qed.

Lemma token_input p q : input q = input p → token q = token p.
Proof. unfold token. by intros ->. Qed.

(** X9 — the cursor only moves forward.  If the sub-parsers only
    consume tokens, then what a statement, a statement list or a case
    label leaves of the input is a suffix of what it found: no
    routine of the file puts a token back, and resynchronisation only
    discards. *)
Theorem cursor_only_forward n fid :
  (∀ p q, parse_statement n fid p = Some q →
          input q `suffix_of` input p)
  ∧ (∀ t p q, parse_statement_list n fid t p = Some q →
              input q `suffix_of` input p)
  ∧ (∀ ty p q, parse_case_label n fid ty p = Some q →
               input q `suffix_of` input p).
Proof.
  assert (∀ p, input (insert_line_marker p) `suffix_of` input p) as Hl
    by (intros; by rewrite line_marker_input).
  assert (∀ p, input (get_token p) `suffix_of` input p) as Hg
    by (intros; apply suffix_tail).
  assert (∀ p, input (get_token_append p) `suffix_of` input p) as Ha
    by (intros; apply suffix_tail).
  split_and!.
  - apply (kept_handlers (λ p q, input q `suffix_of` input p));
      try done; intros; by etrans.
  - apply (kept_handlers (λ p q, input q `suffix_of` input p));
      try done; intros; by etrans.
  - intros ty.
    apply (kept_case_label (λ p q, input q `suffix_of` input p));
      try done; intros; by etrans.
Qed.

(** X8 — the dispatcher consumes the keyword it dispatches on.  At
    [const], [do], [while], [if], [for], [switch], [break], [{],
    [return] and [#] the statement that is parsed takes at least the
    current token: what is left of the input is a suffix of what
    followed that token.  (At an identifier this is up to
    [parse_declarations_or_assignment].) *)
Theorem keyword_is_consumed n fid p q :
  has_case (token p) = true →
  token p ≠ tc_identifier →
  parse_statement n fid p = Some q →
  input q `suffix_of` tail (input p).
Proof.
  intros Hc Hi H.
  assert (input (insert_line_marker (set_dispatched (S (dispatched p)) p))
          = input p) as E by (by rewrite line_marker_input).
  destruct (kept_dispatch (λ p q, input q `suffix_of` input p))
    with (n := n) (fid := fid) (p := p) (q := q) as (r & Hr & Hq);
    try done.
  - intros; by etrans.
  - intros; apply suffix_tail.
  - intros; apply suffix_tail.
  - intros; by rewrite line_marker_input.
  - by rewrite (token_input _ _ E).
  - by rewrite (token_input _ _ E).
  - by rewrite <- E, <- Hr.
Qed.

(** ** The driver at the edges *)

Lemma skip_semicolons_none p :
  token p ≠ tc_semicolon → skip_semicolons p = p.
Proof.
  intros H. unfold skip_semicolons.
  destruct (length (input p)); simpl; [done|]. by rewrite decide_False.
Qed.

(** The dispatcher at a token that falls to [default] and is in the
    follow list, or is end-of-file: a line marker and nothing else. *)
Lemma parse_statement_default n fid p :
  has_case (token p) = false →
  token p = tc_end_of_file ∨ token p ∈ tokenlist_statement_follow →
  parse_statement (S n) fid p
  = Some (insert_line_marker (set_dispatched (S (dispatched p)) p)).
Proof.
  intros Hc Hf. rewrite parse_statement_unfold. cbv zeta.
  set (p1 := insert_line_marker (set_dispatched (S (dispatched p)) p)).
  assert (token p1 = token p) as Et
    by (apply token_input; unfold p1; by rewrite line_marker_input).
  rewrite Et.
  destruct (token p) eqn:E; try discriminate Hc;
    rewrite bind_Some_eq; f_equal;
    (case_decide as Hd; [|done]);
    (destruct Hf as [Hf|Hf]; [congruence|]);
    unfold resync, token_in; rewrite Et;
    by rewrite bool_decide_eq_true_2.
Qed.

(** X11 — the driver on an empty input.  The loop of
    [parse_statement_list] is a do-while: when the current token is
    end-of-file on entry it still dispatches once; that dispatch
    inserts a line marker and consumes and reports nothing, and the
    driver returns right after it, whatever the terminator. *)
Theorem statement_list_at_end_of_input n fid t p :
  token p = tc_end_of_file →
  parse_statement_list (S (S n)) fid t p
  = Some (insert_line_marker (set_dispatched (S (dispatched p)) p)).
Proof.
  intros He. rewrite parse_statement_list_unfold.
  rewrite parse_statement_default by (rewrite He; auto).
  rewrite bind_Some_eq. cbv zeta.
  set (p1 := insert_line_marker (set_dispatched (S (dispatched p)) p)).
  assert (token p1 = tc_end_of_file) as Et.
  { rewrite <- He. apply token_input. unfold p1.
    by rewrite line_marker_input. }
  rewrite skip_semicolons_none by (by rewrite Et).
  by rewrite decide_False by (intros [_ ?]; done).
Qed.

(** X12 — the driver does not get past a stray follow token.  When the
    current token is in the follow list, has no case in the
    dispatcher, and is neither a separator nor the terminator nor
    end-of-file (a [}] in the body of a [do], say), the dispatcher
    consumes nothing and resynchronisation is satisfied where it
    stands, so the loop of [parse_statement_list] goes round at the
    same token again: no amount of fuel lets the driver return. *)
Theorem statement_list_spins_at_stray_follow_token n fid t p :
  has_case (token p) = false →
  token p ∈ tokenlist_statement_follow →
  token p ≠ tc_semicolon →
  token p ≠ t →
  token p ≠ tc_end_of_file →
  parse_statement_list n fid t p = None.
Proof.
  intros Hc Hf Hs Ht He. revert p Hc Hf Hs Ht He.
  induction n as [|n IH]; intros p Hc Hf Hs Ht He; [done|].
  rewrite parse_statement_list_unfold.
  destruct n as [|n]; [done|].
  rewrite parse_statement_default by auto.
  rewrite bind_Some_eq. cbv zeta.
  set (p1 := insert_line_marker (set_dispatched (S (dispatched p)) p)).
  assert (token p1 = token p) as Et
    by (apply token_input; unfold p1; by rewrite line_marker_input).
  rewrite skip_semicolons_none by (by rewrite Et).
  rewrite decide_True by (by rewrite Et).
  apply IH; by rewrite Et.
Qed.

Lemma resync_loop_only_discards k l1 l2 p :
  errors (resync_loop k l1 l2 p) = errors p
  ∧ mlog (resync_loop k l1 l2 p) = mlog p
  ∧ input (resync_loop k l1 l2 p) `suffix_of` input p.
Proof.
  revert p. induction k as [|k IH]; intros p; simpl; [done|].
  destruct (_ || _ || _); [done|].
  destruct (IH (get_token p)) as (E1 & E2 & E3).
  split_and!; [done|done|]. etrans; [exact E3|apply suffix_tail].
Qed.

(** X7 — a token the dispatcher has no case for is passed over in
    silence.  At such a token (a [case] or [default] label, a stray
    [)] and so on) [parse_statement] reports no error, appends
    nothing to the stream after the line marker and calls nothing on
    the marker interface; all it does is let resynchronisation
    discard tokens. *)
Theorem unexpected_token_passed_over_silently n fid p q :
  has_case (token p) = false →
  parse_statement n fid p = Some q →
  let p1 := insert_line_marker (set_dispatched (S (dispatched p)) p) in
  errors q = errors p1 ∧ icode q = icode p1 ∧ mlog q = mlog p1
  ∧ input q `suffix_of` input p.
Proof.
  destruct n as [|n]; [discriminate|]. intros Hc H p1.
  apply parse_statement_inv in H as (r & D & ->). fold p1 in D.
  assert (input p1 = input p) as Ei
    by (unfold p1; by rewrite line_marker_input).
  rewrite (token_input _ _ Ei) in D.
  assert (r = p1) as ->
    by (destruct (token p); try discriminate Hc; by injection D as <-).
  rewrite <- Ei. case_decide; [|done].
  unfold resync. destruct (token_in (token p1) _); [done|].
  destruct (resync_loop_only_discards (length (input p1))
              tokenlist_statement_follow tokenlist_statement_start p1)
    as (E1 & E2 & E3).
  split_and!; try done. apply icode_resync_loop.
Qed.

End Cursor.

(** ** Placeholders in the stream *)

Lemma settled_refl p : settled p p.
Proof. by split. Qed.

Lemma settled_trans p q r : settled p q → settled q r → settled p r.
Proof. intros [L1 U1] [L2 U2]. split; [lia|]. auto. Qed.

(** A step that appends units which are not placeholders. *)
Lemma settled_append p q c :
  icode q = icode p ++ c →
  Forall (λ u, u ≠ ic_location_marker None) c →
  settled p q.
Proof.
  intros Hc Hn. unfold settled, unresolved. rewrite Hc, length_app.
  split; [lia|]. intros i Hi.
  destruct (decide (i < length (icode p))) as [Hlt|Hge].
  - by rewrite lookup_app_l in Hi.
  - rewrite lookup_app_r in Hi by lia.
    rewrite Forall_lookup in Hn. by apply Hn in Hi.
Qed.

Lemma settled_same p q : icode q = icode p → settled p q.
Proof.
  intros H. apply (settled_append _ _ []); [by rewrite app_nil_r|done].
Qed.

Lemma settled_tokens p q tc c :
  icode q = icode p ++ c → tokens_of tc c → settled p q.
Proof.
  intros Hc Ht. apply (settled_append _ _ c); [done|].
  eapply Forall_impl; [exact Ht|]. by intros u (t & -> & _).
Qed.

Lemma settled_get_token p : settled p (get_token p).
Proof. by apply settled_same. Qed.

Lemma settled_get_token_append p : settled p (get_token_append p).
Proof.
  apply (settled_append _ _ [ic_token (p_token p)]); [done|].
  by repeat constructor.
Qed.

Lemma settled_cx_error ec p : settled p (cx_error ec p).
Proof. by apply settled_same. Qed.

Lemma settled_set_dispatched k p : settled p (set_dispatched k p).
Proof. by apply settled_same. Qed.

Lemma settled_conditional_get_token_append tc ec p :
  settled p (conditional_get_token_append tc ec p).
Proof.
  destruct (icode_conditional_get_token_append tc ec p) as (c & Hc & Ht).
  by eapply settled_tokens.
Qed.

Lemma settled_skip_semicolons p : settled p (skip_semicolons p).
Proof.
  destruct (icode_skip_semicolons p) as (c & Hc & Ht).
  by eapply settled_tokens.
Qed.

Lemma settled_resync l1 l2 p : settled p (resync l1 l2 p).
Proof. apply settled_same, icode_resync. Qed.

Lemma settled_check_boolean t p : settled p (check_boolean t p).
Proof. apply settled_same, icode_check_boolean. Qed.

(** A fixup never leaves a placeholder, and resolves its own slot. *)
Lemma settled_fixup_location_marker m p :
  settled p (fixup_location_marker m p).
Proof.
  unfold settled, unresolved. rewrite icode_fixup_location_marker.
  rewrite length_insert. split; [done|]. intros i Hi.
  destruct (decide (i = m)) as [->|Hne].
  - destruct (decide (m < length (icode p))) as [Hlt|Hge].
    + by rewrite list_lookup_insert_eq in Hi.
    + by rewrite list_insert_ge in Hi by lia.
  - by rewrite list_lookup_insert_ne in Hi.
Qed.

Lemma resolved_fixup_location_marker m p :
  m < length (icode p) → ¬ unresolved (fixup_location_marker m p) m.
Proof.
  unfold unresolved. rewrite icode_fixup_location_marker. intros Hlt Hi.
  by rewrite list_lookup_insert_eq in Hi.
Qed.

(** A reserve leaves exactly one new placeholder, in the slot it
    returns. *)
Lemma unresolved_put_location_marker p i :
  unresolved (put_location_marker p).2 i →
  unresolved p i ∨ i = length (icode p).
Proof.
  unfold unresolved. rewrite icode_put_location_marker. intros Hi.
  destruct (decide (i < length (icode p))) as [Hlt|Hge].
  - left. by rewrite lookup_app_l in Hi.
  - right. apply lookup_lt_Some in Hi. rewrite length_app in Hi.
    simpl in Hi. lia.
Qed.

Section Settled.

Hypothesis line_marker_settled : ∀ p, settled p (insert_line_marker p).
Hypothesis expression_settled : ∀ p, settled p (parse_expression p).2.
Hypothesis declaration_settled :
  ∀ fid p, settled p (parse_declarations_or_assignment fid p).
Hypothesis constant_settled :
  ∀ fid p, settled p (parse_constant_declaration fid p).
Hypothesis directive_settled :
  ∀ fid p, settled p (parse_execute_directive fid p).

Lemma settled_for_init fid p :
  settled p
    (if decide (token p ≠ tc_semicolon)
     then conditional_get_token_append tc_semicolon err_missing_semicolon
            (parse_declarations_or_assignment fid p)
     else get_token_append p).
Proof.
  case_decide; [|apply settled_get_token_append].
  eapply settled_trans; [apply declaration_settled|].
  apply settled_conditional_get_token_append.
Qed.

Lemma settled_for_condition p :
  settled p
    (if decide (token p ≠ tc_semicolon)
     then let '(t, p0) := parse_expression p in
          conditional_get_token_append tc_semicolon err_missing_semicolon
            (check_boolean t p0)
     else get_token_append p).
Proof.
  case_decide; [|apply settled_get_token_append].
  pose proof (expression_settled p) as R.
  destruct (parse_expression p) as [t p0]. cbn [fst snd] in R.
  eapply settled_trans; [exact R|].
  eapply settled_trans; [apply settled_check_boolean|].
  apply settled_conditional_get_token_append.
Qed.

Lemma settled_for_increment p :
  settled p (if decide (token p ≠ tc_right_paren)
             then (parse_expression p).2 else p).
Proof. case_decide; [apply expression_settled|apply settled_refl]. Qed.

Lemma settled_parse_RETURN fid p : settled p (parse_RETURN fid p).
Proof.
  unfold_parse_RETURN.
  pose proof (expression_settled (get_token_append p)) as R.
  destruct (parse_expression (get_token_append p)) as [t p0].
  cbn [fst snd] in R. cbv zeta.
  eapply settled_trans; [apply settled_get_token_append|].
  eapply settled_trans; [exact R|].
  unfold check_assignment_type_compatible.
  destruct (assignment_compatible _ _);
    [apply settled_refl|apply settled_cx_error].
Qed.

(** Symbolic execution of a routine's equation [H] that records for
    every step how long the stream is and where a placeholder can
    be. *)
Ltac settled_prim :=
  first [ apply settled_get_token_append | apply settled_get_token
        | apply settled_conditional_get_token_append
        | apply settled_cx_error | apply settled_check_boolean
        | apply settled_skip_semicolons | apply settled_resync
        | apply settled_set_dispatched | apply line_marker_settled ].

Ltac place_let H :=
  lazymatch type of H with
  | (let x := ?v in @?b x) = ?r =>
      let T := type of v in
      lazymatch T with
      | cx_parser =>
          let p' := fresh "p" in
          pose (p' := v); change (b p' = r) in H; cbv beta in H;
          let G := fresh "G" in let U := fresh "U" in
          let N := fresh "N" in
          lazymatch v with
          | fixup_location_marker ?m ?x =>
              pose proof (resolved_fixup_location_marker m x
                          : m < length (icode x) → ¬ unresolved p' m) as N;
              destruct (settled_fixup_location_marker m x
                        : settled x p') as [G U]
          | context [parse_declarations_or_assignment ?f ?x] =>
              destruct (settled_for_init f x : settled x p') as [G U]
          | context [parse_expression ?x] =>
              first [ destruct (settled_for_condition x : settled x p')
                        as [G U]
                    | destruct (settled_for_increment x : settled x p')
                        as [G U] ]
          | if ?c then cx_error _ ?x else ?x =>
              assert (settled x p') as [G U]
                by (subst p'; destruct c;
                    [apply settled_cx_error|apply settled_refl])
          | ?f ?x =>
              assert (settled x p') as [G U] by (subst p'; settled_prim)
          end;
          clearbody p'
      | _ => change (b v = r) in H; cbv beta in H
      end
  end.

Ltac place_call H :=
  match type of H with
  | context [put_location_marker ?x] =>
      let m := fresh "m" in let L := fresh "L" in let V := fresh "V" in
      let p' := fresh "p" in let E := fresh "E" in
      pose proof (unresolved_put_location_marker x) as V;
      pose proof (length_put_location_marker x) as L;
      destruct (put_location_marker x) as [m p'] eqn:E;
      apply (f_equal fst) in E; change (length (icode x) = m) in E;
      cbn [fst snd] in V, L; cbv beta iota in H; subst m
  | context [parse_expression ?x] =>
      let t := fresh "t" in let p' := fresh "p" in
      let G := fresh "G" in let U := fresh "U" in
      destruct (expression_settled x) as [G U];
      destruct (parse_expression x) as [t p'];
      cbn [fst snd] in G, U; cbv beta iota in H
  | context [parse_statement ?n ?f ?x] =>
      let p' := fresh "p" in let E := fresh "E" in
      let G := fresh "G" in let U := fresh "U" in
      destruct (parse_statement n f x) as [p'|] eqn:E;
      [|discriminate H];
      match goal with
      | IH : ∀ p q, parse_statement n f p = Some q → settled p q |- _ =>
          destruct (IH _ _ E) as [G U]
      end;
      clear E; rewrite bind_Some_eq in H; cbv beta in H
  | context [parse_statement_list ?n ?f ?t ?x] =>
      let p' := fresh "p" in let E := fresh "E" in
      let G := fresh "G" in let U := fresh "U" in
      destruct (parse_statement_list n f t x) as [p'|] eqn:E;
      [|discriminate H];
      match goal with
      | IH : ∀ t p q, parse_statement_list n f t p = Some q → settled p q
        |- _ => destruct (IH _ _ _ E) as [G U]
      end;
      clear E; rewrite bind_Some_eq in H; cbv beta in H
  end.

Ltac place H := repeat first [place_let H | place_call H].

(** Follow a placeholder of the last state back to the first. *)
Ltac walk Hi :=
  repeat match type of Hi with
         | unresolved ?y ?i =>
             match goal with
             | N : _ → ¬ unresolved y ?m |- _ =>
                 destruct (decide (i = m)) as [->|?];
                 [exfalso; apply N; [lia|exact Hi]|clear N]
             | U : ∀ i, unresolved y i → unresolved _ i |- _ =>
                 apply U in Hi
             | V : ∀ i, unresolved y i → _ ∨ _ |- _ =>
                 apply V in Hi; destruct Hi as [Hi| ->]; [|exfalso; lia]
             end
         end.

Ltac settle_end :=
  lazymatch goal with
  | |- settled _ (fixup_location_marker ?m ?x) =>
      let G := fresh "G" in let U := fresh "U" in let N := fresh "N" in
      destruct (settled_fixup_location_marker m x) as [G U];
      pose proof (resolved_fixup_location_marker m x) as N
  | |- settled _ (conditional_get_token_append ?tc ?ec ?x) =>
      let G := fresh "G" in let U := fresh "U" in
      destruct (settled_conditional_get_token_append tc ec x) as [G U]
  | _ => idtac
  end.

Ltac settle :=
  settle_end;
  split; [lia|];
  let i := fresh "i" in let Hi := fresh "Hi" in
  intros i Hi; walk Hi; exact Hi.

(** X2 — no placeholder is left behind.  If the sub-parsers never
    shrink the stream and leave no unresolved location marker of
    their own, then neither does any routine of the file: when it
    returns, every slot of the stream that holds an unresolved marker
    held one before the call.  Each marker reserved by a [do],
    [while], [if] or [for], at any depth of nesting, has been given
    its position by then. *)
Theorem no_placeholder_left_behind n fid :
  (∀ p q, parse_statement n fid p = Some q → settled p q)
  ∧ (∀ t p q, parse_statement_list n fid t p = Some q → settled p q)
  ∧ (∀ p q, parse_DO n fid p = Some q → settled p q)
  ∧ (∀ p q, parse_WHILE n fid p = Some q → settled p q)
  ∧ (∀ p q, parse_IF n fid p = Some q → settled p q)
  ∧ (∀ p q, parse_FOR n fid p = Some q → settled p q)
  ∧ (∀ p q, parse_SWITCH n fid p = Some q → settled p q)
  ∧ (∀ p q, parse_compound n fid p = Some q → settled p q).
Proof.
  induction n as [|n (IHs & IHl & IHdo & IHwh & IHif & IHfor & IHsw & IHco)].
  { repeat split; intros; discriminate. }
  split_and!.
  - intros p q H. rewrite parse_statement_unfold in H. place H.
    match type of H with
    | ?d ≫= _ = _ => destruct d as [r|] eqn:D; [|discriminate H]
    end.
    rewrite bind_Some_eq in H. cbv beta in H. injection H as <-.
    assert (settled p1 r) as [G1 U1].
    { destruct (token p1); try (injection D as <-);
        try apply settled_refl;
        first
          [ by auto
          | apply settled_get_token_append
          | apply settled_parse_RETURN
          | eapply settled_trans;
            [apply settled_get_token|apply directive_settled]
          | eapply settled_trans;
            [apply settled_get_token_append|apply constant_settled] ]. }
    assert (settled r (if decide (token r ≠ tc_end_of_file)
                       then resync tokenlist_statement_follow
                              tokenlist_statement_start r
                       else r)) as [G2 U2]
      by (case_decide; [apply settled_resync|apply settled_refl]).
    settle.
  - intros t p q H. rewrite parse_statement_list_unfold in H. place H.
    case_decide.
    + apply IHl in H as [G1 U1]. settle.
    + injection H as <-. settle.
  - intros p q H. rewrite parse_DO_unfold in H. place H.
    injection H as <-. settle.
  - intros p q H. rewrite parse_WHILE_unfold in H. place H.
    injection H as <-. settle.
  - intros p q H. rewrite parse_IF_unfold in H. place H.
    case_decide.
    + place H. injection H as <-. settle.
    + injection H as <-. settle.
  - intros p q H. rewrite parse_FOR_unfold in H. place H.
    injection H as <-. settle.
  - intros p q H. rewrite parse_SWITCH_unfold in H. place H.
    apply IHs in H as [G5 U5]. settle.
  - intros p q H. rewrite parse_compound_unfold in H. place H.
    case_decide; injection H as <-; settle.
Qed.

End Settled.

End Coverage.

(** * The further properties on sample inputs *)

Lemma demo_line_marker_input p : input (Demo.insert_line_marker p) = input p.
Proof. reflexivity. Qed.

Lemma demo_expression_input p :
  input (Demo.parse_expression p).2 `suffix_of` input p.
Proof. apply suffix_drop. Qed.

Lemma demo_directive_input fid p :
  input (Demo.parse_execute_directive fid p) `suffix_of` input p.
Proof. apply suffix_tail. Qed.

Lemma demo_only_consume : demo_collaborators_only_consume.
Proof.
  split; [apply demo_line_marker_input|].
  split; [apply demo_expression_input|].
  split; [intros; apply demo_expression_input|].
  split; [intros; apply demo_expression_input|apply demo_directive_input].
Qed.

Lemma demo_keep_errors : demo_collaborators_keep_errors.
Proof. by split_and!. Qed.

Lemma demo_line_marker_settled p : settled p (Demo.insert_line_marker p).
Proof.
  apply (settled_append _ _ [ic_line_marker 0]); [done|].
  by repeat constructor.
Qed.

Lemma demo_expression_settled p : settled p (Demo.parse_expression p).2.
Proof.
  eapply settled_append; [reflexivity|].
  apply Forall_fmap, Forall_true. by intros t.
Qed.

Lemma demo_directive_settled fid p :
  settled p (Demo.parse_execute_directive fid p).
Proof. by apply settled_same. Qed.

Lemma demo_settled : demo_collaborators_settled.
Proof.
  split; [apply demo_line_marker_settled|].
  split; [apply demo_expression_settled|].
  split; [intros; apply demo_expression_settled|].
  split; [intros; apply demo_expression_settled|apply demo_directive_settled].
Qed.

(** [) ) x]: the two stray parentheses are discarded and the statement
    ends at the identifier, a token of the start list. *)
Lemma statement_ends_at_sync_point_witness :
  ∃ q,
    Demo.parse_statement 1 Demo.main_id
      (Demo.start [Demo.t_rparen; Demo.t_rparen; Demo.ident "x"]) = Some q
    ∧ input q = [Demo.ident "x"]
    ∧ (token q = tc_end_of_file
       ∨ token q ∈ Demo.tokenlist_statement_follow
       ∨ token q ∈ Demo.tokenlist_statement_start).
Proof.
  eexists. split; [vm_compute; reflexivity|].
  split; [vm_compute; reflexivity|].
  refine (statement_ends_at_sync_point
       Demo.tokenlist_statement_follow Demo.tokenlist_statement_start
       Demo.p_integer_type Demo.p_char_type Demo.is_boolean
       Demo.assignment_compatible Demo.insert_line_marker
       Demo.parse_expression Demo.parse_declarations_or_assignment
       Demo.parse_constant_declaration Demo.parse_execute_directive
       1 Demo.main_id
       (Demo.start [Demo.t_rparen; Demo.t_rparen; Demo.ident "x"]) _ _).
  vm_compute; reflexivity.
Defined.

(** [{ a ;] in an ordinary routine: the list ends at end-of-file and
    the bracket is reported missing there. *)
Lemma compound_missing_bracket_only_at_eof_witness :
  which Demo.main_id ≠ func_std_iterator
  ∧ ∃ q,
      Demo.parse_compound 6 Demo.main_id (Demo.start Demo.open_block_input)
      = Some q
      ∧ ∃ ql,
          Demo.parse_statement_list 5 Demo.main_id tc_right_bracket
            (get_token_append (Demo.start Demo.open_block_input)) = Some ql
          ∧ ((token ql = tc_right_bracket
              ∧ q = get_token_append ql ∧ errors q = errors ql)
             ∨ (token ql = tc_end_of_file
                ∧ q = cx_error err_missing_right_bracket ql
                ∧ input q = input ql ∧ icode q = icode ql)).
Proof.
  split; [vm_compute; congruence|].
  eexists. split; [vm_compute; reflexivity|].
  refine (compound_missing_bracket_only_at_eof
       Demo.tokenlist_statement_follow Demo.tokenlist_statement_start
       Demo.p_integer_type Demo.p_char_type Demo.is_boolean
       Demo.assignment_compatible Demo.insert_line_marker
       Demo.parse_expression Demo.parse_declarations_or_assignment
       Demo.parse_constant_declaration Demo.parse_execute_directive
       5 Demo.main_id (Demo.start Demo.open_block_input) _ _ _).
  - vm_compute; congruence.
  - vm_compute; reflexivity.
Defined.

(** [do x ;] and nothing more: the body list ends at end-of-file, and
    the missing [while] and the missing parenthesis are reported. *)
Lemma do_missing_while_only_at_eof_witness :
  ∃ q,
    Demo.parse_DO 4 Demo.main_id
      (Demo.start [Demo.t_do; Demo.ident "x"; Demo.t_semicolon]) = Some q
    ∧ errors q = [err_missing_WHILE; err_missing_left_paren;
                  err_incompatible_types; err_missing_right_paren]
    ∧ ∃ ql r,
        Demo.parse_statement_list 3 Demo.main_id tc_WHILE
          (get_token_append
             (put_location_marker
                (Demo.start [Demo.t_do; Demo.ident "x"; Demo.t_semicolon])).2)
        = Some ql
        ∧ ((token ql = tc_WHILE
            ∧ conditional_get_token_append tc_WHILE err_missing_WHILE ql
              = get_token_append ql)
           ∨ (token ql = tc_end_of_file
              ∧ r = cx_error err_missing_left_paren
                      (cx_error err_missing_WHILE ql))).
Proof.
  eexists. split; [vm_compute; reflexivity|].
  split; [vm_compute; reflexivity|].
  destruct (do_missing_while_only_at_eof
       Demo.tokenlist_statement_follow Demo.tokenlist_statement_start
       Demo.p_integer_type Demo.p_char_type Demo.is_boolean
       Demo.assignment_compatible Demo.insert_line_marker
       Demo.parse_expression Demo.parse_declarations_or_assignment
       Demo.parse_constant_declaration Demo.parse_execute_directive
       3 Demo.main_id
       (Demo.start [Demo.t_do; Demo.ident "x"; Demo.t_semicolon]) _
       ltac:(vm_compute; reflexivity))
    as (ql & r & t & pe & H1 & _ & _ & _ & H2).
  exists ql, r. split; [exact H1|exact H2].
Defined.

(** [if (a < b) x ; else y ; else z]: the routine returns at the second
    [else], having consumed the first. *)
Lemma else_belongs_to_nearest_if_witness :
  ∃ q,
    Demo.parse_IF 3 Demo.main_id
      (Demo.start
         [Demo.t_if; Demo.t_lparen; Demo.ident "a"; Demo.t_less;
          Demo.ident "b"; Demo.t_rparen; Demo.ident "x"; Demo.t_semicolon;
          Demo.t_else; Demo.ident "y"; Demo.t_semicolon;
          Demo.t_else; Demo.ident "z"]) = Some q
    ∧ token q = tc_ELSE
    ∧ input q = [Demo.t_else; Demo.ident "z"]
    ∧ ∃ pT qT qE,
        Demo.parse_statement 2 Demo.main_id pT = Some qT
        ∧ token (skip_semicolons qT) = tc_ELSE
        ∧ Demo.parse_statement 2 Demo.main_id
            (get_token_append
               (put_location_marker
                  (fixup_location_marker 0 (skip_semicolons qT))).2)
          = Some qE
        ∧ q = fixup_location_marker (length (icode (skip_semicolons qT)))
                (skip_semicolons qE).
Proof.
  eexists. split; [vm_compute; reflexivity|].
  split; [vm_compute; reflexivity|]. split; [vm_compute; reflexivity|].
  refine (else_belongs_to_nearest_if
       Demo.tokenlist_statement_follow Demo.tokenlist_statement_start
       Demo.p_integer_type Demo.p_char_type Demo.is_boolean
       Demo.assignment_compatible Demo.insert_line_marker
       Demo.parse_expression Demo.parse_declarations_or_assignment
       Demo.parse_constant_declaration Demo.parse_execute_directive
       2 Demo.main_id
       (Demo.start
          [Demo.t_if; Demo.t_lparen; Demo.ident "a"; Demo.t_less;
           Demo.ident "b"; Demo.t_rparen; Demo.ident "x"; Demo.t_semicolon;
           Demo.t_else; Demo.ident "y"; Demo.t_semicolon;
           Demo.t_else; Demo.ident "z"]) _ _ _);
    vm_compute; reflexivity.
Defined.

(** [case 1 : x ; break] and [case y : x ; break] with [y] undeclared:
    the label is consumed, and so is the colon behind it. *)
Lemma case_label_name_or_number_witness :
  (∃ p3 p4,
     Demo.parse_case_label 5 Demo.main_id Demo.p_integer_type
       (Demo.start [Demo.t_case; Demo.number "1"; Demo.t_colon;
                    Demo.ident "x"; Demo.t_semicolon; Demo.t_break])
     = Demo.parse_statement_list 5 Demo.main_id tc_BREAK p4
     ∧ input p3 = [Demo.t_colon; Demo.ident "x"; Demo.t_semicolon;
                   Demo.t_break]
     ∧ errors p3 = []
     ∧ p4 = conditional_get_token_append tc_colon err_missing_colon p3)
  ∧ (∃ p3 p4,
       Demo.parse_case_label 5 Demo.main_id Demo.p_integer_type
         (Demo.start [Demo.t_case; Demo.ident "y"; Demo.t_colon;
                      Demo.ident "x"; Demo.t_semicolon; Demo.t_break])
       = Demo.parse_statement_list 5 Demo.main_id tc_BREAK p4
       ∧ input p3 = [Demo.t_colon; Demo.ident "x"; Demo.t_semicolon;
                     Demo.t_break]
       ∧ errors p3 = [err_undefined_identifier]
       ∧ p4 = conditional_get_token_append tc_colon err_missing_colon p3).
Proof.
  split.
  - destruct (case_label_name_or_number
       Demo.tokenlist_statement_follow Demo.tokenlist_statement_start
       Demo.tokenlist_unary_ops
       Demo.p_integer_type Demo.p_char_type Demo.is_boolean
       Demo.assignment_compatible Demo.insert_line_marker
       Demo.parse_expression Demo.parse_declarations_or_assignment
       Demo.parse_constant_declaration Demo.parse_execute_directive
       5 Demo.main_id Demo.p_integer_type
       (Demo.start [Demo.t_case; Demo.number "1"; Demo.t_colon;
                    Demo.ident "x"; Demo.t_semicolon; Demo.t_break])
       (or_intror eq_refl))
      as (p3 & p4 & H1 & H2 & _ & H3 & H4 & _).
    exists p3, p4. split; [exact H1|]. split; [exact H2|].
    split; [exact H3|exact H4].
  - destruct (case_label_name_or_number
       Demo.tokenlist_statement_follow Demo.tokenlist_statement_start
       Demo.tokenlist_unary_ops
       Demo.p_integer_type Demo.p_char_type Demo.is_boolean
       Demo.assignment_compatible Demo.insert_line_marker
       Demo.parse_expression Demo.parse_declarations_or_assignment
       Demo.parse_constant_declaration Demo.parse_execute_directive
       5 Demo.main_id Demo.p_integer_type
       (Demo.start [Demo.t_case; Demo.ident "y"; Demo.t_colon;
                    Demo.ident "x"; Demo.t_semicolon; Demo.t_break])
       (or_introl eq_refl))
      as (p3 & p4 & H1 & H2 & _ & H3 & H4 & _).
    exists p3, p4. split; [exact H1|]. split; [exact H2|].
    split; [exact H3|exact H4].
Defined.

(** [case : x ; break]: no value, no error. *)
Lemma case_label_without_value_accepted_witness :
  token (get_token_append
           (Demo.start [Demo.t_case; Demo.t_colon; Demo.ident "x";
                        Demo.t_semicolon; Demo.t_break])) = tc_colon
  ∧ ∃ p4,
      Demo.parse_case_label 5 Demo.main_id Demo.p_integer_type
        (Demo.start [Demo.t_case; Demo.t_colon; Demo.ident "x";
                     Demo.t_semicolon; Demo.t_break])
      = Demo.parse_statement_list 5 Demo.main_id tc_BREAK p4
      ∧ errors p4 = []
      ∧ input p4 = [Demo.ident "x"; Demo.t_semicolon; Demo.t_break].
Proof.
  split; [vm_compute; reflexivity|].
  destruct (case_label_without_value_accepted
       Demo.tokenlist_statement_follow Demo.tokenlist_statement_start
       Demo.tokenlist_unary_ops
       Demo.p_integer_type Demo.p_char_type Demo.is_boolean
       Demo.assignment_compatible Demo.insert_line_marker
       Demo.parse_expression Demo.parse_declarations_or_assignment
       Demo.parse_constant_declaration Demo.parse_execute_directive
       5 Demo.main_id Demo.p_integer_type
       (Demo.start [Demo.t_case; Demo.t_colon; Demo.ident "x";
                    Demo.t_semicolon; Demo.t_break])
       eq_refl)
    as (p4 & H1 & _ & H2 & H3).
  exists p4. split; [exact H1|]. split; [exact H2|exact H3].
Defined.

(** [while (1 + 1) { }] parsed after an error was reported: the old
    error is still the first. *)
Lemma errors_only_added_witness :
  demo_collaborators_keep_errors
  ∧ ∃ q,
      Demo.parse_statement 6 Demo.main_id
        (cx_error err_missing_colon (Demo.start Demo.while_input)) = Some q
      ∧ errors q = [err_missing_colon; err_incompatible_types]
      ∧ [err_missing_colon] `prefix_of` errors q.
Proof.
  split; [exact demo_keep_errors|].
  eexists. split; [vm_compute; reflexivity|].
  split; [vm_compute; reflexivity|].
  refine (proj1 (errors_only_added
       Demo.tokenlist_statement_follow Demo.tokenlist_statement_start
       Demo.tokenlist_unary_ops
       Demo.p_integer_type Demo.p_char_type Demo.is_boolean
       Demo.assignment_compatible Demo.insert_line_marker
       Demo.parse_expression Demo.parse_declarations_or_assignment
       Demo.parse_constant_declaration Demo.parse_execute_directive
       (proj1 demo_keep_errors) (proj1 (proj2 demo_keep_errors))
       (proj1 (proj2 (proj2 demo_keep_errors)))
       (proj1 (proj2 (proj2 (proj2 demo_keep_errors))))
       (proj2 (proj2 (proj2 (proj2 demo_keep_errors))))
       6 Demo.main_id)
       (cx_error err_missing_colon (Demo.start Demo.while_input)) _ _).
  vm_compute; reflexivity.
Defined.

(** [for (i = 0; i < n; i = i + 1) { }] followed by [x]: what is left
    is the end of the input. *)
Lemma cursor_only_forward_witness :
  demo_collaborators_only_consume
  ∧ ∃ q,
      Demo.parse_statement 6 Demo.main_id
        (Demo.start (Demo.for_input ++ [Demo.ident "x"])) = Some q
      ∧ input q = [Demo.ident "x"]
      ∧ input q `suffix_of` Demo.for_input ++ [Demo.ident "x"].
Proof.
  split; [exact demo_only_consume|].
  eexists. split; [vm_compute; reflexivity|].
  split; [vm_compute; reflexivity|].
  refine (proj1 (cursor_only_forward
       Demo.tokenlist_statement_follow Demo.tokenlist_statement_start
       Demo.tokenlist_unary_ops
       Demo.p_integer_type Demo.p_char_type Demo.is_boolean
       Demo.assignment_compatible Demo.insert_line_marker
       Demo.parse_expression Demo.parse_declarations_or_assignment
       Demo.parse_constant_declaration Demo.parse_execute_directive
       demo_line_marker_input demo_expression_input
       (λ _, demo_expression_input) (λ _, demo_expression_input)
       demo_directive_input
       6 Demo.main_id)
       (Demo.start (Demo.for_input ++ [Demo.ident "x"])) _ _).
  vm_compute; reflexivity.
Defined.

(** [return 1 ;]: the keyword is consumed. *)
Lemma keyword_is_consumed_witness :
  demo_collaborators_only_consume
  ∧ has_case (token (Demo.start Demo.return_int_input)) = true
  ∧ token (Demo.start Demo.return_int_input) ≠ tc_identifier
  ∧ ∃ q,
      Demo.parse_statement 1 Demo.main_id (Demo.start Demo.return_int_input)
      = Some q
      ∧ input q `suffix_of` [Demo.number "1"; Demo.t_semicolon].
Proof.
  split; [exact demo_only_consume|].
  split; [vm_compute; reflexivity|]. split; [vm_compute; congruence|].
  eexists. split; [vm_compute; reflexivity|].
  refine (keyword_is_consumed
       Demo.tokenlist_statement_follow Demo.tokenlist_statement_start
       Demo.p_integer_type Demo.p_char_type Demo.is_boolean
       Demo.assignment_compatible Demo.insert_line_marker
       Demo.parse_expression Demo.parse_declarations_or_assignment
       Demo.parse_constant_declaration Demo.parse_execute_directive
       demo_line_marker_input demo_expression_input
       (λ _, demo_expression_input) (λ _, demo_expression_input)
       demo_directive_input
       1 Demo.main_id (Demo.start Demo.return_int_input) _ _ _ _).
  - vm_compute; reflexivity.
  - vm_compute; congruence.
  - vm_compute; reflexivity.
Defined.

(** The empty input: one dispatch, one line marker. *)
Lemma statement_list_at_end_of_input_witness :
  token (Demo.start []) = tc_end_of_file
  ∧ Demo.parse_statement_list 2 Demo.main_id tc_right_bracket (Demo.start [])
    = Some (Demo.insert_line_marker (set_dispatched 1 (Demo.start []))).
Proof.
  split; [vm_compute; reflexivity|].
  refine (statement_list_at_end_of_input
       Demo.tokenlist_statement_follow Demo.tokenlist_statement_start
       Demo.p_integer_type Demo.p_char_type Demo.is_boolean
       Demo.assignment_compatible Demo.insert_line_marker
       Demo.parse_expression Demo.parse_declarations_or_assignment
       Demo.parse_constant_declaration Demo.parse_execute_directive
       demo_line_marker_input
       0 Demo.main_id tc_right_bracket (Demo.start []) _).
  vm_compute; reflexivity.
Defined.

(** The body of [do } while (a < b)]: the driver for the body is
    called at [}] with terminator [while] and does not return. *)
Lemma statement_list_spins_at_stray_follow_token_witness :
  has_case tc_right_bracket = false
  ∧ tc_right_bracket ∈ Demo.tokenlist_statement_follow
  ∧ Demo.parse_statement_list 1000 Demo.main_id tc_WHILE
      (Demo.start [Demo.t_rbracket; Demo.t_while; Demo.t_lparen;
                   Demo.ident "a"; Demo.t_less; Demo.ident "b";
                   Demo.t_rparen]) = None.
Proof.
  split; [vm_compute; reflexivity|].
  split; [vm_compute; repeat constructor|].
  refine (statement_list_spins_at_stray_follow_token
       Demo.tokenlist_statement_follow Demo.tokenlist_statement_start
       Demo.p_integer_type Demo.p_char_type Demo.is_boolean
       Demo.assignment_compatible Demo.insert_line_marker
       Demo.parse_expression Demo.parse_declarations_or_assignment
       Demo.parse_constant_declaration Demo.parse_execute_directive
       demo_line_marker_input
       1000 Demo.main_id tc_WHILE
       (Demo.start [Demo.t_rbracket; Demo.t_while; Demo.t_lparen;
                    Demo.ident "a"; Demo.t_less; Demo.ident "b";
                    Demo.t_rparen]) _ _ _ _ _).
  - vm_compute; reflexivity.
  - vm_compute; repeat constructor.
  - vm_compute; congruence.
  - vm_compute; congruence.
  - vm_compute; congruence.
Defined.

(** [case 1 : x]: the label is discarded without a word. *)
Lemma unexpected_token_passed_over_silently_witness :
  has_case tc_CASE = false
  ∧ ∃ q,
      Demo.parse_statement 1 Demo.main_id
        (Demo.start [Demo.t_case; Demo.number "1"; Demo.t_colon;
                     Demo.ident "x"]) = Some q
      ∧ input q = [Demo.ident "x"]
      ∧ errors q = [] ∧ icode q = [ic_line_marker 0] ∧ mlog q = []
      ∧ input q `suffix_of` [Demo.t_case; Demo.number "1"; Demo.t_colon;
                             Demo.ident "x"].
Proof.
  split; [vm_compute; reflexivity|].
  eexists. split; [vm_compute; reflexivity|].
  split; [vm_compute; reflexivity|].
  refine (unexpected_token_passed_over_silently
       Demo.tokenlist_statement_follow Demo.tokenlist_statement_start
       Demo.p_integer_type Demo.p_char_type Demo.is_boolean
       Demo.assignment_compatible Demo.insert_line_marker
       Demo.parse_expression Demo.parse_declarations_or_assignment
       Demo.parse_constant_declaration Demo.parse_execute_directive
       demo_line_marker_input
       1 Demo.main_id
       (Demo.start [Demo.t_case; Demo.number "1"; Demo.t_colon;
                    Demo.ident "x"]) _ _ _);
    vm_compute; reflexivity.
Defined.

(** [for (i = 0; i < n; i = i + 1) { }]: four markers reserved, none
    unresolved on return. *)
Lemma no_placeholder_left_behind_witness :
  demo_collaborators_settled
  ∧ ∃ q,
      Demo.parse_statement 7 Demo.main_id (Demo.start Demo.for_input)
      = Some q
      ∧ settled (Demo.start Demo.for_input) q.
Proof.
  split; [exact demo_settled|].
  eexists. split; [vm_compute; reflexivity|].
  refine (proj1 (no_placeholder_left_behind
       Demo.tokenlist_statement_follow Demo.tokenlist_statement_start
       Demo.p_integer_type Demo.p_char_type Demo.is_boolean
       Demo.assignment_compatible Demo.insert_line_marker
       Demo.parse_expression Demo.parse_declarations_or_assignment
       Demo.parse_constant_declaration Demo.parse_execute_directive
       demo_line_marker_settled demo_expression_settled
       (λ _, demo_expression_settled) (λ _, demo_expression_settled)
       demo_directive_settled
       7 Demo.main_id) (Demo.start Demo.for_input) _ _).
  vm_compute; reflexivity.
Defined.



(** [if (a < b) { } else { }], dispatched as a statement. *)
Lemma every_statement_keeps_discipline_witness :
  demo_collaborators_ok
  ∧ ∃ q,
      Demo.parse_statement 7 Demo.main_id (Demo.start Demo.if_else_input)
      = Some q
      ∧ (∃ e, mlog q = [] ++ e ∧ exactly_once e)
      ∧ ∃ c, icode q = [] ++ c.
Proof.
  split; [exact demo_ok|].
  eexists. split; [vm_compute; reflexivity|].
  refine (proj1 (every_statement_keeps_discipline
       Demo.tokenlist_statement_follow Demo.tokenlist_statement_start
       Demo.p_integer_type Demo.p_char_type Demo.is_boolean
       Demo.assignment_compatible Demo.insert_line_marker
       Demo.parse_expression Demo.parse_declarations_or_assignment
       Demo.parse_constant_declaration Demo.parse_execute_directive
       demo_line_marker_ok demo_expression_ok demo_declaration_ok
       demo_constant_ok demo_directive_ok
       7 Demo.main_id) (Demo.start Demo.if_else_input) _ _).
  vm_compute; reflexivity.
Defined.

(** [switch ('a') { }] and [{ a ;]: no marker call at all. *)
Lemma switch_and_compound_reserve_no_marker_witness :
  demo_collaborators_ok
  ∧ (∃ q,
       Demo.parse_SWITCH 6 Demo.main_id (Demo.start Demo.switch_input)
       = Some q
       ∧ mlog q = []
       ∧ ∃ eE eS,
           Demo.expression_events eE ∧ Demo.statement_events 5 Demo.main_id eS
           ∧ mlog q = [] ++ eE ++ eS)
  ∧ (∃ q,
       Demo.parse_compound 6 Demo.main_id (Demo.start Demo.open_block_input)
       = Some q
       ∧ ∃ eL,
           statement_list_events
             Demo.tokenlist_statement_follow Demo.tokenlist_statement_start
       Demo.p_integer_type Demo.p_char_type Demo.is_boolean
       Demo.assignment_compatible Demo.insert_line_marker
       Demo.parse_expression Demo.parse_declarations_or_assignment
       Demo.parse_constant_declaration Demo.parse_execute_directive
             5 Demo.main_id tc_right_bracket eL
           ∧ mlog q = [] ++ eL).
Proof.
  split; [exact demo_ok|]. split.
  - eexists. split; [vm_compute; reflexivity|].
    split; [vm_compute; reflexivity|].
    refine (proj1 (switch_and_compound_reserve_no_marker
       Demo.tokenlist_statement_follow Demo.tokenlist_statement_start
       Demo.p_integer_type Demo.p_char_type Demo.is_boolean
       Demo.assignment_compatible Demo.insert_line_marker
       Demo.parse_expression Demo.parse_declarations_or_assignment
       Demo.parse_constant_declaration Demo.parse_execute_directive
       demo_line_marker_ok demo_expression_ok demo_declaration_ok
       demo_constant_ok demo_directive_ok
       5 Demo.main_id (Demo.start Demo.switch_input) _) _).
    vm_compute; reflexivity.
  - eexists. split; [vm_compute; reflexivity|].
    refine (proj2 (switch_and_compound_reserve_no_marker
       Demo.tokenlist_statement_follow Demo.tokenlist_statement_start
       Demo.p_integer_type Demo.p_char_type Demo.is_boolean
       Demo.assignment_compatible Demo.insert_line_marker
       Demo.parse_expression Demo.parse_declarations_or_assignment
       Demo.parse_constant_declaration Demo.parse_execute_directive
       demo_line_marker_ok demo_expression_ok demo_declaration_ok
       demo_constant_ok demo_directive_ok
       5 Demo.main_id (Demo.start Demo.open_block_input) _) _).
    vm_compute; reflexivity.
Defined.
